(** * raysect: the pinhole camera's [observe] and the debug [Light] material

    A shallow embedding of [raysect/optical/observer/pinholecamera.py] and
    [raysect/optical/material/debug.py], and of the triangle mesh of
    [raysect/primitive/mesh/matt/mesh.py].

    Python numbers are modelled over an arithmetic interface [Arith] that has
    two instances: IEEE binary64 ([float], what CPython executes) and the real
    numbers ([R], exact arithmetic).  The program text is written once, over
    the interface; each property is stated at the instance it is about. *)

From Stdlib Require Import ZArith List Bool Lia.
From Stdlib Require Import Reals Lra.
From Stdlib Require Import Floats.
From Stdlib Require Import Sorted.
From Stdlib Require String.
Import ListNotations.

Set Implicit Arguments.
Local Open Scope Z_scope.

(** ** Exceptions and results *)

(** The exception classes the modules can raise, and [Raised] for an
    exception that comes out of a collaborator (the tracer), told apart by a
    tag. *)
Inductive exn : Type :=
| ValueError
| TypeError
| ZeroDivisionError
| IndexError
| OverflowError
| Raised (tag : nat).

Inductive res (A : Type) : Type :=
| Ok (a : A)
| Raise (e : exn).

Arguments Ok {A} a.
Arguments Raise {A} e.

Definition is_Ok {A} (r : res A) : bool :=
  match r with Ok _ => true | Raise _ => false end.

(** ** Arithmetic interface *)

Class Arith (T : Type) : Type := {
  of_Z : Z -> T;            (* float(int) *)
  add : T -> T -> T;
  sub : T -> T -> T;
  mul : T -> T -> T;
  div : T -> T -> T;        (* the division itself; Python's zero check is [py_truediv] *)
  opp : T -> T;
  sqrt : T -> T;
  pi : T;                   (* math.pi *)
  eqb : T -> T -> bool;
  ltb : T -> T -> bool;
  leb : T -> T -> bool;
  is_nan : T -> bool;       (* math.isnan *)
  is_inf : T -> bool        (* math.isinf *)
}.

(** *** binary64 *)

(** [float(z)]: the nearest binary64 value, ties to even; an infinity where
    that is beyond the range of a double, which is where CPython's conversion
    raises OverflowError instead ([as_double] below). *)
Definition Z2float (z : Z) : float :=
  SF2Prim (binary_normalize prec emax z 0 false).

#[export] Instance float_arith : Arith float := {|
  of_Z := Z2float;
  add := PrimFloat.add;
  sub := PrimFloat.sub;
  mul := PrimFloat.mul;
  div := PrimFloat.div;
  opp := PrimFloat.opp;
  sqrt := PrimFloat.sqrt;
  pi := 0x1.921fb54442d18p+1%float;
  eqb := PrimFloat.eqb;
  ltb := PrimFloat.ltb;
  leb := PrimFloat.leb;
  is_nan := PrimFloat.is_nan;
  is_inf := PrimFloat.is_infinity
|}.

(** *** exact arithmetic *)

Definition Reqb (a b : R) : bool := if Req_dec_T a b then true else false.
Definition Rltb (a b : R) : bool := if Rlt_dec a b then true else false.
Definition Rleb (a b : R) : bool := if Rle_dec a b then true else false.

#[export] Instance R_arith : Arith R := {|
  of_Z := IZR;
  add := Rplus;
  sub := Rminus;
  mul := Rmult;
  div := Rdiv;
  opp := Ropp;
  sqrt := R_sqrt.sqrt;
  pi := PI;
  eqb := Reqb;
  ltb := Rltb;
  leb := Rleb;
  is_nan := fun _ => false;
  is_inf := fun _ => false
|}.

(** ** Python numbers: [int] and [float], with the promotion rules *)

Section PyNum.
Context {T : Type} `{Arith T}.

Inductive pynum : Type :=
| PyInt (z : Z)
| PyFloat (f : T).

(** The C double that a number is converted to where one is required,
    without the range check of the conversion: for an [int] beyond the range
    of a double this is an infinity.  The arithmetic below that is built on
    it ([py_add], [py_sub], [py_mul], [py_truediv] and the comparisons)
    therefore stands for Python's as long as the ints that meet a float are
    within the range of a double, as the pixel counts, channel counts and
    indices of the camera are. *)
Definition to_float (a : pynum) : T :=
  match a with
  | PyInt z => of_Z z
  | PyFloat f => f
  end.

(** The conversion with its range check ([PyFloat_AsDouble]): an [int] that
    rounds beyond the range of a double raises OverflowError. *)
Definition as_double (a : pynum) : res T :=
  match a with
  | PyInt z => if is_inf (of_Z z) then Raise OverflowError else Ok (of_Z z)
  | PyFloat f => Ok f
  end.

Definition py_add (a b : pynum) : pynum :=
  match a, b with
  | PyInt x, PyInt y => PyInt (x + y)
  | _, _ => PyFloat (add (to_float a) (to_float b))
  end.

Definition py_sub (a b : pynum) : pynum :=
  match a, b with
  | PyInt x, PyInt y => PyInt (x - y)
  | _, _ => PyFloat (sub (to_float a) (to_float b))
  end.

Definition py_mul (a b : pynum) : pynum :=
  match a, b with
  | PyInt x, PyInt y => PyInt (x * y)
  | _, _ => PyFloat (mul (to_float a) (to_float b))
  end.

(** [a * b] with the range check of the conversion, for the products in
    which an [int] of any size can meet a float: the field of view and the
    intensity of a light are whatever the caller assigned. *)
Definition py_mul_checked (a b : pynum) : res pynum :=
  match a, b with
  | PyInt x, PyInt y => Ok (PyInt (x * y))
  | _, _ =>
      match as_double a with
      | Raise e => Raise e
      | Ok x =>
          match as_double b with
          | Raise e => Raise e
          | Ok y => Ok (PyFloat (mul x y))
          end
      end
  end.

Definition py_neg (a : pynum) : pynum :=
  match a with
  | PyInt x => PyInt (- x)
  | PyFloat f => PyFloat (opp f)
  end.

Definition py_is_zero (a : pynum) : bool :=
  match a with
  | PyInt x => x =? 0
  | PyFloat f => eqb f (of_Z 0)
  end.

(** [a / b]: true division, always a float; a zero divisor raises. *)
Definition py_truediv (a b : pynum) : res pynum :=
  if py_is_zero b then Raise ZeroDivisionError
  else Ok (PyFloat (div (to_float a) (to_float b))).

(** Comparisons.  Two ints compare as integers; in the mixed comparisons
    of these modules the int operand is the literal 0. *)
Definition py_ltb (a b : pynum) : bool :=
  match a, b with
  | PyInt x, PyInt y => x <? y
  | _, _ => ltb (to_float a) (to_float b)
  end.

Definition py_leb (a b : pynum) : bool :=
  match a, b with
  | PyInt x, PyInt y => x <=? y
  | _, _ => leb (to_float a) (to_float b)
  end.

Definition py_gtb (a b : pynum) : bool := py_ltb b a.

Definition py_eqb (a b : pynum) : bool :=
  match a, b with
  | PyInt x, PyInt y => x =? y
  | _, _ => eqb (to_float a) (to_float b)
  end.

Definition py_neb (a b : pynum) : bool := negb (py_eqb a b).

(** The builtin [max] on two arguments keeps the first unless the second
    is greater. *)
Definition py_max (a b : pynum) : pynum :=
  if py_gtb b a then b else a.

End PyNum.

Arguments pynum T : clear implicits.

(** [range(n)] and [range(0, n)]. *)
Definition range (n : Z) : list Z := map Z.of_nat (seq 0 (Z.to_nat n)).

(** ** Points, vectors, rays and spectra (raysect.core, raysect.optical) *)

Record Point (T : Type) : Type := mkPoint { px : T; py : T; pz : T }.
Record Vector (T : Type) : Type := mkVector { vx : T; vy : T; vz : T }.

Section Geometry.
Context {T : Type} `{Arith T}.

(** Modelled from the spec: [Vector.normalise] is not under the sources;
    the direction is "normalized to unit length", the vector divided by
    its Euclidean length. *)
Definition normalise (v : Vector T) : Vector T :=
  let t := sqrt (add (add (mul (vx v) (vx v)) (mul (vy v) (vy v)))
                     (mul (vz v) (vz v))) in
  mkVector (div (vx v) t) (div (vy v) t) (div (vz v) t).

(** Modelled from the spec: [Vector.dot], the scalar product. *)
Definition dot (a b : Vector T) : T :=
  add (add (mul (vx a) (vx b)) (mul (vy a) (vy b))) (mul (vz a) (vz b)).

End Geometry.

Module Ray.
(** The ray template: wavelength band, sample count, depth limit, and the
    origin and direction that [observe] fills in for each pixel. *)
Record t (T : Type) : Type := new {
  min_wavelength : T;
  max_wavelength : T;
  num_samples : Z;
  max_depth : Z;
  origin : Point T;
  direction : Vector T
}.

Definition set_origin {T} (r : t T) (o : Point T) : t T :=
  new (min_wavelength r) (max_wavelength r) (num_samples r) (max_depth r)
      o (direction r).

Definition set_direction {T} (r : t T) (d : Vector T) : t T :=
  new (min_wavelength r) (max_wavelength r) (num_samples r) (max_depth r)
      (origin r) d.
End Ray.

Module Spectrum.
Record t (T : Type) : Type := make {
  min_wavelength : T;
  max_wavelength : T;
  samples : list T
}.

Definition set_samples {T} (s : t T) (l : list T) : t T :=
  make (min_wavelength s) (max_wavelength s) l.
End Spectrum.

(** ** numpy arrays *)

Section Numpy.
Context {T : Type} `{Arith T}.

(** One pixel: the three components along the last axis. *)
Definition pixel : Type := (T * T * T)%type.
Definition image : Type := list (list pixel).

Definition zero_pixel : pixel := (of_Z 0, of_Z 0, of_Z 0).

(** [zeros(n)]; a negative length raises ValueError. *)
Definition zeros (n : Z) : res (list T) :=
  if n <? 0 then Raise ValueError
  else Ok (repeat (of_Z 0) (Z.to_nat n)).

(** [zeros((h, w, 3))]. *)
Definition zeros3 (h w : Z) : res image :=
  if (h <? 0) || (w <? 0) then Raise ValueError
  else Ok (repeat (repeat zero_pixel (Z.to_nat w)) (Z.to_nat h)).

(** An index along an axis of length [len]: negative indices count from
    the end, anything outside raises IndexError. *)
Definition np_index (len i : Z) : res nat :=
  let j := if i <? 0 then i + len else i in
  if (0 <=? j) && (j <? len) then Ok (Z.to_nat j) else Raise IndexError.

Fixpoint set_nth {A} (l : list A) (n : nat) (a : A) : list A :=
  match l, n with
  | [], _ => []
  | _ :: l', O => a :: l'
  | b :: l', S n' => b :: set_nth l' n' a
  end.

(** [a[y, x, :]] *)
Definition image_get (a : image) (y x : Z) : res pixel :=
  match np_index (Z.of_nat (length a)) y with
  | Raise e => Raise e
  | Ok j =>
      let row := nth j a [] in
      match np_index (Z.of_nat (length row)) x with
      | Raise e => Raise e
      | Ok i => Ok (nth i row zero_pixel)
      end
  end.

(** [a[y, x, :] = p] *)
Definition image_set (a : image) (y x : Z) (p : pixel) : res image :=
  match np_index (Z.of_nat (length a)) y with
  | Raise e => Raise e
  | Ok j =>
      let row := nth j a [] in
      match np_index (Z.of_nat (length row)) x with
      | Raise e => Raise e
      | Ok i => Ok (set_nth a j (set_nth row i p))
      end
  end.

(** A slice bound, as numpy clips it to the axis. *)
Definition np_bound (len i : Z) : Z :=
  if i <? 0 then Z.max 0 (i + len) else Z.min i len.

(** [a[lo:hi] = v] on a one-dimensional array: [v] must have the length
    of the slice, or length one (broadcast); otherwise ValueError. *)
Definition slice_assign (a : list T) (lo hi : Z) (v : list T)
  : res (list T) :=
  let len := Z.of_nat (length a) in
  let l := np_bound len lo in
  let h := Z.max l (np_bound len hi) in
  let n := Z.to_nat (h - l) in
  if Nat.eqb (length v) n then
    Ok (firstn (Z.to_nat l) a ++ v ++ skipn (Z.to_nat h) a)
  else
    match v with
    | [b] => Ok (firstn (Z.to_nat l) a ++ repeat b n ++ skipn (Z.to_nat h) a)
    | _ => Raise ValueError
    end.

(** Modelled from the spec: the [Spectrum] class is not under the
    sources; a spectrum is an "ordered sequence of radiance values" over a
    wavelength range, created with all samples zero. *)
Definition Spectrum_new (lo hi : T) (n : Z) : res (Spectrum.t T) :=
  match zeros n with
  | Raise e => Raise e
  | Ok z => Ok (Spectrum.make lo hi z)
  end.

End Numpy.

Arguments pixel T : clear implicits.
Arguments image T : clear implicits.

(** ** Collaborators

    What [observe] and [Light] call but this repository's sources do not
    define: the tangent of the C library, the affine transforms of the scene
    graph, the tracer behind [Ray.trace] (it may read and change the world,
    and may raise), the wall clock, and the colour functions of
    [raysect.optical.colour]. *)

Class Collab (T : Type) : Type := {
  math_tan : T -> T;              (* tan of the C library *)
  AffineMatrix : Type;
  point_transform : Point T -> AffineMatrix -> Point T;
  vector_transform : Vector T -> AffineMatrix -> Vector T;
  World : Type;
  (* [ray.trace(world)]: the new world, and the sample spectrum's samples
     with [ray.ray_count], or an exception *)
  ray_trace : Ray.t T -> World -> World * res (list T * Z);
  Clock : Type;
  time : Clock -> T * Clock;
  Table : Type;
  resample_ciexyz : T -> T -> Z -> res Table;
  spectrum_to_ciexyz : Spectrum.t T -> Table -> pixel T;
  ciexyz_to_srgb : T -> T -> T -> pixel T
}.

(** The root of the scene graph the observer hangs in: a [World], or some
    other node (an observer without a parent is its own root). *)
Inductive root_node : Type := RootWorld | RootOther.

Definition isinstance_World (n : root_node) : bool :=
  match n with RootWorld => true | RootOther => false end.

Fixpoint enumerate_from {A} (i : Z) (l : list A) : list (Z * A) :=
  match l with
  | [] => []
  | a :: l' => (i, a) :: enumerate_from (i + 1) l'
  end.

Definition enumerate {A} (l : list A) : list (Z * A) := enumerate_from 0 l.

Section Camera.
Context {T : Type} `{Arith T} {C : Collab T}.

(** The literals [0.5] and [1.0]. *)
Definition lit_half : T := div (of_Z 1) (of_Z 2).
Definition lit_one : T := of_Z 1.

Record PinholeCamera : Type := mkCamera {
  _pixels : Z * Z;                (* (x count, y count), two entries by the setter *)
  _fov : pynum T;
  rays : Z;
  spectral_samples : Z;
  min_wavelength : pynum T;
  max_wavelength : pynum T;
  ray_max_depth : Z;
  display_progress : bool;
  display_update_time : pynum T;
  root : root_node;               (* Observer.root *)
  to_root : AffineMatrix          (* Observer.to_root() *)
}.

(** *** The validating setters and the constructor *)

(** [pixels.setter]: the stored value, or ValueError unless the tuple has
    two entries. *)
Definition set_pixels (pixels : list Z) : res (Z * Z) :=
  match pixels with
  | [w; h] => Ok (w, h)
  | _ => Raise ValueError
  end.

(** [fov.setter] *)
Definition set_fov (fov : pynum T) : res (pynum T) :=
  if py_leb fov (PyInt 0) then Raise ValueError else Ok fov.

(** [__init__].  [root] and [to_root] stand for what [Observer.__init__]
    derives from [parent] and [transform]; the result is the camera and
    its first [frame]. *)
Definition init (pixels : list Z) (fov : pynum T) (spectral_samples rays : Z)
           (root : root_node) (to_root : AffineMatrix)
  : res (PinholeCamera * image T) :=
  match set_pixels pixels with
  | Raise e => Raise e
  | Ok (w, h) =>
      match set_fov fov with
      | Raise e => Raise e
      | Ok fov' =>
          match zeros3 h w with
          | Raise e => Raise e
          | Ok frame =>
              Ok (mkCamera (w, h) fov' rays spectral_samples
                    (PyFloat (of_Z 375)) (PyFloat (of_Z 740)) 15
                    true (PyFloat (of_Z 10)) root to_root,
                  frame)
          end
      end
  end.

(** *** Ray generation *)

(** [math.tan]: the tangent of the C library behind the check CPython makes
    of every result of [libm] ([math_1] in [mathmodule.c]): a NaN that comes
    from an argument that is not one, and an infinity that comes from a
    finite argument, raise ValueError ("math domain error").  The tangent of
    C is NaN at the infinities, so [math.tan(inf)] raises; the model says so
    itself and does not leave it to the collaborator. *)
Definition py_tan (x : T) : res T :=
  if is_inf x then Raise ValueError
  else
    let r := math_tan x in
    if is_nan r && negb (is_nan x) then Raise ValueError
    else if is_inf r && negb (is_nan x) then Raise ValueError
    else Ok r.

(** Lines 102-121: [(image_delta, image_start_x, image_start_y)]. *)
Definition image_plane (self : PinholeCamera)
  : res (pynum T * pynum T * pynum T) :=
  let '(w, h) := _pixels self in
  let max_pixels := Z.max w h in
  if 1 <? max_pixels then
    match py_truediv (PyFloat pi) (PyInt 180) with
    | Raise e => Raise e
    | Ok rad =>
        match py_mul_checked (py_mul rad (PyFloat lit_half)) (_fov self) with
        | Raise e => Raise e
        | Ok angle =>
            match py_tan (to_float angle) with
            | Raise e => Raise e
            | Ok t =>
                let image_max_width := py_mul (PyInt 2) (PyFloat t) in
                match py_truediv image_max_width (PyInt (max_pixels - 1)) with
                | Raise e => Raise e
                | Ok image_delta =>
                    Ok (image_delta,
                        py_mul (py_mul (PyFloat lit_half) (PyInt w))
                               image_delta,
                        py_mul (py_mul (PyFloat lit_half) (PyInt h))
                               image_delta)
                end
            end
        end
    end
  else Ok (PyInt 0, PyInt 0, PyInt 0).

(** Line 181: the direction of pixel [(x, y)] in camera space. *)
Definition camera_direction (ip : pynum T * pynum T * pynum T) (x y : Z)
  : Vector T :=
  let '(image_delta, image_start_x, image_start_y) := ip in
  normalise
    (mkVector
       (to_float (py_sub image_start_x (py_mul image_delta (PyInt x))))
       (to_float (py_sub image_start_y (py_mul image_delta (PyInt y))))
       lit_one).

(** *** The wavelength partition, lines 130-142 *)

Fixpoint generate_rays_loop (self : PinholeCamera) (delta_wavelength : pynum T)
         (indices : list Z) (lower_wavelength : pynum T)
         (acc : list (Ray.t T)) : list (Ray.t T) :=
  match indices with
  | [] => acc
  | index :: rest =>
      let upper_wavelength :=
        py_add (min_wavelength self)
               (py_mul delta_wavelength (PyInt (index + 1))) in
      generate_rays_loop self delta_wavelength rest upper_wavelength
        (acc ++ [Ray.new (to_float lower_wavelength)
                         (to_float upper_wavelength)
                         (spectral_samples self) (ray_max_depth self)
                         (mkPoint (of_Z 0) (of_Z 0) (of_Z 0))
                         (mkVector (of_Z 0) (of_Z 0) (of_Z 1))])
  end.

Definition generate_rays (self : PinholeCamera) : res (list (Ray.t T)) :=
  match py_truediv (py_sub (max_wavelength self) (min_wavelength self))
                   (PyInt (rays self)) with
  | Raise e => Raise e
  | Ok delta_wavelength =>
      Ok (generate_rays_loop self delta_wavelength (range (rays self))
            (min_wavelength self) [])
  end.

End Camera.

(** ** The render loop *)

Section Observe.
Context {T : Type} `{Arith T} {C : Collab T}.

(** What the run writes to the console and the display, in order; and,
    as instrumentation, each call of the tracer with the ray it got. *)
Inductive event : Type :=
| print_progress (completion : pynum T) (channel channels line lines
                  current_pixel total_pixels : Z) (rays_per_second : pynum T)
| print_refreshing
| print_complete (elapsed_time : T)
| display_call (shown : image T)      (* self.display(): imshow(self.frame) *)
| trace_call (ray : Ray.t T).

(** Everything [observe] reads or writes besides the camera's settings:
    [self.frame], its own local variables, the world, the clock and the
    output. *)
Record state : Type := mkState {
  frame : image T;
  xyz_frame : image T;
  ray_count : Z;
  progress_timer : T;
  display_timer : pynum T;
  lower_index : Z;
  world : World;
  clock : Clock;
  out : list event
}.

Definition set_frame (v : image T) (s : state) : state :=
  mkState v (xyz_frame s) (ray_count s) (progress_timer s) (display_timer s)
          (lower_index s) (world s) (clock s) (out s).
Definition set_xyz_frame (v : image T) (s : state) : state :=
  mkState (frame s) v (ray_count s) (progress_timer s) (display_timer s)
          (lower_index s) (world s) (clock s) (out s).
Definition set_ray_count (v : Z) (s : state) : state :=
  mkState (frame s) (xyz_frame s) v (progress_timer s) (display_timer s)
          (lower_index s) (world s) (clock s) (out s).
Definition set_progress_timer (v : T) (s : state) : state :=
  mkState (frame s) (xyz_frame s) (ray_count s) v (display_timer s)
          (lower_index s) (world s) (clock s) (out s).
Definition set_display_timer (v : pynum T) (s : state) : state :=
  mkState (frame s) (xyz_frame s) (ray_count s) (progress_timer s) v
          (lower_index s) (world s) (clock s) (out s).
Definition set_lower_index (v : Z) (s : state) : state :=
  mkState (frame s) (xyz_frame s) (ray_count s) (progress_timer s)
          (display_timer s) v (world s) (clock s) (out s).
Definition set_world (v : World) (s : state) : state :=
  mkState (frame s) (xyz_frame s) (ray_count s) (progress_timer s)
          (display_timer s) (lower_index s) v (clock s) (out s).
Definition set_clock (v : Clock) (s : state) : state :=
  mkState (frame s) (xyz_frame s) (ray_count s) (progress_timer s)
          (display_timer s) (lower_index s) (world s) v (out s).
Definition set_out (v : list event) (s : state) : state :=
  mkState (frame s) (xyz_frame s) (ray_count s) (progress_timer s)
          (display_timer s) (lower_index s) (world s) (clock s) v.

(** *** A state and exception monad

    A computation takes the state and gives a value or an exception,
    with the state as it is at that point: what was written before an
    exception stays written. *)
Definition M (A : Type) : Type := state -> res A * state.

Definition ret {A} (a : A) : M A := fun s => (Ok a, s).

Definition bind {A B} (m : M A) (k : A -> M B) : M B :=
  fun s =>
    match m s with
    | (Ok a, s') => k a s'
    | (Raise e, s') => (Raise e, s')
    end.

Definition lift {A} (r : res A) : M A := fun s => (r, s).
Definition gets {A} (f : state -> A) : M A := fun s => (Ok (f s), s).
Definition modify (f : state -> state) : M unit := fun s => (Ok tt, f s).

Notation "x <- m ;; k" := (bind m (fun x => k))
  (at level 61, m at next level, right associativity).
Notation "' p <- m ;; k" := (bind m (fun x => match x with p => k end))
  (at level 61, p pattern, m at next level, right associativity).
Notation "m ;;; k" := (bind m (fun _ => k))
  (at level 61, right associativity).

(** [for a in l: body(a)] *)
Fixpoint for_each {A} (l : list A) (body : A -> M unit) : M unit :=
  match l with
  | [] => ret tt
  | a :: l' => body a ;;; for_each l' body
  end.

(** [time()] *)
Definition now : M T :=
  fun s => let (t, c) := time (clock s) in (Ok t, set_clock c s).

Definition print (e : event) : M unit :=
  modify (fun s => set_out (out s ++ [e]) s).

(** [self.display()] *)
Definition display : M unit :=
  modify (fun s => set_out (out s ++ [display_call (frame s)]) s).

(** [ray.trace(world)] *)
Definition trace (ray : Ray.t T) : M (list T * Z) :=
  fun s =>
    let (w, r) := ray_trace ray (world s) in
    (r, set_world w (set_out (out s ++ [trace_call ray]) s)).

(** Lines 166-177: the throttled statistics line. *)
Definition progress_report (self : PinholeCamera) (total_pixels total_work : Z)
           (channels index y x : Z) : M unit :=
  let '(w, h) := _pixels self in
  t <- now ;;
  pt <- gets progress_timer ;;
  let dt := sub t pt in
  if ltb (of_Z 1) dt then
    let current_pixel := y * w + x in
    let current_work := w * h * index + current_pixel in
    completion <- lift (py_truediv (PyInt (100 * current_work))
                                   (PyInt total_work)) ;;
    rc <- gets ray_count ;;
    rays_per_second <- lift (py_truediv (PyInt rc)
                               (py_mul (PyInt 1000) (PyFloat dt))) ;;
    print (print_progress completion (index + 1) channels y h
                          current_pixel total_pixels rays_per_second) ;;;
    modify (set_ray_count 0) ;;;
    t' <- now ;;
    modify (set_progress_timer t')
  else ret tt.

(** Lines 208-212: the throttled display refresh. *)
Definition display_refresh (self : PinholeCamera) : M unit :=
  if display_progress self then
    t <- now ;;
    dtm <- gets display_timer ;;
    if py_gtb (py_sub (PyFloat t) dtm) (display_update_time self) then
      print print_refreshing ;;;
      display ;;;
      t' <- now ;;
      modify (set_display_timer (PyFloat t'))
    else ret tt
  else ret tt.

(** Lines 179-206: one pixel of one channel. *)
Definition sample_pixel (self : PinholeCamera)
           (ip : pynum T * pynum T * pynum T) (total_samples : Z)
           (resampled_xyz : Table) (ray : Ray.t T) (upper_index y x : Z)
  : M unit :=
  let origin := mkPoint (of_Z 0) (of_Z 0) (of_Z 0) in
  let direction := camera_direction ip x y in
  let origin := point_transform origin (to_root self) in
  let direction := vector_transform direction (to_root self) in
  spectrum <- lift (Spectrum_new (to_float (min_wavelength self))
                                 (to_float (max_wavelength self))
                                 total_samples) ;;
  let ray := Ray.set_direction (Ray.set_origin ray origin) direction in
  ' (sample, n) <- trace ray ;;
  li <- gets lower_index ;;
  samples <- lift (slice_assign (Spectrum.samples spectrum) li upper_index
                                sample) ;;
  let spectrum := Spectrum.set_samples spectrum samples in
  modify (fun s => set_ray_count (ray_count s + n) s) ;;;
  let xyz := spectrum_to_ciexyz spectrum resampled_xyz in
  xf <- gets xyz_frame ;;
  p <- lift (image_get xf y x) ;;
  let acc := (add (fst (fst p)) (fst (fst xyz)),
              add (snd (fst p)) (snd (fst xyz)),
              add (snd p) (snd xyz)) in
  xf' <- lift (image_set xf y x acc) ;;
  modify (set_xyz_frame xf') ;;;
  f <- gets frame ;;
  f' <- lift (image_set f y x
                (ciexyz_to_srgb (fst (fst acc)) (snd (fst acc)) (snd acc))) ;;
  modify (set_frame f').

Definition pixel_body (self : PinholeCamera)
           (ip : pynum T * pynum T * pynum T)
           (total_samples total_pixels total_work : Z)
           (resampled_xyz : Table) (channels index : Z) (ray : Ray.t T)
           (upper_index y x : Z) : M unit :=
  progress_report self total_pixels total_work channels index y x ;;;
  sample_pixel self ip total_samples resampled_xyz ray upper_index y x ;;;
  display_refresh self.

(** Lines 157-214: channels outermost, then rows, then columns. *)
Definition render_loop (self : PinholeCamera)
           (ip : pynum T * pynum T * pynum T)
           (total_samples total_pixels total_work : Z)
           (resampled_xyz : Table) (rays : list (Ray.t T)) : M unit :=
  let '(w, h) := _pixels self in
  let channels := Z.of_nat (length rays) in
  modify (set_lower_index 0) ;;;
  for_each (enumerate rays) (fun '(index, ray) =>
    let upper_index := spectral_samples self * (index + 1) in
    for_each (range h) (fun y =>
      for_each (range w) (fun x =>
        pixel_body self ip total_samples total_pixels total_work
                   resampled_xyz channels index ray upper_index y x)) ;;;
    modify (set_lower_index upper_index)).

(** [observe] *)
Definition observe (self : PinholeCamera) : M unit :=
  let '(w, h) := _pixels self in
  xf <- lift (zeros3 h w) ;;
  modify (set_xyz_frame xf) ;;;
  f <- lift (zeros3 h w) ;;
  modify (set_frame f) ;;;
  if negb (isinstance_World (root self)) then lift (Raise TypeError)
  else
    ip <- lift (image_plane self) ;;
    let total_samples := rays self * spectral_samples self in
    resampled_xyz <- lift (resample_ciexyz (to_float (min_wavelength self))
                                           (to_float (max_wavelength self))
                                           total_samples) ;;
    rays_list <- lift (generate_rays self) ;;
    let total_pixels := w * h in
    let total_work := total_pixels * rays self in
    modify (set_ray_count 0) ;;;
    start_time <- now ;;
    pt <- now ;;
    modify (set_progress_timer pt) ;;;
    modify (set_display_timer (PyInt 0)) ;;;
    (if display_progress self then
       display ;;;
       t <- now ;;
       modify (set_display_timer (PyFloat t))
     else ret tt) ;;;
    render_loop self ip total_samples total_pixels total_work
                resampled_xyz rays_list ;;;
    t <- now ;;
    print (print_complete (sub t start_time)) ;;;
    if display_progress self then display else ret tt.

End Observe.

Notation "x <- m ;; k" := (bind m (fun x => k))
  (at level 61, m at next level, right associativity).
Notation "' p <- m ;; k" := (bind m (fun x => match x with p => k end))
  (at level 61, p pattern, m at next level, right associativity).
Notation "m ;;; k" := (bind m (fun _ => k))
  (at level 61, right associativity).

(** ** The debug material *)

Section Material.
Context {T : Type} `{Arith T} {C : Collab T}.

(** A [SpectralFunction], through the one method the material calls:
    [sample_multiple(min_wavelength, max_wavelength, num_samples)]. *)
Definition SpectralFunction : Type := T -> T -> Z -> list T.

Record Light : Type := mkLight {
  light_direction : Vector T;
  intensity : pynum T;
  spectrum : SpectralFunction
}.

(** [Light.__init__]; [d65_white] is the default of
    [raysect.optical.colour]. *)
Definition Light_init (d65_white : SpectralFunction)
           (light_direction : Vector T) (intensity : pynum T)
           (spectrum : option SpectralFunction) : Light :=
  mkLight (normalise light_direction)
          (py_max (PyInt 0) intensity)
          (match spectrum with
           | None => d65_white
           | Some s => s
           end).

(** Line 65: [self.intensity * max(0, -self.light_direction
    .transform(to_local).dot(normal))], as the double that multiplies the
    array of line 66.  The intensity is what the caller passed, an [int] of
    any size included, so the conversions are the checked ones. *)
Definition diffuse_intensity (self : Light) (normal : Vector T)
           (to_local : AffineMatrix) : res T :=
  match py_mul_checked
          (intensity self)
          (py_max (PyInt 0)
             (PyFloat (opp (dot (vector_transform (light_direction self)
                                                  to_local)
                                normal)))) with
  | Raise e => Raise e
  | Ok d => as_double d
  end.

(** [Light.evaluate_surface].  Of its arguments only [ray], [normal] and
    [to_local] are read.  [ray.new_spectrum()] is a zeroed spectrum over
    the ray's band with the ray's sample count. *)
Definition evaluate_surface (self : Light) (ray : Ray.t T)
           (normal : Vector T) (to_local : AffineMatrix)
  : res (Spectrum.t T) :=
  match Spectrum_new (Ray.min_wavelength ray) (Ray.max_wavelength ray)
                     (Ray.num_samples ray) with
  | Raise e => Raise e
  | Ok spectrum0 =>
      if py_neb (intensity self) (PyFloat (of_Z 0)) then
        match diffuse_intensity self normal to_local with
        | Raise e => Raise e
        | Ok d =>
            let emitted :=
              map (mul d)
                  (spectrum self (Ray.min_wavelength ray)
                            (Ray.max_wavelength ray) (Ray.num_samples ray)) in
            let old := Spectrum.samples spectrum0 in
            match slice_assign old 0 (Z.of_nat (length old)) emitted with
            | Raise e => Raise e
            | Ok samples => Ok (Spectrum.set_samples spectrum0 samples)
            end
        end
      else Ok spectrum0
  end.

End Material.

(** ** Concrete collaborators, for running the model on small inputs *)

Module Sample.

(** A world that counts the traces made in it; the tracer returns
    [n] samples, all [radiance], and fails at the trace numbered
    [fail_at] (never, when that is [None]). *)
Definition toy (T : Type) `{Arith T} (tan : T -> T) (radiance : T)
           (fail_at : option nat) : Collab T := {|
  math_tan := tan;
  AffineMatrix := unit;
  point_transform := fun p _ => p;
  vector_transform := fun v _ => v;
  World := nat;
  ray_trace := fun r w =>
    (S w,
     if match fail_at with Some k => Nat.eqb w k | None => false end
     then Raise (Raised 7)
     else Ok (repeat radiance (Z.to_nat (Ray.num_samples r)), 1));
  Clock := T;
  time := fun c => (c, add c (of_Z 1));
  Table := unit;
  resample_ciexyz := fun _ _ _ => Ok tt;
  spectrum_to_ciexyz := fun s _ =>
    let t := fold_right add (of_Z 0) (Spectrum.samples s) in (t, t, t);
  ciexyz_to_srgb := fun x y z => (x, y, z)
|}.

(** A stand-in for the tangent of C in binary64: the identity on the finite
    numbers and, as [tan] is, NaN at the infinities. *)
Definition toy_tan (x : float) : float :=
  if PrimFloat.is_infinity x then nan else x.

(** The toy collaborators in binary64 and over the reals. *)
Definition float_world (fail_at : option nat) : Collab float :=
  toy toy_tan 2%float fail_at.

Definition real_world : Collab R := toy Rtrigo1.tan 2%R None.

(** The toy collaborators in binary64 with a radiance to choose and a colour
    mapping that is linear with coefficients of both signs, as the matrix
    from CIE XYZ to sRGB is. *)
Definition mixing_world (radiance : float) (fail_at : option nat)
  : Collab float := {|
  math_tan := toy_tan;
  AffineMatrix := unit;
  point_transform := fun p _ => p;
  vector_transform := fun v _ => v;
  World := nat;
  ray_trace := fun r w =>
    (S w,
     if match fail_at with Some k => Nat.eqb w k | None => false end
     then Raise (Raised 7)
     else Ok (repeat radiance (Z.to_nat (Ray.num_samples r)), 1));
  Clock := float;
  time := fun c => (c, PrimFloat.add c 1%float);
  Table := unit;
  resample_ciexyz := fun _ _ _ => Ok tt;
  spectrum_to_ciexyz := fun s _ =>
    let t := fold_right PrimFloat.add 0%float (Spectrum.samples s) in
    (t, t, t);
  ciexyz_to_srgb := fun x y z => (PrimFloat.sub x y, y, z)
|}.

(** A camera in binary64 as [__init__] leaves it, with the wavelength range,
    the channel count and the sample count then assigned. *)
Definition float_camera (fail_at : option nat) (pixels : Z * Z)
           (fov : pynum float) (channels samples : Z) (lo hi : pynum float)
           (root : root_node) : PinholeCamera (C := float_world fail_at) :=
  mkCamera (C := float_world fail_at) pixels fov channels samples lo hi 15
           true (PyFloat 10%float) root tt.

(** The same over the reals. *)
Definition real_camera (pixels : Z * Z) (fov : pynum R) (channels samples : Z)
           (lo hi : pynum R) (root : root_node)
  : PinholeCamera (C := real_world) :=
  mkCamera (C := real_world) pixels fov channels samples lo hi 15
           true (PyFloat 10%R) root tt.

End Sample.

(** ** Vocabulary of the properties *)

Section Vocabulary.
Context {T : Type} `{Arith T} {C : Collab T}.

(** The upper bound the partition loop computes at [index], from the step. *)
Definition upper_bound (self : PinholeCamera) (delta : pynum T) (index : Z)
  : pynum T :=
  py_add (min_wavelength self) (py_mul delta (PyInt (index + 1))).

(** The rays of the partition loop, without the accumulator. *)
Fixpoint chain (self : PinholeCamera) (delta : pynum T) (indices : list Z)
         (lower : pynum T) : list (Ray.t T) :=
  match indices with
  | [] => []
  | index :: rest =>
      Ray.new (to_float lower) (to_float (upper_bound self delta index))
              (spectral_samples self) (ray_max_depth self)
              (mkPoint (of_Z 0) (of_Z 0) (of_Z 0))
              (mkVector (of_Z 0) (of_Z 0) (of_Z 1))
      :: chain self delta rest (upper_bound self delta index)
  end.

(** The step of the partition, [(max - min) / rays], as a float. *)
Definition step (self : PinholeCamera) : T :=
  div (to_float (py_sub (max_wavelength self) (min_wavelength self)))
      (of_Z (rays self)).

(** Each interval starts where the one before it ends. *)
Definition contiguous (l : list (Ray.t T)) : Prop :=
  forall i a b,
    nth_error l i = Some a -> nth_error l (S i) = Some b ->
    Ray.min_wavelength b = Ray.max_wavelength a.

Definition first_lower (l : list (Ray.t T)) : option T :=
  option_map (@Ray.min_wavelength T) (nth_error l 0).

Definition last_upper (l : list (Ray.t T)) : option T :=
  option_map (@Ray.max_wavelength T) (nth_error l (length l - 1)).

End Vocabulary.

(** *** Over the reals *)

Section VocabularyExact.
Local Open Scope R_scope.

(** All intervals have the width [w]. *)
Definition equal_width (w : R) (l : list (Ray.t R)) : Prop :=
  forall r, In r l -> Ray.max_wavelength r - Ray.min_wavelength r = w.

(** Ordered ascending, without overlap: every interval is non-empty and
    ends no later than any later one starts. *)
Definition ascending (l : list (Ray.t R)) : Prop :=
  (forall r, In r l -> Ray.min_wavelength r < Ray.max_wavelength r)
  /\ (forall i j a b,
         (i < j)%nat -> nth_error l i = Some a -> nth_error l j = Some b ->
         Ray.max_wavelength a <= Ray.min_wavelength b).

(** The union of the intervals is [[lo, hi]]. *)
Definition covers (lo hi : R) (l : list (Ray.t R)) : Prop :=
  forall x,
    lo <= x <= hi
    <-> exists r, In r l /\ Ray.min_wavelength r <= x <= Ray.max_wavelength r.

End VocabularyExact.

Section VocabularyObserve.
Context {T : Type} `{Arith T} {C : Collab T}.

(** Modelled from the spec: its ConfigurationError is a category of
    failures ("invalid pixel dimensions, non-positive field of view, ...,
    camera not attached to a valid scene root"), not a class of this
    repository; the exceptions the code raises for them are ValueError
    (the setters and numpy's shape check) and TypeError (no World at the
    root). *)
Definition ConfigurationError (e : exn) : Prop :=
  e = ValueError \/ e = TypeError.

(** The rays the tracer was called with, in order. *)
Fixpoint trace_calls (evs : list event) : list (Ray.t T) :=
  match evs with
  | [] => []
  | trace_call r :: rest => r :: trace_calls rest
  | _ :: rest => trace_calls rest
  end.

(** What an invocation finds besides the camera's settings and
    [self.frame]: the world, the clock, and the output so far. *)
Definition scene_of (s : state) : World * Clock * list event :=
  (world s, clock s, out s).

(** What an invocation leaves: its result, both frames, the world, the
    clock and the output.  (The other local variables end with the call.) *)
Definition outcome (r : res unit * state)
  : res unit * image T * image T * (World * Clock * list event) :=
  (fst r, frame (snd r), xyz_frame (snd r), scene_of (snd r)).

(** An all-zero image of [h] rows and [w] columns. *)
Definition zero_image (h w : Z) : image T :=
  repeat (repeat zero_pixel (Z.to_nat w)) (Z.to_nat h).

End VocabularyObserve.

Section VocabularyMaterial.
Context {T : Type} `{Arith T} {C : Collab T}.

(** The samples of the light's spectrum over the ray's band. *)
Definition emission (self : Light) (ray : Ray.t T) : list T :=
  spectrum self (Ray.min_wavelength ray) (Ray.max_wavelength ray)
           (Ray.num_samples ray).

(** [max(0, -light_direction.transform(to_local).dot(normal))] *)
Definition facing (self : Light) (normal : Vector T)
           (to_local : AffineMatrix) : pynum T :=
  py_max (PyInt 0)
         (PyFloat (opp (dot (vector_transform (light_direction self) to_local)
                            normal))).

(** The one case in which line 65 fails: the stored intensity is an [int]
    beyond the range of a double, and it meets the float of a surface that
    faces the light (for a surface that faces away [max] returns the int
    [0], and the product is the int [0]). *)
Definition intensity_overflows (self : Light) (normal : Vector T)
           (to_local : AffineMatrix) : bool :=
  match intensity self, facing self normal to_local with
  | PyInt z, PyFloat _ => is_inf (of_Z z)
  | _, _ => false
  end.

End VocabularyMaterial.

Section VocabularyLoop.
Context {T : Type} `{Arith T} {C : Collab T}.

(** What lines 93-155 of [observe] hand to the loop: the image plane, the
    three totals, the colour table, the ray templates and the start time. *)
Record setting : Type := mkSetting {
  s_plane : pynum T * pynum T * pynum T;
  s_total_samples : Z;
  s_total_pixels : Z;
  s_total_work : Z;
  s_table : Table;
  s_rays : list (Ray.t T);
  s_start_time : T
}.

(** [observe] up to the loop (lines 93-155), as a computation of its own. *)
Definition setup (self : PinholeCamera) : M setting :=
  let '(w, h) := _pixels self in
  xf <- lift (zeros3 h w) ;;
  modify (set_xyz_frame xf) ;;;
  f <- lift (zeros3 h w) ;;
  modify (set_frame f) ;;;
  if negb (isinstance_World (root self)) then lift (Raise TypeError)
  else
    ip <- lift (image_plane self) ;;
    let total_samples := rays self * spectral_samples self in
    resampled_xyz <- lift (resample_ciexyz (to_float (min_wavelength self))
                                           (to_float (max_wavelength self))
                                           total_samples) ;;
    rays_list <- lift (generate_rays self) ;;
    let total_pixels := w * h in
    let total_work := total_pixels * rays self in
    modify (set_ray_count 0) ;;;
    start_time <- now ;;
    pt <- now ;;
    modify (set_progress_timer pt) ;;;
    modify (set_display_timer (PyInt 0)) ;;;
    (if display_progress self then
       display ;;;
       t <- now ;;
       modify (set_display_timer (PyFloat t))
     else ret tt) ;;;
    ret (mkSetting ip total_samples total_pixels total_work resampled_xyz
                   rays_list start_time).

(** [observe] after the loop (lines 216-222). *)
Definition finish (self : PinholeCamera) (start_time : T) : M unit :=
  t <- now ;;
  print (print_complete (sub t start_time)) ;;;
  if display_progress self then display else ret tt.

(** The loop of a setting. *)
Definition render (self : PinholeCamera) (g : setting) : M unit :=
  render_loop self (s_plane g) (s_total_samples g) (s_total_pixels g)
              (s_total_work g) (s_table g) (s_rays g).

(** The steps of the loop in the order it takes them: the pixels of a
    channel in raster order, then the end of the channel, where the loop
    moves [lower_index] on. *)
Inductive item : Type :=
| Pixel (index : Z) (ray : Ray.t T) (y x : Z)
| EndChannel (index : Z).

Definition raster (h w : Z) : list (Z * Z) :=
  flat_map (fun y => map (pair y) (range w)) (range h).

Definition channel_items (self : PinholeCamera) (ir : Z * Ray.t T)
  : list item :=
  map (fun yx => Pixel (fst ir) (snd ir) (fst yx) (snd yx))
      (raster (snd (_pixels self)) (fst (_pixels self)))
  ++ [EndChannel (fst ir)].

Definition render_items (self : PinholeCamera) (rays_list : list (Ray.t T))
  : list item :=
  flat_map (channel_items self) (enumerate rays_list).

Definition do_item (self : PinholeCamera) (g : setting) (it : item) : M unit :=
  match it with
  | Pixel index ray y x =>
      pixel_body self (s_plane g) (s_total_samples g) (s_total_pixels g)
                 (s_total_work g) (s_table g)
                 (Z.of_nat (length (s_rays g))) index ray
                 (spectral_samples self * (index + 1)) y x
  | EndChannel index =>
      modify (set_lower_index (spectral_samples self * (index + 1)))
  end.

(** The ray a pixel is traced with: the channel's template, aimed. *)
Definition aimed (self : PinholeCamera) (g : setting) (ray : Ray.t T)
           (y x : Z) : Ray.t T :=
  Ray.set_direction
    (Ray.set_origin ray
       (point_transform (mkPoint (of_Z 0) (of_Z 0) (of_Z 0)) (to_root self)))
    (vector_transform (camera_direction (s_plane g) x y) (to_root self)).

End VocabularyLoop.

Section VocabularyFrames.
Context {T : Type} `{Arith T} {C : Collab T}.

(** The pixel in row [j], column [i]; the zero pixel outside the image. *)
Definition pixel_at (a : image T) (j i : nat) : pixel T :=
  nth i (nth j a []) zero_pixel.

(** The row lengths of an image. *)
Definition shape (a : image T) : list nat := map (@length (pixel T)) a.

Definition valid_pixel (p : pixel T) : Prop :=
  is_nan (fst (fst p)) = false /\ is_nan (snd (fst p)) = false
  /\ is_nan (snd p) = false.

(** The display frame [f] shows the accumulated frame [xf]: the two have
    one shape, and each display pixel is the colour mapping of the
    accumulated pixel, or both are still the zeros of the reset. *)
Definition shows (f xf : image T) : Prop :=
  shape f = shape xf
  /\ forall j i,
      (pixel_at xf j i = zero_pixel /\ pixel_at f j i = zero_pixel)
      \/ pixel_at f j i
         = ciexyz_to_srgb (fst (fst (pixel_at xf j i)))
                          (snd (fst (pixel_at xf j i)))
                          (snd (pixel_at xf j i)).

Definition display_consistent (s : state) : Prop :=
  shows (frame s) (xyz_frame s).

(** A computation that writes neither frame, leaves the world and
    [lower_index] alone, and traces nothing. *)
Definition writes_nothing {A} (m : M A) : Prop :=
  forall s,
    frame (snd (m s)) = frame s
    /\ xyz_frame (snd (m s)) = xyz_frame s
    /\ world (snd (m s)) = world s
    /\ lower_index (snd (m s)) = lower_index s
    /\ exists evs, out (snd (m s)) = out s ++ evs /\ trace_calls evs = [].

(** The tracer raises [e] for the pixel [(x, y)] of a channel entered in
    state [s]: the statistics line and the fresh spectrum before the call
    succeed, and the trace of the aimed ray in the world of [s] raises. *)
Definition tracer_raises (self : PinholeCamera) (g : setting)
           (index : Z) (ray : Ray.t T) (y x : Z) (s : state) (e : exn)
  : Prop :=
  fst (progress_report self (s_total_pixels g) (s_total_work g)
                       (Z.of_nat (length (s_rays g))) index y x s) = Ok tt
  /\ is_Ok (Spectrum_new (to_float (min_wavelength self))
                         (to_float (max_wavelength self))
                         (s_total_samples g)) = true
  /\ snd (ray_trace (aimed self g ray y x) (world s)) = Raise e.

(** Both frames are the zeros of the reset, or the tracer has been called
    since: [base] is the number of calls made before. *)
Definition untouched (blank : image T) (base : nat) (s : state) : Prop :=
  (frame s = blank /\ xyz_frame s = blank
   /\ length (trace_calls (out s)) = base)
  \/ (base < length (trace_calls (out s)))%nat.

End VocabularyFrames.

Section VocabularyImages.
Context {T : Type} `{Arith T}.

(** The image with the pixel in row [j], column [i] replaced. *)
Definition image_put (a : image T) (j i : nat) (p : pixel T) : image T :=
  set_nth a j (set_nth (nth j a []) i p).

(** The componentwise sum of two pixels, as [observe] accumulates. *)
Definition pixel_add (p q : pixel T) : pixel T :=
  (add (fst (fst p)) (fst (fst q)),
   add (snd (fst p)) (snd (fst q)),
   add (snd p) (snd q)).

End VocabularyImages.

Section VocabularyAccumulation.
Context {C : Collab R}.
Local Open Scope R_scope.

Definition nonneg_pixel (p : pixel R) : Prop :=
  0 <= fst (fst p) /\ 0 <= snd (fst p) /\ 0 <= snd p.

(** Every entry of the image is non-negative. *)
Definition nonneg_image (a : image R) : Prop :=
  forall j i, nonneg_pixel (pixel_at a j i).

(** The tracer returns no negative radiance. *)
Definition tracer_nonneg : Prop :=
  forall (r : Ray.t R) (w : World) (sample : list R) (n : Z),
    snd (ray_trace r w) = Ok (sample, n) ->
    forall v, In v sample -> 0 <= v.

(** The colour matching maps a spectrum without negative samples to
    tristimulus values that are not negative. *)
Definition ciexyz_nonneg : Prop :=
  forall (sp : Spectrum.t R) (tb : Table),
    (forall v, In v (Spectrum.samples sp) -> 0 <= v) ->
    nonneg_pixel (spectrum_to_ciexyz sp tb).

End VocabularyAccumulation.

Section VocabularyAdditive.
Context {C : Collab R}.
Local Open Scope R_scope.

(** The camera [self] with another channel count and sample count. *)
Definition with_channels (self : PinholeCamera) (channels samples : Z)
  : PinholeCamera :=
  mkCamera (_pixels self) (_fov self) channels samples
           (min_wavelength self) (max_wavelength self) (ray_max_depth self)
           (display_progress self) (display_update_time self)
           (root self) (to_root self).

(** The tracer returns, for every ray and in every world, the radiance
    [radiance ray] at a cost of [cost ray] rays, with as many samples as the
    ray asks for. *)
Definition tracer_is (radiance : Ray.t R -> list R) (cost : Ray.t R -> Z)
  : Prop :=
  forall (r : Ray.t R) (w : World),
    snd (ray_trace r w) = Ok (radiance r, cost r)
    /\ length (radiance r) = Z.to_nat (Ray.num_samples r).

(** What one pixel of one channel adds to the accumulated frame: the
    tristimulus values of a spectrum that is zero but for the channel's
    slice, which holds the radiance of the aimed ray. *)
Definition contribution (self : PinholeCamera) (g : setting)
           (radiance : Ray.t R -> list R) (index : Z) (ray : Ray.t R)
           (j i : nat) : pixel R :=
  let before := Z.to_nat (spectral_samples self * index) in
  let after := Z.to_nat (s_total_samples g
                         - spectral_samples self * (index + 1)) in
  spectrum_to_ciexyz
    (Spectrum.make (to_float (min_wavelength self))
                   (to_float (max_wavelength self))
                   (repeat 0 before
                    ++ radiance (aimed self g ray (Z.of_nat j) (Z.of_nat i))
                    ++ repeat 0 after))
    (s_table g).

(** Both frames have [h] rows of [w] pixels, and [lower_index] is [li]. *)
Definition framed (h w : nat) (li : Z) (s : state) : Prop :=
  shape (frame s) = repeat w h
  /\ shape (xyz_frame s) = repeat w h
  /\ lower_index s = li.

End VocabularyAdditive.

Section VocabularyChannels.
Context {C : Collab R}.

(** A pixel after the contributions of the given channels have been added
    to it, one channel after the other. *)
Definition accumulate (self : PinholeCamera) (g : setting)
           (radiance : Ray.t R -> list R) (channels : list (Z * Ray.t R))
           (j i : nat) (p : pixel R) : pixel R :=
  fold_left (fun acc ir =>
               pixel_add acc (contribution self g radiance (fst ir) (snd ir)
                                           j i))
            channels p.

End VocabularyChannels.

(** ** Vocabulary of the further properties *)

Unset Implicit Arguments.

Section VocabularyScan.
Context {T : Type} `{Arith T} {C : Collab T}.

(** The rays the loop hands to the tracer when nothing raises, in the
    order of the loop nest: channels outermost, then rows, then columns. *)
Definition scan_order (self : PinholeCamera) (g : setting)
  : list (Ray.t T) :=
  flat_map (fun ir : Z * Ray.t T =>
              map (fun yx : Z * Z => aimed self g (snd ir) (fst yx) (snd yx))
                  (raster (snd (_pixels self)) (fst (_pixels self))))
           (enumerate (s_rays g)).

(** The rays one step of the loop traces. *)
Definition item_traces (self : PinholeCamera) (g : setting) (it : item)
  : list (Ray.t T) :=
  match it with
  | Pixel _ ray y x => [aimed self g ray y x]
  | EndChannel _ => []
  end.

(** A call of [self.display()], or the line that announces one. *)
Definition is_display (ev : @event T) : bool :=
  match ev with
  | display_call _ => true
  | print_refreshing => true
  | _ => false
  end.

(** The closing line, "Render complete". *)
Definition is_complete (ev : @event T) : bool :=
  match ev with
  | print_complete _ => true
  | _ => false
  end.

(** Whatever [m] writes to the output it appends, and every event it
    appends passes [P]. *)
Definition emits {A} (P : @event T -> bool) (m : M A) : Prop :=
  forall s, exists evs,
      out (snd (m s)) = out s ++ evs /\ forallb P evs = true.

End VocabularyScan.

Section VocabularyPlane.
Context {T : Type} `{Arith T}.

(** A coordinate of a pixel in the image plane, before the direction is
    normalised: [image_start - image_delta * k] of line 181. *)
Definition plane_offset (start delta : pynum T) (k : Z) : T :=
  to_float (py_sub start (py_mul delta (PyInt k))).

End VocabularyPlane.

Section VocabularyFresh.
Context {T : Type} `{Arith T} {C : Collab T}.

(** The display pixel in row [j], column [i] is the colour mapping of the
    accumulated pixel there. *)
Definition fresh (s : state) (j i : nat) : Prop :=
  pixel_at (frame s) j i
  = ciexyz_to_srgb (fst (fst (pixel_at (xyz_frame s) j i)))
                   (snd (fst (pixel_at (xyz_frame s) j i)))
                   (snd (pixel_at (xyz_frame s) j i)).

(** Both frames have [h] rows of [w] pixels. *)
Definition shaped (h w : nat) (s : state) : Prop :=
  shape (frame s) = repeat w h /\ shape (xyz_frame s) = repeat w h.

End VocabularyFresh.

Set Implicit Arguments.

(** ** The triangle mesh ([raysect/primitive/mesh/matt/mesh.py])

    The mesh holds a numpy structured array [data] with one record per
    triangle; [points], [vectors], [v0], [v1], [v2], [x], [y], [z] and
    [normals] are views of it, so they are functions of [data] here.  The
    derived attributes [min_], [max_], [areas] and [units] are computed at
    their first read and then kept.  The numbers are those of the array's
    dtype, which the caller chooses; the methods are written over the
    arithmetic interface. *)

Unset Implicit Arguments.

Section MeshModel.
Context {T : Type} `{Arith T}.

(** A row of three numbers: a vertex, a normal, a bound. *)
Definition vec3 : Type := (T * T * T)%type.

(** One record of [data]: the fields ['normals'], ['vectors'] (the three
    vertices) and ['attr']. *)
Record facet : Type := mkFacet {
  f_normals : vec3;
  f_v0 : vec3;
  f_v1 : vec3;
  f_v2 : vec3;
  f_attr : Z
}.

Definition set_f_normals (f : facet) (n : vec3) : facet :=
  mkFacet n (f_v0 f) (f_v1 f) (f_v2 f) (f_attr f).

(** [a - b] and [a + b] on rows. *)
Definition vsub (a b : vec3) : vec3 :=
  let '(a0, a1, a2) := a in
  let '(b0, b1, b2) := b in
  (sub a0 b0, sub a1 b1, sub a2 b2).

Definition vadd (a b : vec3) : vec3 :=
  let '(a0, a1, a2) := a in
  let '(b0, b1, b2) := b in
  (add a0 b0, add a1 b1, add a2 b2).

(** [numpy.cross] on rows of three. *)
Definition np_cross (a b : vec3) : vec3 :=
  let '(a0, a1, a2) := a in
  let '(b0, b1, b2) := b in
  (sub (mul a1 b2) (mul a2 b1),
   sub (mul a2 b0) (mul a0 b2),
   sub (mul a0 b1) (mul a1 b0)).

(** [(n ** 2).sum()] of one row. *)
Definition sum_squares (n : vec3) : T :=
  let '(x, y, z) := n in
  add (add (mul x x) (mul y y)) (mul z z).

(** [cross(v1 - v0, v2 - v0)] of one record. *)
Definition facet_normal (f : facet) : vec3 :=
  np_cross (vsub (f_v1 f) (f_v0 f)) (vsub (f_v2 f) (f_v0 f)).

(** *** The class methods that filter [data] *)

Definition AREA_SIZE_THRESHOLD : Z := 0.

(** [remove_empty_areas]: the records whose triangle has an area above the
    threshold, by a boolean mask. *)
Definition remove_empty_areas (data : list facet) : list facet :=
  filter (fun f =>
            ltb (of_Z AREA_SIZE_THRESHOLD)
                (sqrt (sum_squares (facet_normal f))))
         data.

(** [data['vectors'].sum(axis=1)] of one record: the three vertices added,
    coordinate by coordinate. *)
Definition polygon_sum (f : facet) : vec3 :=
  vadd (vadd (f_v0 f) (f_v1 f)) (f_v2 f).

(** A stable indirect sort by one key: [i] goes in front of the first
    index whose key is not smaller. *)
Fixpoint insert_by (key : nat -> T) (i : nat) (l : list nat) : list nat :=
  match l with
  | [] => [i]
  | j :: l' =>
      if ltb (key j) (key i) then j :: insert_by key i l'
      else i :: j :: l'
  end.

Definition argsort_stable (key : nat -> T) (l : list nat) : list nat :=
  fold_right (insert_by key) [] l.

(** [numpy.lexsort(keys)] over [n] rows: a stable sort by each key in
    turn, so that the last key is the primary one. *)
Definition lexsort (keys : list (nat -> T)) (n : nat) : list nat :=
  fold_left (fun idx key => argsort_stable key idx) keys (seq 0 n).

(** [a != b] on rows, reduced with [any]. *)
Definition vec3_neb (a b : vec3) : bool :=
  let '(a0, a1, a2) := a in
  let '(b0, b1, b2) := b in
  negb (eqb a0 b0) || negb (eqb a1 b1) || negb (eqb a2 b2).

(** [numpy.any(p[idx[1:]] != p[idx[:-1]], axis=1)] *)
Fixpoint adjacent_diff (p : nat -> vec3) (idx : list nat) : list bool :=
  match idx with
  | i :: (j :: _) as rest => vec3_neb (p j) (p i) :: adjacent_diff p rest
  | _ => []
  end.

(** [a[mask]] for a boolean mask: the lengths must agree. *)
Fixpoint select {A} (a : list A) (mask : list bool) : list A :=
  match a, mask with
  | x :: a', b :: mask' => if b then x :: select a' mask' else select a' mask'
  | _, _ => []
  end.

Definition np_mask {A} (a : list A) (mask : list bool) : res (list A) :=
  if Nat.eqb (length a) (length mask) then Ok (select a mask)
  else Raise IndexError.

(** [numpy.sort] on indices. *)
Fixpoint insert_nat (i : nat) (l : list nat) : list nat :=
  match l with
  | [] => [i]
  | j :: l' => if Nat.leb i j then i :: j :: l' else j :: insert_nat i l'
  end.

Definition np_sort (l : list nat) : list nat := fold_right insert_nat [] l.

(** A record of zeros, for reads outside [data]. *)
Definition zero_facet : facet :=
  mkFacet (of_Z 0, of_Z 0, of_Z 0) (of_Z 0, of_Z 0, of_Z 0)
          (of_Z 0, of_Z 0, of_Z 0) (of_Z 0, of_Z 0, of_Z 0) 0.

(** [remove_duplicate_polygons] *)
Definition remove_duplicate_polygons (data : list facet)
  : res (list facet) :=
  let polygons := fun i => polygon_sum (nth i data zero_facet) in
  let idx :=
    lexsort [(fun i => fst (fst (polygons i)));
             (fun i => snd (fst (polygons i)));
             (fun i => snd (polygons i))]
            (length data) in
  let diff := adjacent_diff polygons idx in
  match np_mask idx (true :: diff) with
  | Raise e => Raise e
  | Ok kept => Ok (map (fun i => nth i data zero_facet) (np_sort kept))
  end.

(** *** The mesh object *)

Record Mesh : Type := mkMesh {
  mesh_name : String.string;
  data : list facet;
  _min : option vec3;
  _max : option vec3;
  _areas : option (list T);      (* a column: one area for each record *)
  _units : option (list vec3)
}.

Definition set_data (m : Mesh) (d : list facet) : Mesh :=
  mkMesh (mesh_name m) d (_min m) (_max m) (_areas m) (_units m).

(** The property setters, [_set(key)]. *)
Definition set_min (m : Mesh) (v : vec3) : Mesh :=
  mkMesh (mesh_name m) (data m) (Some v) (_max m) (_areas m) (_units m).
Definition set_max (m : Mesh) (v : vec3) : Mesh :=
  mkMesh (mesh_name m) (data m) (_min m) (Some v) (_areas m) (_units m).
Definition set_areas (m : Mesh) (v : list T) : Mesh :=
  mkMesh (mesh_name m) (data m) (_min m) (_max m) (Some v) (_units m).
Definition set_units (m : Mesh) (v : list vec3) : Mesh :=
  mkMesh (mesh_name m) (data m) (_min m) (_max m) (_areas m) (Some v).

(** The views [normals], [v0], [v1], [v2] and [vectors]. *)
Definition normals (m : Mesh) : list vec3 := map f_normals (data m).
Definition v0 (m : Mesh) : list vec3 := map f_v0 (data m).
Definition v1 (m : Mesh) : list vec3 := map f_v1 (data m).
Definition v2 (m : Mesh) : list vec3 := map f_v2 (data m).
Definition vectors (m : Mesh) : list vec3 :=
  flat_map (fun f => [f_v0 f; f_v1 f; f_v2 f]) (data m).

(** The views [x], [y] and [z]: [points[:, X::3]] and so on, one
    coordinate of the three vertices of each record. *)
Definition mesh_x (m : Mesh) : list vec3 :=
  map (fun f => (fst (fst (f_v0 f)), fst (fst (f_v1 f)), fst (fst (f_v2 f))))
      (data m).
Definition mesh_y (m : Mesh) : list vec3 :=
  map (fun f => (snd (fst (f_v0 f)), snd (fst (f_v1 f)), snd (fst (f_v2 f))))
      (data m).
Definition mesh_z (m : Mesh) : list vec3 :=
  map (fun f => (snd (f_v0 f), snd (f_v1 f), snd (f_v2 f))) (data m).

(** [update_normals]: it writes through the view, into [data]. *)
Definition update_normals (m : Mesh) : Mesh :=
  set_data m (map (fun f => set_f_normals f (facet_normal f)) (data m)).

(** [numpy.minimum] and [numpy.maximum] of two numbers: the first when it
    is a NaN or not beyond the second. *)
Definition np_minimum (a b : T) : T := if is_nan a || leb a b then a else b.
Definition np_maximum (a b : T) : T := if is_nan a || leb b a then a else b.

(** A reduction over the rows, coordinate by coordinate; numpy refuses
    an empty array. *)
Definition reduce_rows (op : T -> T -> T) (rows : list vec3) : res vec3 :=
  match rows with
  | [] => Raise ValueError
  | r :: rest =>
      Ok (fold_left (fun acc v =>
                       (op (fst (fst acc)) (fst (fst v)),
                        op (snd (fst acc)) (snd (fst v)),
                        op (snd acc) (snd v)))
                    rest r)
  end.

(** [update_min], [update_max]: [vectors.min(axis=(0, 1))] and
    [vectors.max(axis=(0, 1))]. *)
Definition update_min (m : Mesh) : res Mesh :=
  match reduce_rows np_minimum (vectors m) with
  | Raise e => Raise e
  | Ok v => Ok (set_min m v)
  end.

Definition update_max (m : Mesh) : res Mesh :=
  match reduce_rows np_maximum (vectors m) with
  | Raise e => Raise e
  | Ok v => Ok (set_max m v)
  end.

(** [.5 * sqrt((normals ** 2).sum(axis=1))] *)
Definition half_lengths (ns : list vec3) : list T :=
  map (fun n => mul lit_half (sqrt (sum_squares n))) ns.

(** [update_areas]: from the stored normals. *)
Definition update_areas (m : Mesh) : Mesh :=
  set_areas m (half_lengths (normals m)).

(** The getter of [areas], [_get_or_update('areas')]: computed at the
    first read, then kept. *)
Definition get_areas (m : Mesh) : list T * Mesh :=
  match _areas m with
  | Some a => (a, m)
  | None => (half_lengths (normals m), update_areas m)
  end.

Definition get_min (m : Mesh) : res (vec3 * Mesh) :=
  match _min m with
  | Some v => Ok (v, m)
  | None =>
      match reduce_rows np_minimum (vectors m) with
      | Raise e => Raise e
      | Ok v => Ok (v, set_min m v)
      end
  end.

Definition get_max (m : Mesh) : res (vec3 * Mesh) :=
  match _max m with
  | Some v => Ok (v, m)
  | None =>
      match reduce_rows np_maximum (vectors m) with
      | Raise e => Raise e
      | Ok v => Ok (v, set_max m v)
      end
  end.

(** Lines 110-121 of [update_units]: each normal whose area is above zero
    is divided by twice the area; the mask must have the length of the
    normals. *)
Fixpoint scale_rows (ns : list vec3) (areas : list T) : list vec3 :=
  match ns, areas with
  | n :: ns', a :: areas' =>
      (if ltb (of_Z 0) a then
         let d := mul (of_Z 2) a in
         (div (fst (fst n)) d, div (snd (fst n)) d, div (snd n) d)
       else n) :: scale_rows ns' areas'
  | _, _ => []
  end.

Definition unit_rows (ns : list vec3) (areas : list T) : res (list vec3) :=
  if existsb (fun a => ltb (of_Z 0) a) areas then
    if Nat.eqb (length areas) (length ns) then Ok (scale_rows ns areas)
    else Raise IndexError
  else Ok ns.

(** [update_units], with the value it stores; it reads [areas] through
    the getter. *)
Definition units_of (m : Mesh) : res (list vec3 * Mesh) :=
  let (areas, m1) := get_areas m in
  match unit_rows (normals m1) areas with
  | Raise e => Raise e
  | Ok u => Ok (u, set_units m1 u)
  end.

Definition update_units (m : Mesh) : res Mesh :=
  match units_of m with
  | Raise e => Raise e
  | Ok (_, m') => Ok m'
  end.

Definition get_units (m : Mesh) : res (list vec3 * Mesh) :=
  match _units m with
  | Some u => Ok (u, m)
  | None => units_of m
  end.

(** [__init__] *)
Definition Mesh_init (data : list facet)
           (calculate_normals remove_empty remove_duplicates : bool)
           (name : String.string) : res Mesh :=
  let data := if remove_empty then remove_empty_areas data else data in
  match (if remove_duplicates then remove_duplicate_polygons data
         else Ok data) with
  | Raise e => Raise e
  | Ok data =>
      let m := mkMesh name data None None None None in
      Ok (if calculate_normals then update_normals m else m)
  end.

(** A row of [points]: the nine coordinates of a record. *)
Definition row9 (f : facet) : list T :=
  let '(a0, a1, a2) := f_v0 f in
  let '(b0, b1, b2) := f_v1 f in
  let '(c0, c1, c2) := f_v2 f in
  [a0; a1; a2; b0; b1; b2; c0; c1; c2].

Definition with_row9 (f : facet) (r : list T) : facet :=
  match r with
  | [a0; a1; a2; b0; b1; b2; c0; c1; c2] =>
      mkFacet (f_normals f) (a0, a1, a2) (b0, b1, b2) (c0, c1, c2)
              (f_attr f)
  | _ => f
  end.

(** [__getitem__] with an integer index *)
Definition Mesh_getitem (m : Mesh) (k : Z) : res (list T) :=
  match np_index (Z.of_nat (length (data m))) k with
  | Raise e => Raise e
  | Ok j => Ok (row9 (nth j (data m) zero_facet))
  end.

(** [__setitem__] with an integer index: the value must have nine
    entries, or one (broadcast). *)
Definition Mesh_setitem (m : Mesh) (k : Z) (v : list T) : res Mesh :=
  match np_index (Z.of_nat (length (data m))) k with
  | Raise e => Raise e
  | Ok j =>
      let f := nth j (data m) zero_facet in
      if Nat.eqb (length v) 9 then
        Ok (set_data m (set_nth (data m) j (with_row9 f v)))
      else
        match v with
        | [b] => Ok (set_data m (set_nth (data m) j
                                         (with_row9 f (repeat b 9))))
        | _ => Raise ValueError
        end
  end.

(** [__len__] and [__iter__] *)
Definition Mesh_len (m : Mesh) : Z := Z.of_nat (length (data m)).
Definition Mesh_iter (m : Mesh) : list (list T) := map row9 (data m).

End MeshModel.

Arguments vec3 T : clear implicits.
Arguments facet T : clear implicits.
Arguments Mesh T : clear implicits.

(** *** Vocabulary of the mesh properties *)

Section VocabularyMesh.
Context {T : Type} `{Arith T}.

(** The scalar product of two rows. *)
Definition vdot (a b : vec3 T) : T :=
  let '(a0, a1, a2) := a in
  let '(b0, b1, b2) := b in
  add (add (mul a0 b0) (mul a1 b1)) (mul a2 b2).

(** The two edges of a triangle that leave its first vertex. *)
Definition edge1 (f : facet T) : vec3 T := vsub (f_v1 f) (f_v0 f).
Definition edge2 (f : facet T) : vec3 T := vsub (f_v2 f) (f_v0 f).

(** A mesh as [__init__] makes it from [data] with its default flags,
    before the normals are updated: nothing is cached. *)
Definition fresh_mesh (name : String.string) (d : list (facet T)) : Mesh T :=
  mkMesh name d None None None None.

End VocabularyMesh.

Section VocabularyMeshExact.
Local Open Scope R_scope.

(** The three vertices of the triangle lie on one line: its two edges are
    linearly dependent. *)
Definition collinear (f : facet R) : Prop :=
  exists a b : R,
    (a <> 0 \/ b <> 0)
    /\ vadd (a * fst (fst (edge1 f)), a * snd (fst (edge1 f)),
             a * snd (edge1 f))
            (b * fst (fst (edge2 f)), b * snd (fst (edge2 f)),
             b * snd (edge2 f))
       = (0, 0, 0).

(** The area of the triangle, by the Gram determinant of its edges:
    [4 * x^2 = |e1|^2 |e2|^2 - (e1 . e2)^2], with [x] not negative. *)
Definition triangle_area (f : facet R) (x : R) : Prop :=
  0 <= x
  /\ 4 * (x * x)
     = sum_squares (edge1 f) * sum_squares (edge2 f)
       - vdot (edge1 f) (edge2 f) * vdot (edge1 f) (edge2 f).

(** [lo <= v <= hi], coordinate by coordinate. *)
Definition within (lo hi v : vec3 R) : Prop :=
  fst (fst lo) <= fst (fst v) <= fst (fst hi)
  /\ snd (fst lo) <= snd (fst v) <= snd (fst hi)
  /\ snd lo <= snd v <= snd hi.

(** No earlier row of [d] has the vertex sum of row [i]. *)
Definition first_occurrence (d : list (facet R)) (i : nat) : bool :=
  forallb (fun c => vec3_neb (polygon_sum (nth c d zero_facet))
                             (polygon_sum (nth i d zero_facet)))
          (seq 0 i).

End VocabularyMeshExact.

Section MeshSamples.

(** A right triangle with legs of length [s] in the plane [z = 0]. *)
Definition right_triangle (s : float) : facet float :=
  mkFacet (0%float, 0%float, 0%float)
          (0%float, 0%float, 0%float) (s, 0%float, 0%float)
          (0%float, s, 0%float) 0.

End MeshSamples.

Set Implicit Arguments.

(** * Properties *)

(** ** The wavelength partition *)

Section PartitionFacts.
Context {T : Type} `{Arith T} {C : Collab T}.
Variable self : PinholeCamera.

Lemma generate_rays_loop_chain delta indices :
  forall lower acc,
    generate_rays_loop self delta indices lower acc
    = acc ++ chain self delta indices lower.
Proof.
  induction indices as [|i rest IH]; intros lower acc; simpl.
  - now rewrite app_nil_r.
  - rewrite IH, <- app_assoc. reflexivity.
Qed.

Lemma chain_length delta indices lower :
  length (chain self delta indices lower) = length indices.
Proof.
  revert lower; induction indices as [|i rest IH]; intros lower; simpl;
    [reflexivity | now rewrite IH].
Qed.

Lemma chain_nth delta k :
  forall a lower i r,
    nth_error (chain self delta (map Z.of_nat (seq a k)) lower) i = Some r ->
    Ray.max_wavelength r
    = to_float (upper_bound self delta (Z.of_nat (a + i)))
    /\ Ray.min_wavelength r
       = to_float match i with
                  | O => lower
                  | S j => upper_bound self delta (Z.of_nat (a + j))
                  end.
Proof.
  induction k as [|k IH]; intros a lower i r Hn; simpl in Hn.
  - destruct i; discriminate.
  - destruct i as [|i]; simpl in Hn.
    + injection Hn as <-. simpl. rewrite Nat.add_0_r. split; reflexivity.
    + apply IH in Hn. destruct Hn as [Hmax Hmin].
      replace (a + S i)%nat with (S a + i)%nat by lia.
      split; [exact Hmax|].
      rewrite Hmin. destruct i as [|j].
      * now rewrite Nat.add_0_r.
      * now replace (a + S j)%nat with (S a + j)%nat by lia.
Qed.


Lemma range_length n : length (range n) = Z.to_nat n.
Proof. unfold range. now rewrite length_map, length_seq. Qed.

(** What [generate_rays] returns, case by case on the ray count. *)
Lemma generate_rays_cases :
  generate_rays self
  = if rays self =? 0 then Raise ZeroDivisionError
    else Ok (chain self (PyFloat (step self)) (range (rays self))
                   (min_wavelength self)).
Proof.
  unfold generate_rays, py_truediv, step. simpl.
  destruct (rays self =? 0); [reflexivity|].
  now rewrite generate_rays_loop_chain.
Qed.

Lemma partition_nth i r :
  nth_error (chain self (PyFloat (step self)) (range (rays self))
                   (min_wavelength self)) i = Some r ->
  Ray.max_wavelength r
  = to_float (upper_bound self (PyFloat (step self)) (Z.of_nat i))
  /\ Ray.min_wavelength r
     = to_float match i with
                | O => min_wavelength self
                | S j => upper_bound self (PyFloat (step self)) (Z.of_nat j)
                end.
Proof.
  intros Hn. unfold range in Hn. apply chain_nth in Hn. exact Hn.
Qed.

Lemma partition_contiguous :
  contiguous (chain self (PyFloat (step self)) (range (rays self))
                    (min_wavelength self)).
Proof.
  intros i a b Ha Hb.
  apply partition_nth in Ha. apply partition_nth in Hb.
  destruct Ha as [Ha _]. destruct Hb as [_ Hb]. now rewrite Ha, Hb.
Qed.

End PartitionFacts.

Section PartitionExact.
Context {C : Collab R}.
Variable self : PinholeCamera (T := R).
Local Open Scope R_scope.

Let lo : R := to_float (min_wavelength self).
Let hi : R := to_float (max_wavelength self).
Let n : Z := rays self.

Lemma to_float_py_sub_R (a b : pynum R) :
  to_float (py_sub a b) = to_float a - to_float b.
Proof. destruct a, b; simpl; try reflexivity. apply minus_IZR. Qed.

Lemma step_R : step self = (hi - lo) / IZR n.
Proof. unfold step. now rewrite to_float_py_sub_R. Qed.

Lemma upper_bound_R (i : Z) :
  to_float (upper_bound self (PyFloat (step self)) i)
  = lo + (hi - lo) / IZR n * IZR (i + 1).
Proof.
  unfold upper_bound. rewrite step_R.
  destruct (min_wavelength self); reflexivity.
Qed.

(** Both bounds of the interval at position [i], in closed form. *)
Lemma partition_nth_R i r :
  nth_error (chain self (PyFloat (step self)) (range n) (min_wavelength self)) i
  = Some r ->
  Ray.min_wavelength r = lo + (hi - lo) / IZR n * INR i
  /\ Ray.max_wavelength r = lo + (hi - lo) / IZR n * (INR i + 1).
Proof.
  intros Hn. apply partition_nth in Hn. destruct Hn as [Hmax Hmin].
  rewrite Hmax, Hmin, upper_bound_R. split.
  - destruct i as [|j].
    + simpl. fold lo. lra.
    + rewrite upper_bound_R, plus_IZR, <- INR_IZR_INZ, S_INR. reflexivity.
  - rewrite plus_IZR, <- INR_IZR_INZ. reflexivity.
Qed.

Hypothesis Hn : (1 <= n)%Z.
Hypothesis Hlt : lo < hi.

Let P : list (Ray.t R) :=
  chain self (PyFloat (step self)) (range n) (min_wavelength self).

Lemma IZR_n_pos : 0 < IZR n.
Proof. apply IZR_lt. lia. Qed.

Lemma width_pos : 0 < (hi - lo) / IZR n.
Proof. apply Rdiv_lt_0_compat; [lra | apply IZR_n_pos]. Qed.

Lemma partition_length_R : length P = Z.to_nat n.
Proof. unfold P. now rewrite chain_length, range_length. Qed.

Lemma partition_equal_width : equal_width ((hi - lo) / IZR n) P.
Proof.
  intros r Hr. apply In_nth_error in Hr. destruct Hr as [i Hi].
  apply partition_nth_R in Hi. destruct Hi as [-> ->]. lra.
Qed.

Lemma partition_ascending : ascending P.
Proof.
  pose proof width_pos as Hw. split.
  - intros r Hr. apply In_nth_error in Hr. destruct Hr as [i Hi].
    apply partition_nth_R in Hi. destruct Hi as [-> ->]. lra.
  - intros i j a b Hij Ha Hb.
    apply partition_nth_R in Ha. apply partition_nth_R in Hb.
    destruct Ha as [_ ->]. destruct Hb as [-> _].
    assert (INR i + 1 <= INR j).
    { rewrite <- S_INR. apply le_INR. lia. }
    nra.
Qed.

Lemma partition_last_upper : last_upper P = Some hi.
Proof.
  unfold last_upper.
  destruct (nth_error P (length P - 1)) as [r|] eqn:E.
  - simpl. f_equal. apply partition_nth_R in E. destruct E as [_ ->].
    rewrite partition_length_R.
    assert (INR (Z.to_nat n - 1) + 1 = IZR n) as ->.
    { rewrite <- S_INR, INR_IZR_INZ. f_equal. lia. }
    pose proof IZR_n_pos. field. lra.
  - apply nth_error_None in E. rewrite partition_length_R in E. lia.
Qed.

Lemma partition_first_lower : first_lower P = Some lo.
Proof.
  unfold first_lower.
  destruct (nth_error P 0) as [r|] eqn:E.
  - simpl. f_equal. apply partition_nth_R in E. destruct E as [-> _].
    simpl. lra.
  - apply nth_error_None in E. rewrite partition_length_R in E. lia.
Qed.

(** A chain of intervals that starts at [a] covers every point up to the
    last upper bound. *)
Lemma chain_covers_upto delta indices :
  forall lower x d,
    to_float lower <= x ->
    x <= to_float (upper_bound self delta (last indices d)) ->
    indices <> [] ->
    exists r, In r (chain self delta indices lower)
              /\ Ray.min_wavelength r <= x <= Ray.max_wavelength r.
Proof.
  induction indices as [|i rest IH]; intros lower x d Hlo Hhi Hne;
    [contradiction|].
  destruct (Rle_dec x (to_float (upper_bound self delta i))) as [Hx|Hx].
  - eexists. split; [left; reflexivity|]. simpl. lra.
  - destruct rest as [|i' rest'].
    + simpl in Hhi. lra.
    + destruct (IH (upper_bound self delta i) x d) as [r [Hr Hb]].
      * lra.
      * exact Hhi.
      * discriminate.
      * exists r. split; [right; exact Hr | exact Hb].
Qed.

Lemma range_last : last (range n) 0%Z = (n - 1)%Z.
Proof.
  unfold range. replace (Z.to_nat n) with (S (Z.to_nat n - 1)) by lia.
  rewrite seq_S, map_app. simpl (map _ [_]). rewrite last_last. lia.
Qed.

Lemma partition_covers : covers lo hi P.
Proof.
  pose proof width_pos as Hw. pose proof IZR_n_pos as Hp.
  intros x. split.
  - intros [Hlo Hhi].
    apply chain_covers_upto with (d := 0%Z).
    + exact Hlo.
    + rewrite range_last, upper_bound_R.
      replace (n - 1 + 1)%Z with n by lia.
      replace (lo + (hi - lo) / IZR n * IZR n) with hi by (field; lra).
      exact Hhi.
    + intros E. apply (f_equal (@length Z)) in E.
      rewrite range_length in E. simpl in E. lia.
  - intros [r [Hr [Hlo Hhi]]].
    apply In_nth_error in Hr. destruct Hr as [i Hi].
    assert (Hlen : (i < Z.to_nat n)%nat).
    { rewrite <- partition_length_R. apply nth_error_Some. now rewrite Hi. }
    apply partition_nth_R in Hi. destruct Hi as [E1 E2].
    rewrite E1 in Hlo. rewrite E2 in Hhi.
    assert (0 <= INR i) by apply pos_INR.
    assert (INR i + 1 <= IZR n).
    { rewrite <- S_INR, INR_IZR_INZ. apply IZR_le. lia. }
    assert (Hup : (hi - lo) / IZR n * (INR i + 1) <= hi - lo).
    { replace (hi - lo) with ((hi - lo) / IZR n * IZR n) at 2 by (field; lra).
      apply Rmult_le_compat_l; lra. }
    split; nra.
Qed.

End PartitionExact.

Section PartitionContract.

Lemma partition_first_lower_any {T : Type} `{Arith T} {C : Collab T}
      (self : PinholeCamera) :
  1 <= rays self ->
  first_lower (chain self (PyFloat (step self)) (range (rays self))
                     (min_wavelength self))
  = Some (to_float (min_wavelength self)).
Proof.
  intros Hn. unfold first_lower.
  destruct (nth_error _ 0) as [r|] eqn:E.
  - apply partition_nth in E. destruct E as [_ E]. simpl. now rewrite E.
  - apply nth_error_None in E. rewrite chain_length, range_length in E. lia.
Qed.

(** C1, as amended.  For a channel count of at least one the partition has
    that many intervals, the first starts at [min_wavelength], each starts
    where the one before it ends, and the upper bound at position [i] is
    [min_wavelength + delta * (i + 1)], computed from the index alone; this
    holds in any arithmetic, binary64 included.  In exact arithmetic, and
    for [min_wavelength < max_wavelength], the intervals moreover have the
    equal width [(max - min) / channels], ascend without overlap, have the
    union [[min, max]], and the last upper bound is [max_wavelength]. *)
Theorem partition_contract
        {T : Type} `{Arith T} {C : Collab T} (self : PinholeCamera)
        {CR : Collab R} (exact : PinholeCamera (T := R)) :
  1 <= rays self ->
  1 <= rays exact ->
  (to_float (min_wavelength exact) < to_float (max_wavelength exact))%R ->
  (exists l,
      generate_rays self = Ok l
      /\ length l = Z.to_nat (rays self)
      /\ first_lower l = Some (to_float (min_wavelength self))
      /\ contiguous l
      /\ forall i r,
          nth_error l i = Some r ->
          Ray.max_wavelength r
          = to_float (upper_bound self (PyFloat (step self)) (Z.of_nat i)))
  /\ (exists l,
         let lo := to_float (min_wavelength exact) in
         let hi := to_float (max_wavelength exact) in
         generate_rays exact = Ok l
         /\ length l = Z.to_nat (rays exact)
         /\ contiguous l
         /\ equal_width ((hi - lo) / IZR (rays exact)) l
         /\ ascending l
         /\ covers lo hi l
         /\ first_lower l = Some lo
         /\ last_upper l = Some hi).
Proof.
  intros Hn HnR Hlt. split.
  - eexists. rewrite generate_rays_cases.
    destruct (Z.eqb_spec (rays self) 0) as [E|_]; [lia|].
    split; [reflexivity|].
    split; [now rewrite chain_length, range_length|].
    split; [now apply partition_first_lower_any|].
    split; [apply partition_contiguous|].
    intros i r Hi. now apply partition_nth in Hi.
  - eexists. cbv zeta. rewrite generate_rays_cases.
    destruct (Z.eqb_spec (rays exact) 0) as [E|_]; [lia|].
    split; [reflexivity|].
    split; [now apply partition_length_R|].
    split; [apply partition_contiguous|].
    split; [now apply partition_equal_width|].
    split; [now apply partition_ascending|].
    split; [now apply partition_covers|].
    split; [now apply partition_first_lower | now apply partition_last_upper].
Qed.

End PartitionContract.

(** The contract at two cameras: eleven channels over 200..1000 in binary64,
    three channels over 375..740 in exact arithmetic. *)
Lemma partition_contract_witness :
  let self :=
    Sample.float_camera None (2, 2) (PyInt 40) 11 2
                        (PyFloat 200%float) (PyFloat 1000%float) RootWorld in
  let exact :=
    Sample.real_camera (2, 2) (PyInt 40) 3 2
                       (PyFloat 375%R) (PyFloat 740%R) RootWorld in
  (1 <= rays self /\ 1 <= rays exact
   /\ (to_float (min_wavelength exact) < to_float (max_wavelength exact))%R)
  /\ (exists l, generate_rays self = Ok l /\ length l = 11%nat
                /\ contiguous l)
  /\ (exists l, generate_rays exact = Ok l /\ length l = 3%nat
                /\ last_upper l = Some 740%R).
Proof.
  intros self exact.
  assert (H1 : 1 <= rays self) by (simpl; lia).
  assert (H2 : 1 <= rays exact) by (simpl; lia).
  assert (H3 : (to_float (min_wavelength exact)
                < to_float (max_wavelength exact))%R) by (simpl; lra).
  split; [auto|].
  destruct (partition_contract self exact H1 H2 H3)
    as [[l [E [Hlen [_ [Hc _]]]]] [l' [E' [Hlen' [_ [_ [_ [_ [_ Hl]]]]]]]]].
  split.
  - exists l. auto.
  - exists l'. auto.
Defined.

(** C1 as stated fails in binary64: with [min_wavelength = 200.0],
    [max_wavelength = 1000.0] and eleven channels the last upper bound is
    [200.0 + (800.0 / 11) * 11], which is above [1000.0]. *)
Lemma partition_last_bound_not_exact :
  let self :=
    Sample.float_camera None (2, 2) (PyInt 40) 11 2
                        (PyFloat 200%float) (PyFloat 1000%float) RootWorld in
  py_ltb (min_wavelength self) (max_wavelength self) = true
  /\ 1 <= rays self
  /\ exists l u,
      generate_rays self = Ok l
      /\ last_upper l = Some u
      /\ eqb u (to_float (max_wavelength self)) = false
      /\ ltb (to_float (max_wavelength self)) u = true.
Proof.
  cbv zeta. split; [reflexivity|]. split; [simpl; lia|].
  eexists. eexists. split; [vm_compute; reflexivity|].
  split; [vm_compute; reflexivity|].
  split; vm_compute; reflexivity.
Qed.



(** ** Validation and scene attachment *)

Section Validation.
Context {T : Type} `{Arith T} {C : Collab T}.

Lemma zeros3_cases (h w : Z) :
  zeros3 (T := T) h w
  = if (0 <=? h) && (0 <=? w) then Ok (zero_image h w) else Raise ValueError.
Proof.
  unfold zeros3, zero_image.
  destruct (Z.ltb_spec h 0), (Z.ltb_spec w 0), (Z.leb_spec 0 h),
    (Z.leb_spec 0 w); simpl; try reflexivity; lia.
Qed.

(** C3, as amended.  The constructor succeeds exactly when [pixels] has two
    entries, [fov <= 0] is false, and neither pixel count is negative (so
    that numpy can allocate the frame); a width or height of zero passes.
    Every failure is a ValueError, and it is raised by the constructor,
    which makes no call to the tracer.  The [fov] setter alone raises
    exactly on [fov <= 0], the [pixels] setter exactly on a tuple that does
    not have two entries. *)
Theorem init_validation (pixels : list Z) (fov : pynum T)
        (spectral_samples rays : Z) (root : root_node)
        (to_root : AffineMatrix) :
  let r := init pixels fov spectral_samples rays root to_root in
  is_Ok r
  = match pixels with
    | [w; h] => negb (py_leb fov (PyInt 0)) && ((0 <=? h) && (0 <=? w))
    | _ => false
    end
  /\ (forall e, r = Raise e -> e = ValueError)
  /\ is_Ok (set_fov fov) = negb (py_leb fov (PyInt 0))
  /\ is_Ok (set_pixels pixels) = (length pixels =? 2)%nat.
Proof.
  cbv zeta.
  assert (Hfov : is_Ok (set_fov fov) = negb (py_leb fov (PyInt 0))).
  { unfold set_fov. now destruct (py_leb fov (PyInt 0)). }
  assert (Hpix : is_Ok (set_pixels pixels) = (length pixels =? 2)%nat).
  { now destruct pixels as [|w [|h [|x rest]]]. }
  repeat split; try assumption.
  - unfold init.
    destruct pixels as [|w [|h [|x rest]]]; try reflexivity.
    cbn [set_pixels]. rewrite <- Hfov, zeros3_cases.
    destruct (set_fov fov); [|reflexivity].
    now destruct ((0 <=? h) && (0 <=? w)).
  - intros e. unfold init.
    destruct pixels as [|w [|h [|x rest]]]; cbn [set_pixels];
      try (intros E; now inversion E).
    unfold set_fov. rewrite zeros3_cases.
    destruct (py_leb fov (PyInt 0)); [intros E; now inversion E|].
    destruct ((0 <=? h) && (0 <=? w)); intros E; now inversion E.
Qed.

End Validation.

(** C3 as stated fails for [pixels=(0,480)]: the constructor accepts it
    (with the default [fov=40]), and a render with it then completes
    without an exception and without a call of the tracer. *)
Lemma zero_width_is_accepted :
  let cam :=
    Sample.float_camera None (0, 480) (PyInt 40) 1 20
                        (PyFloat 375%float) (PyFloat 740%float) RootWorld in
  let s0 := mkState (C := Sample.float_world None) (zero_image 480 0) []
                    0 0%float (PyInt 0) 0 0%nat 0%float [] in
  init (C := Sample.float_world None) [0; 480] (PyInt 40) 20 1 RootWorld tt
  = Ok (cam, zero_image 480 0)
  /\ fst (observe cam s0) = Ok tt
  /\ trace_calls (out (snd (observe cam s0))) = [].
Proof.
  cbv zeta. split; [reflexivity|]. split; vm_compute; reflexivity.
Qed.

Section Attachment.
Context {T : Type} `{Arith T} {C : Collab T}.

(** C4.  When the root of the camera's scene graph is not a World, [observe]
    fails with a configuration error; the world, the clock and the output
    are as they were, so no ray has been traced (nor anything printed or
    displayed).  The exception is the TypeError of the root check whenever
    the frames could be allocated, that is for pixel counts that are not
    negative. *)
Theorem observe_requires_world (self : PinholeCamera) (s : state) :
  isinstance_World (root self) = false ->
  exists e,
    fst (observe self s) = Raise e
    /\ ConfigurationError e
    /\ scene_of (snd (observe self s)) = scene_of s
    /\ trace_calls (out (snd (observe self s))) = trace_calls (out s)
    /\ (0 <= fst (_pixels self) -> 0 <= snd (_pixels self) -> e = TypeError).
Proof.
  intros Hroot. unfold observe, bind, lift, modify.
  destruct (_pixels self) as [w h]. rewrite zeros3_cases.
  destruct (Z.leb_spec 0 h), (Z.leb_spec 0 w); cbn [andb fst snd].
  - rewrite Hroot. cbn [negb fst snd].
    exists TypeError. unfold ConfigurationError. destruct s; auto 6.
  - exists ValueError. unfold ConfigurationError.
    repeat split; auto; intros; lia.
  - exists ValueError. unfold ConfigurationError.
    repeat split; auto; intros; lia.
  - exists ValueError. unfold ConfigurationError.
    repeat split; auto; intros; lia.
Qed.

End Attachment.

(** C4 at a camera that is its own root. *)
Lemma observe_requires_world_witness :
  let self :=
    Sample.float_camera None (2, 2) (PyInt 40) 1 2
                        (PyFloat 375%float) (PyFloat 740%float) RootOther in
  let s0 := mkState (C := Sample.float_world None) [] [] 0 0%float
                    (PyInt 0) 0 0%nat 0%float [] in
  isinstance_World (root self) = false
  /\ fst (observe self s0) = Raise TypeError
  /\ trace_calls (out (snd (observe self s0))) = [].
Proof.
  intros self s0.
  assert (Hroot : isinstance_World (root self) = false) by reflexivity.
  split; [exact Hroot|].
  destruct (observe_requires_world self s0 Hroot)
    as [e [He [_ [_ [Ht Hty]]]]].
  rewrite He, Ht. split; [|reflexivity].
  f_equal. apply Hty; simpl; lia.
Defined.

(** ** Frames are reset by each invocation *)

(** Runs the monad's plumbing and the state's setters and getters, leaving
    the collaborators' calls and the loops in place. *)
Ltac step_state :=
  lazy beta iota zeta delta
    [bind lift modify now display print gets ret
     set_frame set_xyz_frame set_ray_count set_progress_timer
     set_display_timer set_lower_index set_world set_clock set_out
     frame xyz_frame ray_count progress_timer display_timer lower_index
     world clock out outcome scene_of fst snd andb negb].

Section Reset.
Context {T : Type} `{Arith T} {C : Collab T}.

(** The loop assigns [lower_index] before it reads it. *)
Lemma render_loop_lower_index (self : PinholeCamera) ip ts tp tw tb rl
      f x rc pt dt li li' w c o :
  render_loop self ip ts tp tw tb rl (mkState f x rc pt dt li w c o)
  = render_loop self ip ts tp tw tb rl (mkState f x rc pt dt li' w c o).
Proof.
  unfold render_loop. destruct (_pixels self) as [pw ph].
  unfold bind at 1. unfold bind at 2. reflexivity.
Qed.

(** For pixel counts that are not negative, what an invocation of
    [observe] returns and leaves (result, both frames, world, clock, output)
    is determined by the camera's settings, the world, the clock and the
    output so far: it does not depend on the frames, nor on anything else,
    that an earlier invocation left. *)
Lemma outcome_ignores_frames (self : PinholeCamera) (s s' : state) :
  0 <= fst (_pixels self) ->
  0 <= snd (_pixels self) ->
  scene_of s = scene_of s' ->
  outcome (observe self s) = outcome (observe self s')
  /\ observe self s
     = observe self
         (set_frame (zero_image (snd (_pixels self)) (fst (_pixels self)))
            (set_xyz_frame
               (zero_image (snd (_pixels self)) (fst (_pixels self))) s)).
Proof.
  intros Hw Hh Hs.
  destruct s as [f x rc pt dt li w c o],
           s' as [f' x' rc' pt' dt' li' w' c' o'].
  unfold scene_of in Hs. cbn in Hs. injection Hs as -> -> ->.
  unfold observe.
  destruct (_pixels self) as [pw ph]. cbn [fst snd] in Hw, Hh |- *.
  rewrite zeros3_cases.
  destruct (Z.leb_spec 0 ph); [|lia]. destruct (Z.leb_spec 0 pw); [|lia].
  step_state. split; [|reflexivity].
  destruct (isinstance_World (root self)); [|reflexivity].
  destruct (image_plane self) as [ip|e]; [|reflexivity].
  destruct (resample_ciexyz _ _ _) as [tb|e]; [|reflexivity].
  destruct (generate_rays self) as [rl|e]; [|reflexivity].
  destruct (time c') as [t0 c0].
  destruct (time c0) as [t1 c1].
  destruct (display_progress self).
  - destruct (time c1) as [t2 c2].
    rewrite (render_loop_lower_index _ _ _ _ _ _ _ _ _ _ _ _ li li').
    reflexivity.
  - rewrite (render_loop_lower_index _ _ _ _ _ _ _ _ _ _ _ _ li li').
    reflexivity.
Qed.

End Reset.

(** ** Ray directions *)

Section Directions.

Lemma single_pixel_plane {T : Type} `{Arith T} {C : Collab T}
      (self : PinholeCamera) :
  _pixels self = (1, 1) ->
  image_plane self = Ok (PyInt 0, PyInt 0, PyInt 0).
Proof. intros Hp. unfold image_plane. now rewrite Hp. Qed.

(** C5.  With one pixel each way the image plane degenerates to the axis
    and the camera-space direction of the pixel is exactly [(0, 0, 1)],
    whatever the field of view: in binary64, and in exact arithmetic. *)
Theorem single_pixel_on_axis
        {C : Collab float} (self : PinholeCamera (T := float))
        {CR : Collab R} (exact : PinholeCamera (T := R)) :
  _pixels self = (1, 1) ->
  _pixels exact = (1, 1) ->
  (exists ip,
      image_plane self = Ok ip
      /\ camera_direction ip 0 0 = mkVector 0%float 0%float 1%float)
  /\ (exists ip,
         image_plane exact = Ok ip
         /\ camera_direction ip 0 0 = mkVector 0%R 0%R 1%R).
Proof.
  intros Hp HpR. split.
  - eexists. split; [now apply single_pixel_plane|].
    vm_compute. reflexivity.
  - eexists. split; [now apply single_pixel_plane|].
    unfold camera_direction, normalise, lit_one.
    cbn [to_float py_sub py_mul of_Z add mul sub div sqrt R_arith vx vy vz].
    replace (IZR (0 - 0 * 0)) with 0%R by reflexivity.
    replace (0 * 0 + 0 * 0 + 1 * 1)%R with 1%R by ring.
    rewrite sqrt_1. f_equal; field.
Qed.

End Directions.

(** C5 at two cameras of one pixel, with fields of view of 40 and of 170
    degrees. *)
Lemma single_pixel_on_axis_witness :
  let self :=
    Sample.float_camera None (1, 1) (PyInt 40) 1 2
                        (PyFloat 375%float) (PyFloat 740%float) RootWorld in
  let exact :=
    Sample.real_camera (1, 1) (PyInt 170) 1 2
                       (PyFloat 375%R) (PyFloat 740%R) RootWorld in
  (_pixels self = (1, 1) /\ _pixels exact = (1, 1))
  /\ (exists ip,
         image_plane self = Ok ip
         /\ camera_direction ip 0 0 = mkVector 0%float 0%float 1%float)
  /\ (exists ip,
         image_plane exact = Ok ip
         /\ camera_direction ip 0 0 = mkVector 0%R 0%R 1%R).
Proof.
  intros self exact. split; [split; reflexivity|].
  exact (single_pixel_on_axis self exact eq_refl eq_refl).
Defined.

Section DirectionsExact.
Context {C : Collab R}.
Local Open Scope R_scope.

(** The step of the image plane for a frame of more than one pixel. *)
Definition image_delta_R (self : PinholeCamera (T := R)) : R :=
  2 * math_tan (PI / 180 * (1 / 2) * to_float (_fov self))
  / IZR (Z.max (fst (_pixels self)) (snd (_pixels self)) - 1).

Lemma to_float_py_mul_R (a b : pynum R) :
  to_float (py_mul a b) = to_float a * to_float b.
Proof. destruct a, b; simpl; try reflexivity. apply mult_IZR. Qed.

(** In exact arithmetic no conversion overflows, and the tangent has no
    NaN or infinity to report. *)
Lemma as_double_R (a : pynum R) : as_double a = Ok (to_float a).
Proof. destruct a; reflexivity. Qed.

Lemma py_mul_checked_R (a b : pynum R) :
  py_mul_checked a b = Ok (py_mul a b).
Proof. destruct a, b; reflexivity. Qed.

Lemma py_tan_R (x : R) : py_tan x = Ok (math_tan x).
Proof. reflexivity. Qed.

Lemma image_plane_R (self : PinholeCamera (T := R)) :
  (1 < Z.max (fst (_pixels self)) (snd (_pixels self)))%Z ->
  image_plane self
  = Ok (PyFloat (image_delta_R self),
        PyFloat (1 / 2 * IZR (fst (_pixels self)) * image_delta_R self),
        PyFloat (1 / 2 * IZR (snd (_pixels self)) * image_delta_R self)).
Proof.
  intros Hmax. unfold image_plane, image_delta_R.
  destruct (_pixels self) as [w h]. cbn [fst snd] in *.
  destruct (Z.ltb_spec 1 (Z.max w h)) as [_|]; [|lia].
  unfold py_truediv. cbn [py_is_zero].
  destruct (Z.eqb_spec 180 0) as [|_]; [discriminate|].
  destruct (Z.eqb_spec (Z.max w h - 1) 0) as [|_]; [lia|].
  rewrite py_mul_checked_R, py_tan_R, to_float_py_mul_R. reflexivity.
Qed.

(** In exact arithmetic the image plane is always defined. *)
Lemma image_plane_Ok_R (self : PinholeCamera (T := R)) :
  exists ip, image_plane self = Ok ip.
Proof.
  destruct (Z.ltb_spec 1 (Z.max (fst (_pixels self)) (snd (_pixels self))))
    as [Hmax|Hmax].
  - eexists. now apply image_plane_R.
  - unfold image_plane. destruct (_pixels self) as [w h]. cbn [fst snd] in *.
    destruct (Z.ltb_spec 1 (Z.max w h)); [lia|]. eexists. reflexivity.
Qed.

Lemma camera_direction_R (d sx sy : R) (x y : Z) :
  camera_direction (PyFloat d, PyFloat sx, PyFloat sy) x y
  = normalise (mkVector (sx - d * IZR x) (sy - d * IZR y) 1).
Proof. reflexivity. Qed.

(** The first component of a normalised vector [(a, b, 1)]. *)
Lemma normalise_vx (a b : R) :
  vx (normalise (mkVector a b 1)) = a / R_sqrt.sqrt (a * a + b * b + 1 * 1).
Proof. reflexivity. Qed.

(** [t / R_sqrt.sqrt (t^2 + c)] grows with [t]. *)
Lemma normalised_component_increasing (a b c : R) :
  0 <= a -> a < b -> 0 < c ->
  a / R_sqrt.sqrt (a * a + c) < b / R_sqrt.sqrt (b * b + c).
Proof.
  intros Ha Hab Hc.
  assert (Hpa : 0 < a * a + c) by nra.
  assert (Hpb : 0 < b * b + c) by nra.
  pose proof (sqrt_lt_R0 _ Hpa) as Hsa.
  pose proof (sqrt_lt_R0 _ Hpb) as Hsb.
  pose proof (sqrt_sqrt (a * a + c) (Rlt_le _ _ Hpa)) as Ea.
  pose proof (sqrt_sqrt (b * b + c) (Rlt_le _ _ Hpb)) as Eb.
  set (sa := R_sqrt.sqrt (a * a + c)) in *. set (sb := R_sqrt.sqrt (b * b + c)) in *.
  apply Rmult_lt_reg_r with (r := sa * sb); [nra|].
  replace (a / sa * (sa * sb)) with (a * sb) by (field; lra).
  replace (b / sb * (sa * sb)) with (b * sa) by (field; lra).
  destruct (Rlt_le_dec (a * sb) (b * sa)) as [Hlt|Hge]; [exact Hlt|].
  exfalso.
  assert (Hsq : (b * sa) * (b * sa) <= (a * sb) * (a * sb)).
  { apply Rmult_le_compat; nra. }
  replace ((b * sa) * (b * sa)) with (b * b * (sa * sa)) in Hsq by ring.
  replace ((a * sb) * (a * sb)) with (a * a * (sb * sb)) in Hsq by ring.
  rewrite Ea, Eb in Hsq.
  assert (Hab2 : a * a < b * b) by nra.
  assert (0 < (b * b - a * a) * c) by (apply Rmult_lt_0_compat; lra).
  lra.
Qed.

End DirectionsExact.

Section Scan640.
Local Open Scope R_scope.

Let self : PinholeCamera (C := Sample.real_world) :=
  Sample.real_camera (640, 480)%Z (PyInt 40) 1 20
                     (PyFloat 375) (PyFloat 740) RootWorld.

Lemma scan_delta_pos : 0 < image_delta_R self.
Proof.
  unfold image_delta_R. cbn.
  assert (Ht : 0 < tan (PI / 180 * (1 / 2) * 40)).
  { pose proof PI_RGT_0. apply tan_gt_0; lra. }
  apply Rdiv_lt_0_compat; lra.
Qed.

(** The first component of the direction of pixel [(x, 0)], by the
    horizontal offset [320 - x] in steps of the image plane. *)
Lemma scan_vx (x : Z) :
  let d := image_delta_R self in
  let a := (320 - IZR x) * d in
  vx (camera_direction
        (PyFloat d, PyFloat (1 / 2 * IZR 640 * d),
         PyFloat (1 / 2 * IZR 480 * d)) x 0)
  = a / R_sqrt.sqrt (a * a + ((240 * d) * (240 * d) + 1)).
Proof.
  cbv zeta. rewrite camera_direction_R, normalise_vx.
  f_equal; [lra|]. f_equal. lra.
Qed.

(** C6 on the code, at [fov=40], [pixels=(640,480)].  The scan is not
    centred: the first components of pixels [(0,0)] and [(639,0)] have
    opposite signs but different magnitudes (320 against 319 steps of the
    image plane before normalisation), the column on the axis is 320, and
    the mirror image of column 639 is column 1. *)
Theorem scan_is_off_centre :
  exists ip,
    image_plane self = Ok ip
    /\ 0 < vx (camera_direction ip 0 0)
    /\ vx (camera_direction ip 639 0) < 0
    /\ - vx (camera_direction ip 639 0) < vx (camera_direction ip 0 0)
    /\ vx (camera_direction ip 320 0) = 0
    /\ vx (camera_direction ip 1 0) = - vx (camera_direction ip 639 0).
Proof.
  eexists. split.
  { apply image_plane_R. cbn. lia. }
  cbn [fst snd _pixels self Sample.real_camera].
  pose proof scan_delta_pos as Hd.
  pose proof (scan_vx 0) as E0. pose proof (scan_vx 1) as E1.
  pose proof (scan_vx 320) as E320. pose proof (scan_vx 639) as E639.
  cbv zeta in E0, E1, E320, E639.
  cbn [fst snd _pixels self Sample.real_camera] in E0, E1, E320, E639.
  rewrite E0, E1, E320, E639. clear E0 E1 E320 E639.
  set (d := image_delta_R self) in *.
  set (c := (240 * d) * (240 * d) + 1).
  assert (Hc : 0 < c) by (unfold c; nra).
  assert (Hmono : (320 - 1) * d / R_sqrt.sqrt ((320 - 1) * d * ((320 - 1) * d) + c)
                  < (320 - 0) * d / R_sqrt.sqrt ((320 - 0) * d * ((320 - 0) * d) + c)).
  { apply normalised_component_increasing; nra. }
  assert (Hs0 : 0 < R_sqrt.sqrt ((320 - 0) * d * ((320 - 0) * d) + c)).
  { apply sqrt_lt_R0. nra. }
  assert (Hs1 : 0 < R_sqrt.sqrt ((320 - 1) * d * ((320 - 1) * d) + c)).
  { apply sqrt_lt_R0. nra. }
  assert (E : (320 - 639) * d / R_sqrt.sqrt ((320 - 639) * d * ((320 - 639) * d) + c)
              = - ((320 - 1) * d / R_sqrt.sqrt ((320 - 1) * d * ((320 - 1) * d) + c))).
  { replace ((320 - 639) * d * ((320 - 639) * d))
      with ((320 - 1) * d * ((320 - 1) * d)) by ring.
    field. lra. }
  rewrite E.
  assert (H1 : 0 < (320 - 1) * d / R_sqrt.sqrt ((320 - 1) * d * ((320 - 1) * d) + c)).
  { apply Rdiv_lt_0_compat; nra. }
  repeat split.
  - apply Rdiv_lt_0_compat; nra.
  - lra.
  - lra.
  - replace ((320 - 320) * d) with 0 by ring. unfold Rdiv. ring.
  - lra.
Qed.

End Scan640.

(** ** numpy slices and images *)

Section NumpyFacts.
Context {T : Type} `{Arith T}.

Lemma np_bound_range (len i : Z) :
  0 <= len -> 0 <= np_bound len i <= len.
Proof. intros Hl. unfold np_bound. destruct (Z.ltb_spec i 0); lia. Qed.

(** An assignment to a slice keeps the length of the array. *)
Lemma slice_assign_length (a : list T) (lo hi : Z) (v r : list T) :
  slice_assign a lo hi v = Ok r -> length r = length a.
Proof.
  unfold slice_assign.
  pose proof (@np_bound_range (Z.of_nat (length a)) lo (Nat2Z.is_nonneg _)).
  pose proof (@np_bound_range (Z.of_nat (length a)) hi (Nat2Z.is_nonneg _)).
  set (l := np_bound (Z.of_nat (length a)) lo) in *.
  set (h := Z.max l (np_bound (Z.of_nat (length a)) hi)) in *.
  assert (Hh : l <= h <= Z.of_nat (length a)) by (unfold h; lia).
  destruct (Nat.eqb_spec (length v) (Z.to_nat (h - l))) as [E|_].
  - intros R. injection R as <-.
    rewrite !length_app, length_firstn, length_skipn, E. lia.
  - destruct v as [|b [|c v']]; try discriminate.
    intros R. injection R as <-.
    rewrite !length_app, length_firstn, length_skipn, repeat_length. lia.
Qed.

(** Assigning to the whole array, [a[:] = v]. *)
Lemma slice_assign_full (a v : list T) :
  slice_assign a 0 (Z.of_nat (length a)) v
  = if Nat.eqb (length v) (length a) then Ok v
    else match v with
         | [b] => Ok (repeat b (length a))
         | _ => Raise ValueError
         end.
Proof.
  unfold slice_assign, np_bound.
  destruct (Z.ltb_spec (Z.of_nat (length a)) 0) as [|_]; [lia|].
  cbn [Z.ltb Z.compare].
  replace (Z.min 0 (Z.of_nat (length a))) with 0 by lia.
  replace (Z.max 0 (Z.min (Z.of_nat (length a)) (Z.of_nat (length a))))
    with (Z.of_nat (length a)) by lia.
  rewrite Z.sub_0_r, Nat2Z.id. cbn [Z.to_nat firstn app].
  rewrite skipn_all, app_nil_r.
  destruct (Nat.eqb (length v) (length a)); [reflexivity|].
  destruct v as [|b [|c v']]; try reflexivity. now rewrite app_nil_r.
Qed.

Lemma zeros_cases (n : Z) :
  zeros (T := T) n
  = if 0 <=? n then Ok (repeat (of_Z 0) (Z.to_nat n)) else Raise ValueError.
Proof.
  unfold zeros. destruct (Z.ltb_spec n 0), (Z.leb_spec 0 n);
    try reflexivity; lia.
Qed.

End NumpyFacts.

(** ** The debug light *)

Section LightFacts.
Context {T : Type} `{Arith T} {C : Collab T}.

(** [evaluate_surface], with the slice assignment resolved. *)
Lemma evaluate_surface_cases (self : Light) (ray : Ray.t T)
      (normal : Vector T) (to_local : AffineMatrix) :
  let n := Z.to_nat (Ray.num_samples ray) in
  let lo := Ray.min_wavelength ray in
  let hi := Ray.max_wavelength ray in
  evaluate_surface self ray normal to_local
  = if 0 <=? Ray.num_samples ray then
      if py_neb (intensity self) (PyFloat (of_Z 0)) then
        match diffuse_intensity self normal to_local with
        | Raise e => Raise e
        | Ok d =>
            let emitted := map (mul d) (emission self ray) in
            if Nat.eqb (length emitted) n then Ok (Spectrum.make lo hi emitted)
            else match emitted with
                 | [b] => Ok (Spectrum.make lo hi (repeat b n))
                 | _ => Raise ValueError
                 end
        end
      else Ok (Spectrum.make lo hi (repeat (of_Z 0) n))
    else Raise ValueError.
Proof.
  cbv zeta. unfold evaluate_surface, Spectrum_new.
  rewrite zeros_cases.
  destruct (0 <=? Ray.num_samples ray); [|reflexivity].
  destruct (py_neb (intensity self) (PyFloat (of_Z 0))); [|reflexivity].
  destruct (diffuse_intensity self normal to_local) as [d|e]; [|reflexivity].
  cbn [Spectrum.samples]. rewrite slice_assign_full.
  fold (emission self ray).
  rewrite repeat_length.
  destruct (Nat.eqb _ _); [reflexivity|].
  destruct (map _ _) as [|b [|c l]]; reflexivity.
Qed.

(** The returned spectrum has the sample count the ray asks for. *)
Lemma evaluate_surface_sample_count (self : Light) (ray : Ray.t T)
      (normal : Vector T) (to_local : AffineMatrix) (s : Spectrum.t T) :
  evaluate_surface self ray normal to_local = Ok s ->
  length (Spectrum.samples s) = Z.to_nat (Ray.num_samples ray).
Proof.
  rewrite evaluate_surface_cases. cbv zeta.
  destruct (0 <=? Ray.num_samples ray); [|discriminate].
  destruct (py_neb _ _).
  - destruct (diffuse_intensity self normal to_local) as [d|e]; [|discriminate].
    destruct (Nat.eqb_spec (length (map (mul d) (emission self ray)))
               (Z.to_nat (Ray.num_samples ray))) as [E|_].
    + intros R. injection R as <-. exact E.
    + destruct (map _ _) as [|b [|c l]]; try discriminate.
      intros R. injection R as <-. apply repeat_length.
  - intros R. injection R as <-. apply repeat_length.
Qed.

(** The product of line 65 fails in one case only, the one of
    [intensity_overflows]; otherwise it is the product of the two numbers
    in the arithmetic at hand.  (Zero is not an infinity in either
    arithmetic.) *)
Lemma diffuse_intensity_cases (self : Light) (normal : Vector T)
      (to_local : AffineMatrix) :
  is_inf (of_Z 0) = false ->
  diffuse_intensity self normal to_local
  = if intensity_overflows self normal to_local then Raise OverflowError
    else Ok (to_float (py_mul (intensity self)
                              (facing self normal to_local))).
Proof.
  intros Hzero. unfold diffuse_intensity, intensity_overflows.
  fold (facing self normal to_local).
  assert (Hf : (exists g, facing self normal to_local = PyFloat g)
               \/ facing self normal to_local = PyInt 0).
  { unfold facing, py_max. destruct (py_gtb _ _); [left; eexists|right];
      reflexivity. }
  destruct Hf as [[g ->]| ->]; destruct (intensity self) as [z|f];
    cbn [py_mul_checked as_double py_mul to_float].
  - destruct (is_inf (of_Z z)); reflexivity.
  - reflexivity.
  - now rewrite Z.mul_0_r, Hzero.
  - now rewrite Hzero.
Qed.

End LightFacts.

Section LightExact.
Context {C : Collab R}.
Local Open Scope R_scope.

Lemma Reqb_spec (a b : R) : reflect (a = b) (Reqb a b).
Proof. unfold Reqb. destruct (Req_dec_T a b); constructor; assumption. Qed.

Lemma Rltb_spec (a b : R) : reflect (a < b) (Rltb a b).
Proof. unfold Rltb. destruct (Rlt_dec a b); constructor; assumption. Qed.

Lemma to_float_py_max0_R (a : pynum R) :
  to_float (py_max (PyInt 0) a) = Rmax 0 (to_float a).
Proof.
  unfold py_max, py_gtb, py_ltb. destruct a as [z|f]; cbn [to_float of_Z R_arith ltb].
  - destruct (Z.ltb_spec 0 z) as [Hz|Hz]; cbn [to_float of_Z R_arith].
    + rewrite Rmax_right; [reflexivity|]. apply IZR_le. lia.
    + rewrite Rmax_left; [reflexivity|]. apply IZR_le. lia.
  - destruct (Rltb_spec 0 f) as [Hf|Hf]; cbn [to_float of_Z R_arith].
    + rewrite Rmax_right; [reflexivity | lra].
    + rewrite Rmax_left; [reflexivity | lra].
Qed.

Lemma py_neb_zero_R (a : pynum R) :
  py_neb a (PyFloat (of_Z 0)) = negb (Reqb (to_float a) 0).
Proof. destruct a; reflexivity. Qed.

(** In exact arithmetic no intensity overflows. *)
Lemma intensity_overflows_R (self : Light) (normal : Vector R)
      (to_local : AffineMatrix) :
  intensity_overflows self normal to_local = false.
Proof.
  unfold intensity_overflows.
  destruct (intensity self), (facing self normal to_local); reflexivity.
Qed.

(** The debug light in exact arithmetic.  The constructor stores
    [max(0, intensity)].  For a ray that asks for [n >= 0] samples and a
    spectrum that returns that many, [evaluate_surface] returns a spectrum
    of [n] samples, each the product of the stored intensity, of
    [max(0, -light_direction_local . normal)] and of the emission sample;
    they are all zero when the intensity is, and none is negative when no
    emission sample is. *)
Lemma light_exact
      (d65_white : SpectralFunction) (direction : Vector R)
      (intensity0 : pynum R) (sp : option SpectralFunction)
      (ray : Ray.t R) (normal : Vector R) (to_local : AffineMatrix) :
  let self := Light_init d65_white direction intensity0 sp in
  let n := Z.to_nat (Ray.num_samples ray) in
  let k := to_float (intensity self) in
  let m := Rmax 0 (- dot (vector_transform (light_direction self) to_local)
                         normal) in
  (0 <= Ray.num_samples ray)%Z ->
  length (emission self ray) = n ->
  intensity self = py_max (PyInt 0) intensity0
  /\ k = Rmax 0 (to_float intensity0)
  /\ exists s,
      evaluate_surface self ray normal to_local = Ok s
      /\ length (Spectrum.samples s) = n
      /\ Spectrum.samples s = map (fun e => k * m * e) (emission self ray)
      /\ (k = 0 -> Spectrum.samples s = repeat 0 n)
      /\ ((forall e, In e (emission self ray) -> 0 <= e) ->
          forall x, In x (Spectrum.samples s) -> 0 <= x).
Proof.
  intros self n k m Hn Hlen.
  assert (Hk : k = Rmax 0 (to_float intensity0)).
  { unfold k, self. cbn [intensity Light_init]. apply to_float_py_max0_R. }
  assert (Hk0 : 0 <= k) by (rewrite Hk; apply Rmax_l).
  assert (Hm0 : 0 <= m) by apply Rmax_l.
  split; [reflexivity|]. split; [exact Hk|].
  assert (Hd : to_float (py_mul (intensity self) (facing self normal to_local))
               = k * m).
  { rewrite to_float_py_mul_R. unfold facing. rewrite to_float_py_max0_R.
    reflexivity. }
  assert (Hzero : k = 0 -> map (fun e => k * m * e) (emission self ray)
                           = repeat 0 n).
  { intros E. rewrite <- Hlen. clear Hlen.
    induction (emission self ray) as [|e l IH]; [reflexivity|].
    cbn [map length repeat]. rewrite IH. f_equal. rewrite E. ring. }
  assert (Hpos : (forall e, In e (emission self ray) -> 0 <= e) ->
                 forall x, In x (map (fun e => k * m * e) (emission self ray))
                           -> 0 <= x).
  { intros He x Hx. apply in_map_iff in Hx. destruct Hx as [e [<- Hin]].
    specialize (He e Hin).
    apply Rmult_le_pos; [apply Rmult_le_pos|]; assumption. }
  rewrite evaluate_surface_cases. cbv zeta.
  destruct (Z.leb_spec 0 (Ray.num_samples ray)) as [_|]; [|lia].
  rewrite py_neb_zero_R. fold k.
  assert (Hz : is_inf (of_Z (T := R) 0) = false) by reflexivity.
  rewrite (diffuse_intensity_cases self normal to_local Hz).
  rewrite intensity_overflows_R, Hd.
  destruct (Reqb_spec k 0) as [E|E]; cbn [negb].
  - eexists. split; [reflexivity|]. cbn [Spectrum.samples of_Z R_arith].
    split; [apply repeat_length|].
    split; [symmetry; exact (Hzero E)|].
    split; [reflexivity|].
    intros He x Hx. apply repeat_spec in Hx. lra.
  - change (map (mul (k * m)) (emission self ray))
      with (map (fun e => k * m * e) (emission self ray)).
    rewrite length_map, Hlen. fold n. rewrite Nat.eqb_refl.
    eexists. split; [reflexivity|]. cbn [Spectrum.samples].
    rewrite length_map. repeat split; auto.
Qed.

End LightExact.

Section LightContract.
Context {C : Collab float} {CR : Collab R}.

(** C10, as amended.  The constructor stores [max(0, intensity)].  For a
    ray that asks for [n >= 0] samples and a spectrum that returns that
    many:

    in binary64, [evaluate_surface] raises OverflowError when the stored
    intensity is not zero and is an [int] beyond the range of a double that
    meets a surface facing the light; in every other case it returns a
    spectrum of [n] samples, which are zeros when the intensity is zero and
    otherwise the floating-point products of [intensity * max(0,
    -light_direction_local . normal)] with the emission samples;

    in exact arithmetic it returns a spectrum of [n] samples, each the
    product of the stored intensity, of [max(0, -light_direction_local .
    normal)] and of the emission sample; they are all zero when the
    intensity is, and none is negative when no emission sample is. *)
Theorem light_evaluate_surface
        (d65_white : SpectralFunction (T := float)) (direction : Vector float)
        (intensity0 : pynum float) (sp : option SpectralFunction)
        (ray : Ray.t float) (normal : Vector float)
        (to_local : AffineMatrix (T := float))
        (d65_white' : SpectralFunction (T := R)) (direction' : Vector R)
        (intensity0' : pynum R) (sp' : option SpectralFunction)
        (ray' : Ray.t R) (normal' : Vector R)
        (to_local' : AffineMatrix (T := R)) :
  let self := Light_init d65_white direction intensity0 sp in
  let n := Z.to_nat (Ray.num_samples ray) in
  let lit := py_neb (intensity self) (PyFloat 0%float) in
  let exact := Light_init d65_white' direction' intensity0' sp' in
  let n' := Z.to_nat (Ray.num_samples ray') in
  let k := to_float (intensity exact) in
  let m := Rmax 0 (- dot (vector_transform (light_direction exact) to_local')
                         normal') in
  0 <= Ray.num_samples ray ->
  length (emission self ray) = n ->
  0 <= Ray.num_samples ray' ->
  length (emission exact ray') = n' ->
  (intensity self = py_max (PyInt 0) intensity0
   /\ evaluate_surface self ray normal to_local
      = (if lit && intensity_overflows self normal to_local
         then Raise OverflowError
         else Ok (Spectrum.make
                    (Ray.min_wavelength ray) (Ray.max_wavelength ray)
                    (if lit
                     then map (PrimFloat.mul
                                 (to_float
                                    (py_mul (intensity self)
                                            (facing self normal to_local))))
                              (emission self ray)
                     else repeat 0%float n)))
   /\ forall s,
       evaluate_surface self ray normal to_local = Ok s ->
       length (Spectrum.samples s) = n)
  /\ (intensity exact = py_max (PyInt 0) intensity0'
      /\ k = Rmax 0 (to_float intensity0')
      /\ exists s,
          evaluate_surface exact ray' normal' to_local' = Ok s
          /\ length (Spectrum.samples s) = n'
          /\ Spectrum.samples s
             = map (fun e => (k * m * e)%R) (emission exact ray')
          /\ (k = 0%R -> Spectrum.samples s = repeat 0%R n')
          /\ ((forall e, In e (emission exact ray') -> (0 <= e)%R) ->
              forall x, In x (Spectrum.samples s) -> (0 <= x)%R)).
Proof.
  intros self n lit exact n' k m Hn Hlen Hn' Hlen'. split.
  - split; [reflexivity|]. split.
    + rewrite evaluate_surface_cases. cbv zeta.
      destruct (Z.leb_spec 0 (Ray.num_samples ray)) as [_|]; [|lia].
      change (py_neb (intensity self) (PyFloat (of_Z 0))) with lit.
      destruct lit; [|reflexivity]. cbn [andb].
      assert (Hz : is_inf (of_Z (T := float) 0) = false) by reflexivity.
      rewrite (diffuse_intensity_cases self normal to_local Hz).
      destruct (intensity_overflows self normal to_local); [reflexivity|].
      rewrite length_map, Hlen. fold n. now rewrite Nat.eqb_refl.
    + intros s. apply evaluate_surface_sample_count.
  - exact (light_exact d65_white' direction' intensity0' sp' ray' normal'
                       to_local' Hn' Hlen').
Qed.

End LightContract.

(** C10 at a light of intensity 2 shining down the axis on a surface that
    faces it, with a flat spectrum and a ray of three samples, in binary64
    and in exact arithmetic. *)
Lemma light_evaluate_surface_witness :
  let flat : SpectralFunction (T := float) :=
    fun _ _ n => repeat 1%float (Z.to_nat n) in
  let self :=
    Light_init flat (mkVector 0%float 0%float (-1)%float)
               (PyFloat 2%float) None in
  let ray :=
    Ray.new 375%float 740%float 3 15 (mkPoint 0%float 0%float 0%float)
            (mkVector 0%float 0%float 1%float) in
  let flat' : SpectralFunction (T := R) :=
    fun _ _ n => repeat 1%R (Z.to_nat n) in
  let exact :=
    Light_init flat' (mkVector 0%R 0%R (-1)%R) (PyFloat 2%R) None in
  let ray' :=
    Ray.new 375%R 740%R 3 15 (mkPoint 0%R 0%R 0%R)
            (mkVector 0%R 0%R 1%R) in
  (0 <= Ray.num_samples ray
   /\ length (emission self ray) = Z.to_nat (Ray.num_samples ray)
   /\ 0 <= Ray.num_samples ray'
   /\ length (emission exact ray') = Z.to_nat (Ray.num_samples ray'))
  /\ evaluate_surface (C := Sample.float_world None) self ray
                      (mkVector 0%float 0%float 1%float) tt
     = Ok (Spectrum.make 375%float 740%float [2%float; 2%float; 2%float])
  /\ exists s,
      evaluate_surface (C := Sample.real_world) exact ray'
                       (mkVector 0%R 0%R 1%R) tt = Ok s
      /\ length (Spectrum.samples s) = 3%nat
      /\ forall x, In x (Spectrum.samples s) -> (0 <= x)%R.
Proof.
  intros flat self ray flat' exact ray'.
  assert (Hn : 0 <= Ray.num_samples ray) by (simpl; lia).
  assert (Hl : length (emission self ray) = Z.to_nat (Ray.num_samples ray))
    by reflexivity.
  assert (Hn' : 0 <= Ray.num_samples ray') by (simpl; lia).
  assert (Hl' : length (emission exact ray') = Z.to_nat (Ray.num_samples ray'))
    by reflexivity.
  split; [auto|].
  destruct (light_evaluate_surface
              (C := Sample.float_world None) (CR := Sample.real_world)
              flat (mkVector 0%float 0%float (-1)%float) (PyFloat 2%float)
              None ray (mkVector 0%float 0%float 1%float) tt
              flat' (mkVector 0%R 0%R (-1)%R) (PyFloat 2%R) None ray'
              (mkVector 0%R 0%R 1%R) tt Hn Hl Hn' Hl')
    as [[_ [E _]] [_ [_ [s [Es [Hlen [_ [_ Hpos]]]]]]]].
  split.
  - etransitivity; [exact E|]. vm_compute. reflexivity.
  - exists s. split; [exact Es|]. split; [exact Hlen|].
    apply Hpos. intros e He. apply repeat_spec in He. rewrite He. lra.
Defined.

(** C10 as stated fails in binary64.  A light of infinite intensity on a
    surface that faces away from it returns NaN samples for an emission
    spectrum of ones ([inf * 0] is NaN); and a light whose intensity is the
    int [10**400] raises OverflowError on a surface that faces it, where
    the statement promises a spectrum. *)
Lemma light_samples_can_be_nan :
  let flat : SpectralFunction (T := float) :=
    fun _ _ n => repeat 1%float (Z.to_nat n) in
  let down := mkVector 0%float 0%float (-1)%float in
  let up := mkVector 0%float 0%float 1%float in
  let ray :=
    Ray.new 375%float 740%float 3 15 (mkPoint 0%float 0%float 0%float) up in
  let glare := Light_init flat down (PyFloat infinity) None in
  let huge := Light_init flat down (PyInt (10 ^ 400)) None in
  (forall e, In e (emission glare ray) -> PrimFloat.leb 0%float e = true)
  /\ intensity glare = PyFloat infinity
  /\ facing (C := Sample.float_world None) glare down tt = PyInt 0
  /\ evaluate_surface (C := Sample.float_world None) glare ray down tt
     = Ok (Spectrum.make 375%float 740%float [nan; nan; nan])
  /\ PrimFloat.leb 0%float nan = false
  /\ intensity huge = PyInt (10 ^ 400)
  /\ evaluate_surface (C := Sample.float_world None) huge ray up tt
     = Raise OverflowError.
Proof.
  cbv zeta. split.
  { intros e He. apply repeat_spec in He. now subst e. }
  repeat split; vm_compute; reflexivity.
Qed.

(** ** The loop, step by step *)

Section LoopFacts.
Context {T : Type} `{Arith T} {C : Collab T}.

Lemma bind_ext {A B} (m : M A) (k k' : A -> M B) (s : state) :
  (forall a s', k a s' = k' a s') -> bind m k s = bind m k' s.
Proof.
  intros E. unfold bind. destruct (m s) as [[a|e] s']; [apply E | reflexivity].
Qed.

Lemma bind_run {A B} (m : M A) (k : A -> M B) (s : state) :
  bind m k s
  = match m s with
    | (Ok a, s') => k a s'
    | (Raise e, s') => (Raise e, s')
    end.
Proof. reflexivity. Qed.

Lemma bind_assoc {A B D} (m : M A) (k : A -> M B) (k' : B -> M D) (s : state) :
  bind (bind m k) k' s = bind m (fun a => bind (k a) k') s.
Proof. unfold bind. destruct (m s) as [[a|e] s']; reflexivity. Qed.

Lemma for_each_ext {A} (l : list A) (body body' : A -> M unit) :
  (forall a s, body a s = body' a s) ->
  forall s, for_each l body s = for_each l body' s.
Proof.
  intros E. induction l as [|a l IH]; intros s; [reflexivity|].
  cbn [for_each]. unfold bind. rewrite E.
  destruct (body' a s) as [[[]|e] s']; [apply IH | reflexivity].
Qed.

Lemma for_each_app {A} (l1 l2 : list A) (body : A -> M unit) (s : state) :
  for_each (l1 ++ l2) body s
  = (for_each l1 body ;;; for_each l2 body) s.
Proof.
  revert s. induction l1 as [|a l1 IH]; intros s; [reflexivity|].
  cbn [app for_each]. rewrite bind_assoc. apply bind_ext. intros _ s'. apply IH.
Qed.

Lemma for_each_map {A B} (f : A -> B) (l : list A) (body : B -> M unit)
      (s : state) :
  for_each (map f l) body s = for_each l (fun a => body (f a)) s.
Proof.
  revert s. induction l as [|a l IH]; intros s; [reflexivity|].
  cbn [map for_each]. apply bind_ext. intros _ s'. apply IH.
Qed.

Lemma for_each_flat_map {A B} (f : A -> list B) (l : list A)
      (body : B -> M unit) (s : state) :
  for_each (flat_map f l) body s
  = for_each l (fun a => for_each (f a) body) s.
Proof.
  revert s. induction l as [|a l IH]; intros s; [reflexivity|].
  cbn [flat_map for_each]. rewrite for_each_app.
  apply bind_ext. intros _ s'. apply IH.
Qed.

(** A loop stops at the first step that raises, with the state that step
    leaves. *)
Lemma for_each_raises {A} (done rest : list A) (a : A) (body : A -> M unit)
      (s0 s1 s2 : state) (e : exn) :
  for_each done body s0 = (Ok tt, s1) ->
  body a s1 = (Raise e, s2) ->
  for_each (done ++ a :: rest) body s0 = (Raise e, s2).
Proof.
  intros Hdone Hbody. rewrite for_each_app. unfold bind at 1.
  rewrite Hdone. cbn [for_each]. unfold bind. now rewrite Hbody.
Qed.

(** The nested loops take the steps of [render_items] in order. *)
Lemma render_loop_items (self : PinholeCamera) (g : setting) (s : state) :
  render self g s
  = (modify (set_lower_index 0) ;;;
     for_each (render_items self (s_rays g)) (do_item self g)) s.
Proof.
  unfold render, render_loop, render_items.
  destruct (_pixels self) as [w h] eqn:Hp.
  apply bind_ext. intros _ s'.
  rewrite for_each_flat_map. apply for_each_ext.
  intros [index ray] s1. unfold channel_items. rewrite Hp. cbn [fst snd].
  rewrite for_each_app. unfold bind.
  rewrite for_each_map. unfold raster. rewrite for_each_flat_map.
  rewrite (for_each_ext (range h)
             (fun y => for_each (map (pair y) (range w))
                         (fun yx => do_item self g
                                      (Pixel index ray (fst yx) (snd yx))))
             (fun y => for_each (range w)
                         (fun x => pixel_body self (s_plane g)
                                     (s_total_samples g) (s_total_pixels g)
                                     (s_total_work g) (s_table g)
                                     (Z.of_nat (length (s_rays g))) index ray
                                     (spectral_samples self * (index + 1))
                                     y x))).
  - destruct (for_each (range h) _ s1) as [[[]|e] s2]; reflexivity.
  - intros y s2. now rewrite for_each_map.
Qed.

(** [observe] is its three phases in sequence. *)
Lemma observe_phases (self : PinholeCamera) (s : state) :
  observe self s
  = (g <- setup self ;; render self g ;;; finish self (s_start_time g)) s.
Proof.
  unfold observe, setup, finish, render.
  destruct (_pixels self) as [w h].
  destruct s as [f x rc pt dt li wd c o].
  step_state.
  destruct (zeros3 h w) as [z|e]; [|reflexivity].
  destruct (isinstance_World (root self)); [|reflexivity].
  destruct (image_plane self) as [ip|e]; [|reflexivity].
  destruct (resample_ciexyz _ _ _) as [tb|e]; [|reflexivity].
  destruct (generate_rays self) as [rl|e]; [|reflexivity].
  destruct (time c) as [t0 c0].
  destruct (time c0) as [t1 c1].
  destruct (display_progress self).
  - destruct (time c1) as [t2 c2]. reflexivity.
  - reflexivity.
Qed.

(** An exception of the loop is the exception of [observe], with the state
    the loop leaves: nothing of [observe] runs after it. *)
Lemma observe_raises (self : PinholeCamera) (s s0 s2 : state) (g : setting)
      (e : exn) :
  setup self s = (Ok g, s0) ->
  render self g s0 = (Raise e, s2) ->
  observe self s = (Raise e, s2).
Proof.
  intros Hs Hr. rewrite observe_phases. unfold bind.
  now rewrite Hs, Hr.
Qed.

End LoopFacts.

(** ** What the reporting code can touch *)

Create HintDb reporting.

Section Reporting.
Context {T : Type} `{Arith T} {C : Collab T}.

Lemma trace_calls_app (l1 l2 : list (@event T)) :
  trace_calls (l1 ++ l2) = trace_calls l1 ++ trace_calls l2.
Proof.
  induction l1 as [|ev l1 IH]; [reflexivity|].
  destruct ev; cbn [app trace_calls]; rewrite IH; reflexivity.
Qed.

Lemma writes_nothing_ret {A} (a : A) : writes_nothing (ret a).
Proof.
  intros s. cbn. repeat split. exists []. now rewrite app_nil_r.
Qed.

Lemma writes_nothing_lift {A} (r : res A) : writes_nothing (lift r).
Proof.
  intros s. cbn. repeat split. exists []. now rewrite app_nil_r.
Qed.

Lemma writes_nothing_gets {A} (f : state -> A) : writes_nothing (gets f).
Proof.
  intros s. cbn. repeat split. exists []. now rewrite app_nil_r.
Qed.

Lemma writes_nothing_now : writes_nothing now.
Proof.
  intros s. unfold now. destruct (time (clock s)) as [t c]. cbn.
  repeat split. exists []. now rewrite app_nil_r.
Qed.

Lemma writes_nothing_print (ev : @event T) :
  trace_calls [ev] = [] -> writes_nothing (print ev).
Proof.
  intros Hev s. cbn. repeat split. exists [ev]. auto.
Qed.

Lemma writes_nothing_display : writes_nothing display.
Proof.
  intros s. cbn. repeat split. eexists. split; reflexivity.
Qed.

Lemma writes_nothing_set_ray_count (v : Z) :
  writes_nothing (modify (set_ray_count v)).
Proof.
  intros s. cbn. repeat split. exists []. now rewrite app_nil_r.
Qed.

Lemma writes_nothing_set_progress_timer (v : T) :
  writes_nothing (modify (set_progress_timer v)).
Proof.
  intros s. cbn. repeat split. exists []. now rewrite app_nil_r.
Qed.

Lemma writes_nothing_set_display_timer (v : pynum T) :
  writes_nothing (modify (set_display_timer v)).
Proof.
  intros s. cbn. repeat split. exists []. now rewrite app_nil_r.
Qed.

Lemma writes_nothing_bind {A B} (m : M A) (k : A -> M B) :
  writes_nothing m -> (forall a, writes_nothing (k a)) ->
  writes_nothing (bind m k).
Proof.
  intros Hm Hk s. unfold bind.
  destruct (Hm s) as [Hf [Hx [Hw [Hl [evs [Ho Ht]]]]]].
  destruct (m s) as [[a|e] s1]; cbn [snd] in *.
  - destruct (Hk a s1) as [Hf' [Hx' [Hw' [Hl' [evs' [Ho' Ht']]]]]].
    rewrite Hf', Hx', Hw', Hl', Ho', Ho. repeat split; auto.
    exists (evs ++ evs'). rewrite app_assoc, trace_calls_app, Ht, Ht'. auto.
  - repeat split; auto. exists evs. auto.
Qed.

Hint Resolve writes_nothing_ret writes_nothing_lift writes_nothing_gets
     writes_nothing_now writes_nothing_print writes_nothing_display
     writes_nothing_set_ray_count writes_nothing_set_progress_timer
     writes_nothing_set_display_timer : reporting.

Lemma progress_report_writes_nothing (self : PinholeCamera)
      (total_pixels total_work channels index y x : Z) :
  writes_nothing
    (progress_report self total_pixels total_work channels index y x).
Proof.
  unfold progress_report. destruct (_pixels self) as [w h].
  apply writes_nothing_bind; [auto with reporting|]. intros t.
  apply writes_nothing_bind; [auto with reporting|]. intros pt.
  destruct (ltb (of_Z 1) (sub t pt)); [|auto with reporting].
  repeat (apply writes_nothing_bind; [auto with reporting|]; intros ?).
  auto with reporting.
Qed.

Lemma display_refresh_writes_nothing (self : PinholeCamera) :
  writes_nothing (display_refresh self).
Proof.
  unfold display_refresh.
  destruct (display_progress self); [|auto with reporting].
  apply writes_nothing_bind; [auto with reporting|]. intros t.
  apply writes_nothing_bind; [auto with reporting|]. intros dtm.
  destruct (py_gtb _ _); [|auto with reporting].
  repeat (apply writes_nothing_bind; [auto with reporting|]; intros ?).
  auto with reporting.
Qed.

End Reporting.

(** ** Reading and writing pixels *)

Section ImageFacts.
Context {T : Type} `{Arith T}.

Lemma set_nth_length {A} (l : list A) (n : nat) (a : A) :
  length (set_nth l n a) = length l.
Proof.
  revert n. induction l as [|b l IH]; intros [|n]; cbn; auto.
Qed.

Lemma nth_set_nth_same {A} (l : list A) (n : nat) (a d : A) :
  (n < length l)%nat -> nth n (set_nth l n a) d = a.
Proof.
  revert n. induction l as [|b l IH]; intros [|n] Hn; cbn in *;
    try lia; auto. apply IH. lia.
Qed.

Lemma nth_set_nth_other {A} (l : list A) (n m : nat) (a d : A) :
  m <> n -> nth m (set_nth l n a) d = nth m l d.
Proof.
  revert n m. induction l as [|b l IH]; intros [|n] [|m] Hm; cbn;
    try reflexivity; try congruence.
  apply IH. congruence.
Qed.

Lemma np_index_Ok (len : nat) (i : Z) (j : nat) :
  np_index (Z.of_nat len) i = Ok j -> (j < len)%nat.
Proof.
  unfold np_index.
  destruct (Z.ltb_spec i 0);
    match goal with
    | |- context [(0 <=? ?a) && (?a <? ?b)] =>
        destruct (Z.leb_spec 0 a), (Z.ltb_spec a b)
    end; cbn; intros E; inversion E; lia.
Qed.

(** An index computed by [range] is itself. *)
Lemma np_index_range (len : nat) (i : nat) :
  (i < len)%nat -> np_index (Z.of_nat len) (Z.of_nat i) = Ok i.
Proof.
  intros Hi. unfold np_index.
  destruct (Z.ltb_spec (Z.of_nat i) 0); [lia|].
  destruct (Z.leb_spec 0 (Z.of_nat i)); [|lia].
  destruct (Z.ltb_spec (Z.of_nat i) (Z.of_nat len)); [|lia].
  cbn. now rewrite Nat2Z.id.
Qed.

Lemma image_get_cases (a : image T) (y x : Z) :
  image_get a y x
  = match np_index (Z.of_nat (length a)) y with
    | Raise e => Raise e
    | Ok j =>
        match np_index (Z.of_nat (length (nth j a []))) x with
        | Raise e => Raise e
        | Ok i => Ok (pixel_at a j i)
        end
    end.
Proof. reflexivity. Qed.

Lemma image_set_cases (a : image T) (y x : Z) (p : pixel T) :
  image_set a y x p
  = match np_index (Z.of_nat (length a)) y with
    | Raise e => Raise e
    | Ok j =>
        match np_index (Z.of_nat (length (nth j a []))) x with
        | Raise e => Raise e
        | Ok i => Ok (image_put a j i p)
        end
    end.
Proof. reflexivity. Qed.

Lemma shape_image_put (a : image T) (j i : nat) (p : pixel T) :
  shape (image_put a j i p) = shape a.
Proof.
  unfold shape, image_put. revert j.
  induction a as [|row a IH]; intros [|j]; cbn; try reflexivity.
  - now rewrite set_nth_length.
  - f_equal. apply IH.
Qed.

Lemma shape_row_length (a b : image T) (j : nat) :
  shape a = shape b -> length (nth j a []) = length (nth j b []).
Proof.
  unfold shape. revert b j.
  induction a as [|ra a IH]; intros [|rb b] j E; cbn in E; try discriminate.
  - reflexivity.
  - injection E as E1 E2. destruct j; cbn; auto.
Qed.

Lemma shape_length (a b : image T) :
  shape a = shape b -> length a = length b.
Proof.
  intros E. apply (f_equal (@length nat)) in E.
  unfold shape in E. now rewrite !length_map in E.
Qed.

Lemma pixel_at_put_same (a : image T) (j i : nat) (p : pixel T) :
  (j < length a)%nat -> (i < length (nth j a []))%nat ->
  pixel_at (image_put a j i p) j i = p.
Proof.
  intros Hj Hi. unfold pixel_at, image_put.
  rewrite nth_set_nth_same by exact Hj. now apply nth_set_nth_same.
Qed.

Lemma pixel_at_put_other (a : image T) (j i j' i' : nat) (p : pixel T) :
  (j', i') <> (j, i) ->
  pixel_at (image_put a j i p) j' i' = pixel_at a j' i'.
Proof.
  intros Hne. unfold pixel_at, image_put.
  destruct (Nat.eq_dec j' j) as [->|Hj].
  - destruct (Nat.lt_ge_cases j (length a)) as [Hl|Hl].
    + rewrite nth_set_nth_same by exact Hl.
      apply nth_set_nth_other. congruence.
    + assert (E : forall l : image T, (length l <= j)%nat ->
                                      nth j l [] = []).
      { intros l. apply nth_overflow. }
      rewrite !E; [reflexivity | exact Hl | now rewrite set_nth_length].
  - now rewrite nth_set_nth_other by exact Hj.
Qed.

End ImageFacts.

(** ** One pixel *)

Section PixelFacts.
Context {T : Type} `{Arith T} {C : Collab T}.

(** [m] keeps the property [I] of the state, whether it returns or raises. *)
Definition keeps {A} (I : state -> Prop) (m : M A) : Prop :=
  forall s, I s -> I (snd (m s)).

Lemma keeps_bind {A B} (I : state -> Prop) (m : M A) (k : A -> M B) :
  keeps I m -> (forall a, keeps I (k a)) -> keeps I (bind m k).
Proof.
  intros Hm Hk s Hs. unfold bind. specialize (Hm s Hs).
  destruct (m s) as [[a|e] s1]; cbn [snd] in *; [now apply Hk | exact Hm].
Qed.

Lemma keeps_for_each {A} (I : state -> Prop) (l : list A)
      (body : A -> M unit) :
  (forall a, In a l -> keeps I (body a)) -> keeps I (for_each l body).
Proof.
  induction l as [|a l IH]; intros Hb; cbn [for_each].
  - intros s Hs. exact Hs.
  - apply keeps_bind; [apply Hb; now left|].
    intros _. apply IH. intros b Hin. apply Hb. now right.
Qed.

(** A property of the two frames is kept by what writes nothing. *)
Lemma keeps_of_writes_nothing {A} (P : image T -> image T -> Prop) (m : M A) :
  writes_nothing m -> keeps (fun s => P (frame s) (xyz_frame s)) m.
Proof.
  intros Hm s Hs. destruct (Hm s) as [Hf [Hx _]]. now rewrite Hf, Hx.
Qed.

(** The tracer's exception is the exception of the pixel, raised with both
    frames as they were. *)
Lemma sample_pixel_trace_raises (self : PinholeCamera) (g : setting)
      (ray : Ray.t T) (upper_index y x : Z) (s : state) (e : exn) :
  is_Ok (Spectrum_new (to_float (min_wavelength self))
                      (to_float (max_wavelength self))
                      (s_total_samples g)) = true ->
  snd (ray_trace (aimed self g ray y x) (world s)) = Raise e ->
  sample_pixel self (s_plane g) (s_total_samples g) (s_table g) ray
               upper_index y x s
  = (Raise e,
     set_world (fst (ray_trace (aimed self g ray y x) (world s)))
               (set_out (out s ++ [trace_call (aimed self g ray y x)]) s)).
Proof.
  intros Hsp Htr. unfold sample_pixel, bind, lift, trace.
  destruct (Spectrum_new _ _ _) as [sp|e']; [|discriminate].
  fold (aimed self g ray y x).
  destruct (ray_trace (aimed self g ray y x) (world s)) as [w' r].
  cbn [fst snd] in *. now rewrite Htr.
Qed.

(** Writing an accumulated pixel and its colour mapping at one place
    keeps the display consistent. *)
Lemma display_consistent_put (s s' : state) (j i : nat) (acc : pixel T) :
  display_consistent s ->
  (j < length (xyz_frame s))%nat ->
  (i < length (nth j (xyz_frame s) []))%nat ->
  xyz_frame s' = image_put (xyz_frame s) j i acc ->
  frame s'
  = image_put (frame s) j i
              (ciexyz_to_srgb (fst (fst acc)) (snd (fst acc)) (snd acc)) ->
  display_consistent s'.
Proof.
  intros [Hshape Hval] Hj Hi Ex Ef. split.
  - now rewrite Ex, Ef, !shape_image_put.
  - intros j' i'. rewrite Ex, Ef.
    destruct (Nat.eq_dec j' j) as [->|Hne].
    + destruct (Nat.eq_dec i' i) as [->|Hne].
      * right. rewrite !pixel_at_put_same; try assumption.
        -- reflexivity.
        -- now rewrite (shape_length _ _ Hshape).
        -- now rewrite (shape_row_length _ _ j Hshape).
      * rewrite !pixel_at_put_other by congruence. apply Hval.
    + rewrite !pixel_at_put_other by congruence. apply Hval.
Qed.

Lemma sample_pixel_display_consistent (self : PinholeCamera)
      (ip : pynum T * pynum T * pynum T) (total_samples : Z) (tb : Table)
      (ray : Ray.t T) (upper_index y x : Z) :
  keeps display_consistent
        (sample_pixel self ip total_samples tb ray upper_index y x).
Proof.
  intros s Hs. pose proof Hs as [Hshape Hval].
  unfold sample_pixel, bind, lift, trace, gets, modify.
  destruct (Spectrum_new _ _ _) as [sp|e]; [|exact Hs].
  destruct (ray_trace _ (world s)) as [w' [[sample n]|e]]; [|exact Hs].
  cbn [lower_index set_world set_out frame xyz_frame].
  destruct (slice_assign _ _ _ _) as [samples|e]; [|exact Hs].
  cbn [set_world set_out set_ray_count frame xyz_frame].
  rewrite image_get_cases.
  destruct (np_index (Z.of_nat (length (xyz_frame s))) y) as [j|e] eqn:Ej;
    [|exact Hs].
  destruct (np_index (Z.of_nat (length (nth j (xyz_frame s) []))) x)
    as [i|e] eqn:Ei; [|exact Hs].
  rewrite image_set_cases, Ej, Ei.
  cbn [set_world set_out set_ray_count set_xyz_frame frame xyz_frame].
  rewrite image_set_cases.
  rewrite (shape_length _ _ Hshape), Ej, (shape_row_length _ _ j Hshape), Ei.
  cbn [snd].
  eapply display_consistent_put;
    [exact Hs | eapply np_index_Ok; exact Ej | eapply np_index_Ok; exact Ei
     | reflexivity | reflexivity].
Qed.

Lemma pixel_body_display_consistent (self : PinholeCamera)
      (ip : pynum T * pynum T * pynum T)
      (total_samples total_pixels total_work : Z) (tb : Table)
      (channels index : Z) (ray : Ray.t T) (upper_index y x : Z) :
  keeps display_consistent
        (pixel_body self ip total_samples total_pixels total_work tb
                    channels index ray upper_index y x).
Proof.
  unfold pixel_body. apply keeps_bind.
  - apply (keeps_of_writes_nothing shows).
    apply progress_report_writes_nothing.
  - intros _. apply keeps_bind; [apply sample_pixel_display_consistent|].
    intros _.
    apply (keeps_of_writes_nothing shows).
    apply display_refresh_writes_nothing.
Qed.

Lemma do_item_display_consistent (self : PinholeCamera) (g : setting)
      (it : item) :
  keeps display_consistent (do_item self g it).
Proof.
  destruct it as [index ray y x|index]; cbn [do_item].
  - apply pixel_body_display_consistent.
  - intros s Hs. exact Hs.
Qed.

End PixelFacts.

(** ** The phases of [observe] *)

Section PhaseFacts.
Context {T : Type} `{Arith T} {C : Collab T}.

Lemma pixel_at_zero_image (h w : Z) (j i : nat) :
  pixel_at (zero_image (T := T) h w) j i = zero_pixel.
Proof.
  unfold pixel_at, zero_image. generalize (Z.to_nat h). intros n.
  assert (Hrow : forall m k, nth k (repeat (zero_pixel (T := T)) m) zero_pixel
                             = zero_pixel).
  { induction m as [|m IHm]; intros [|k]; cbn; auto. }
  revert j. induction n as [|n IH]; intros j; cbn [repeat].
  - destruct j, i; reflexivity.
  - destruct j as [|j]; cbn [nth]; [apply Hrow | apply IH].
Qed.

Lemma zero_images_show (h w : Z) :
  shows (zero_image (T := T) h w) (zero_image h w).
Proof.
  split; [reflexivity|]. intros j i. left.
  split; apply pixel_at_zero_image.
Qed.

(** What a successful [setup] has done and found. *)
Lemma setup_Ok (self : PinholeCamera) (s s0 : state) (g : setting) :
  setup self s = (Ok g, s0) ->
  let w := fst (_pixels self) in
  let h := snd (_pixels self) in
  frame s0 = zero_image h w
  /\ xyz_frame s0 = zero_image h w
  /\ 0 <= h /\ 0 <= w
  /\ isinstance_World (root self) = true
  /\ image_plane self = Ok (s_plane g)
  /\ resample_ciexyz (to_float (min_wavelength self))
                     (to_float (max_wavelength self))
                     (rays self * spectral_samples self) = Ok (s_table g)
  /\ generate_rays self = Ok (s_rays g)
  /\ s_total_samples g = rays self * spectral_samples self
  /\ s_total_pixels g = w * h
  /\ s_total_work g = w * h * rays self
  /\ world s0 = world s
  /\ trace_calls (out s0) = trace_calls (out s).
Proof.
  unfold setup. destruct (_pixels self) as [w h]. cbn [fst snd].
  destruct s as [f x rc pt dt li wd c o].
  rewrite zeros3_cases.
  destruct (Z.leb_spec 0 h) as [Hh|]; [|step_state; discriminate].
  destruct (Z.leb_spec 0 w) as [Hw|]; [|step_state; discriminate].
  step_state.
  destruct (isinstance_World (root self)); [|discriminate].
  destruct (image_plane self) as [ip|e]; [|discriminate].
  destruct (resample_ciexyz _ _ _) as [tb|e]; [|discriminate].
  destruct (generate_rays self) as [rl|e]; [|discriminate].
  destruct (time c) as [t0 c0].
  destruct (time c0) as [t1 c1].
  destruct (display_progress self).
  - destruct (time c1) as [t2 c2]. intros E. injection E as <- <-.
    cbn. rewrite trace_calls_app, app_nil_r. repeat split; auto.
  - intros E. injection E as <- <-. cbn. repeat split; auto.
Qed.

End PhaseFacts.

(** ** A failing tracer *)

Section Abort.
Context {C : Collab float}.

(** C8, as amended.  Let the pixels before pixel [(x, y)] of channel [index]
    have been processed, leaving the state [s1], and let the tracer raise
    [e] at that pixel.  Then [observe] raises [e]; it stops there, the call
    of the tracer being the last thing it did; both frames are exactly as
    the pixels processed before left them; and the display frame still
    shows the accumulated frame, pixel by pixel: each display pixel is the
    colour mapping of the accumulated pixel, or both are the zeros of the
    reset.  So a display pixel holds a NaN only where the colour mapping of
    the accumulated pixel does. *)
Theorem tracer_error_aborts
        (self : PinholeCamera) (s s0 s1 : state) (g : setting)
        (done rest : list item) (index : Z) (ray : Ray.t float) (y x : Z)
        (e : exn) :
  setup self s = (Ok g, s0) ->
  render_items self (s_rays g) = done ++ Pixel index ray y x :: rest ->
  for_each done (do_item self g) (set_lower_index 0 s0) = (Ok tt, s1) ->
  tracer_raises self g index ray y x s1 e ->
  exists s2,
    observe self s = (Raise e, s2)
    /\ frame s2 = frame s1
    /\ xyz_frame s2 = xyz_frame s1
    /\ (exists evs,
           out s2 = out s1 ++ evs ++ [trace_call (aimed self g ray y x)]
           /\ trace_calls evs = [])
    /\ display_consistent s2
    /\ forall j i,
        valid_pixel (ciexyz_to_srgb (fst (fst (pixel_at (xyz_frame s2) j i)))
                                    (snd (fst (pixel_at (xyz_frame s2) j i)))
                                    (snd (pixel_at (xyz_frame s2) j i))) ->
        valid_pixel (pixel_at (frame s2) j i).
Proof.
  intros Hsetup Hitems Hdone [Hreport [Hsp Htrace]].
  (* the state the failing pixel is entered in shows a consistent display *)
  assert (Hs1 : display_consistent s1).
  { change s1 with (snd (Ok tt, s1)). rewrite <- Hdone.
    apply keeps_for_each.
    - intros it _. apply do_item_display_consistent.
    - destruct (setup_Ok _ _ Hsetup) as [Ef [Ex _]].
      unfold display_consistent. cbn [set_lower_index frame xyz_frame].
      rewrite Ef, Ex. apply zero_images_show. }
  (* the statistics line writes nothing *)
  set (report := progress_report self (s_total_pixels g) (s_total_work g)
                   (Z.of_nat (length (s_rays g))) index y x) in *.
  destruct (progress_report_writes_nothing self (s_total_pixels g)
              (s_total_work g) (Z.of_nat (length (s_rays g))) index y x s1)
    as [Ef [Ex [Ew [_ [evs [Eo Et]]]]]].
  fold report in Ef, Ex, Ew, Eo.
  destruct (report s1) as [r s1'] eqn:Er. cbn [fst snd] in *. subst r.
  (* the pixel raises, and so does everything around it *)
  assert (Hpixel : do_item self g (Pixel index ray y x) s1
                   = (Raise e,
                      set_world
                        (fst (ray_trace (aimed self g ray y x) (world s1')))
                        (set_out (out s1'
                                  ++ [trace_call (aimed self g ray y x)])
                                 s1'))).
  { cbn [do_item]. unfold pixel_body. unfold bind at 1. fold report.
    rewrite Er. unfold bind at 1.
    rewrite sample_pixel_trace_raises with (e := e);
      [reflexivity | exact Hsp | now rewrite Ew]. }
  eexists. split.
  { eapply observe_raises; [exact Hsetup|].
    rewrite render_loop_items. unfold bind at 1. cbn [modify].
    rewrite Hitems. eapply for_each_raises; [exact Hdone | exact Hpixel]. }
  cbn [set_world set_out frame xyz_frame out].
  split; [exact Ef|]. split; [exact Ex|].
  split.
  { exists evs. rewrite Eo, <- app_assoc. auto. }
  assert (Hs2 : shows (frame s1') (xyz_frame s1')).
  { rewrite Ef, Ex. exact Hs1. }
  split; [exact Hs2|].
  intros j i Hvalid. destruct Hs2 as [_ Hval].
  destruct (Hval j i) as [[_ ->]| ->]; [|exact Hvalid].
  repeat split.
Qed.

End Abort.

(** C8 at a frame of two pixels and one channel of two samples, with a
    tracer that returns a radiance of 2 and raises at its second call: the
    first pixel keeps what was written, the second is still zero, and the
    failing call of the tracer is the last entry of the output. *)
Lemma tracer_error_aborts_witness :
  let self :=
    Sample.float_camera (Some 1%nat) (2, 1) (PyInt 40) 1 2
                        (PyFloat 375%float) (PyFloat 740%float) RootWorld in
  let s := mkState (C := Sample.float_world (Some 1%nat)) [] [] 0 0%float
                   (PyInt 0) 0 0%nat 0%float [] in
  exists g s0 s1 ray,
    (setup self s = (Ok g, s0)
     /\ render_items self (s_rays g)
        = [Pixel 0 ray 0 0] ++ Pixel 0 ray 0 1 :: [EndChannel 0]
     /\ for_each [Pixel 0 ray 0 0] (do_item self g) (set_lower_index 0 s0)
        = (Ok tt, s1)
     /\ tracer_raises self g 0 ray 0 1 s1 (Raised 7))
    /\ exists s2,
        observe self s = (Raise (Raised 7), s2)
        /\ frame s2 = [[(4%float, 4%float, 4%float);
                        (0%float, 0%float, 0%float)]]
        /\ xyz_frame s2 = [[(4%float, 4%float, 4%float);
                            (0%float, 0%float, 0%float)]]
        /\ (exists evs,
               out s2 = out s1 ++ evs ++ [trace_call (aimed self g ray 0 1)]
               /\ trace_calls evs = [])
        /\ display_consistent s2
        /\ forall j i, valid_pixel (pixel_at (frame s2) j i).
Proof.
  intros self s.
  let r := eval vm_compute in (setup self s) in
  match r with
  | (Ok ?g, ?s0) =>
      let its := eval vm_compute in (render_items self (s_rays g)) in
      match its with
      | Pixel _ ?ray _ _ :: _ =>
          let r1 := eval vm_compute in
                    (for_each [Pixel 0 ray 0 0] (do_item self g)
                              (set_lower_index 0 s0)) in
          match r1 with
          | (_, ?s1) => exists g, s0, s1, ray
          end
      end
  end.
  match goal with
  | |- (?h1 /\ ?h2 /\ ?h3 /\ ?h4) /\ _ =>
      assert (H1 : h1) by (vm_compute; reflexivity);
      assert (H2 : h2) by (vm_compute; reflexivity);
      assert (H3 : h3) by (vm_compute; reflexivity);
      assert (H4 : h4) by (repeat split; vm_compute; reflexivity)
  end.
  split; [auto|].
  destruct (@tracer_error_aborts _ _ _ _ _ _ _ _ _ _ _ _ _ H1 H2 H3 H4)
    as [s2 [Ho [Ef [Ex [Hout [Hshow Hvalid]]]]]].
  exists s2.
  assert (Ex' : xyz_frame s2 = [[(4%float, 4%float, 4%float);
                                 (0%float, 0%float, 0%float)]])
    by (rewrite Ex; reflexivity).
  split; [exact Ho|]. split; [rewrite Ef; reflexivity|].
  split; [exact Ex'|]. split; [exact Hout|]. split; [exact Hshow|].
  intros j i. refine (Hvalid j i _). rewrite Ex'.
  destruct j as [|j]; [destruct i as [|[|[|i]]] | destruct j, i];
    repeat split.
Defined.

(** C8 as stated fails in binary64 in its last part.  The tracer returns
    the largest finite double for the first pixel and raises at the second;
    the two samples of the first pixel add up to an infinity, which a
    colour mapping with coefficients of both signs turns into a NaN: the
    display frame that the failed render leaves holds [(nan, inf, inf)] at
    a pixel that was processed without a failure. *)
Lemma finite_radiance_leaves_nan :
  let bright := 0x1.fffffffffffffp+1023%float in
  let W := Sample.mixing_world bright (Some 1%nat) in
  let self :=
    mkCamera (C := W) (2, 1) (PyInt 40) 1 2
             (PyFloat 375%float) (PyFloat 740%float) 15 true
             (PyFloat 10%float) RootWorld tt in
  let s := mkState (C := W) [] [] 0 0%float (PyInt 0) 0 0%nat 0%float [] in
  (PrimFloat.is_nan bright = false /\ PrimFloat.is_infinity bright = false)
  /\ (forall r : Ray.t float,
         snd (ray_trace (Collab := W) r 0%nat)
         = Ok (repeat bright (Z.to_nat (Ray.num_samples r)), 1))
  /\ fst (observe self s) = Raise (Raised 7)
  /\ length (trace_calls (out (snd (observe self s)))) = 2%nat
  /\ pixel_at (frame (snd (observe self s))) 0 0 = (nan, infinity, infinity)
  /\ PrimFloat.is_nan (fst (fst (pixel_at (frame (snd (observe self s))) 0 0)))
     = true.
Proof.
  cbv zeta. split; [split; reflexivity|]. split; [reflexivity|].
  repeat split; vm_compute; reflexivity.
Qed.

(** ** Accumulation *)

Section Nonnegative.
Context {C : Collab R}.
Local Open Scope R_scope.

Lemma in_firstn {A} (n : nat) (l : list A) (x : A) :
  In x (firstn n l) -> In x l.
Proof.
  intros Hx. rewrite <- (firstn_skipn n l). apply in_or_app. now left.
Qed.

Lemma in_skipn {A} (n : nat) (l : list A) (x : A) :
  In x (skipn n l) -> In x l.
Proof.
  intros Hx. rewrite <- (firstn_skipn n l). apply in_or_app. now right.
Qed.

Lemma slice_assign_In (a : list R) (lo hi : Z) (v r : list R) (x : R) :
  slice_assign a lo hi v = Ok r -> In x r -> In x a \/ In x v.
Proof.
  unfold slice_assign.
  destruct (Nat.eqb _ _).
  - intros E. injection E as <-. intros Hx.
    apply in_app_or in Hx. destruct Hx as [Hx|Hx].
    + left. eapply in_firstn; eauto.
    + apply in_app_or in Hx. destruct Hx as [Hx|Hx]; [now right|].
      left. eapply in_skipn; eauto.
  - destruct v as [|b [|c v']]; try discriminate.
    intros E. injection E as <-. intros Hx.
    apply in_app_or in Hx. destruct Hx as [Hx|Hx].
    + left. eapply in_firstn; eauto.
    + apply in_app_or in Hx. destruct Hx as [Hx|Hx].
      * apply repeat_spec in Hx. subst x. right. now left.
      * left. eapply in_skipn; eauto.
Qed.

Lemma nonneg_zero_pixel : nonneg_pixel zero_pixel.
Proof. unfold nonneg_pixel, zero_pixel. cbn. lra. Qed.

Lemma nonneg_pixel_add (p q : pixel R) :
  nonneg_pixel p -> nonneg_pixel q -> nonneg_pixel (pixel_add p q).
Proof.
  unfold nonneg_pixel, pixel_add. cbn. intros [? [? ?]] [? [? ?]].
  repeat split; lra.
Qed.

Lemma nonneg_image_put (a : image R) (j i : nat) (p : pixel R) :
  nonneg_image a -> nonneg_pixel p -> nonneg_image (image_put a j i p).
Proof.
  intros Ha Hp j' i'.
  destruct (Nat.eq_dec j' j) as [->|Hj].
  - destruct (Nat.eq_dec i' i) as [->|Hi].
    + destruct (Nat.lt_ge_cases j (length a)) as [Hl|Hl].
      * destruct (Nat.lt_ge_cases i (length (nth j a []))) as [Hl'|Hl'].
        -- now rewrite pixel_at_put_same.
        -- unfold pixel_at, image_put.
           rewrite nth_set_nth_same by exact Hl.
           rewrite nth_overflow; [apply nonneg_zero_pixel|].
           now rewrite set_nth_length.
      * unfold pixel_at, image_put.
        rewrite (nth_overflow (set_nth a j _));
          [|now rewrite set_nth_length].
        destruct i; apply nonneg_zero_pixel.
    + rewrite pixel_at_put_other by congruence. apply Ha.
  - rewrite pixel_at_put_other by congruence. apply Ha.
Qed.

Lemma sample_pixel_nonneg (self : PinholeCamera)
      (ip : pynum R * pynum R * pynum R) (total_samples : Z) (tb : Table)
      (ray : Ray.t R) (upper_index y x : Z) :
  tracer_nonneg -> ciexyz_nonneg ->
  keeps (fun s => nonneg_image (xyz_frame s))
        (sample_pixel self ip total_samples tb ray upper_index y x).
Proof.
  intros Htr Hxyz s Hs.
  unfold sample_pixel, bind, lift, trace, gets, modify.
  unfold Spectrum_new. rewrite zeros_cases.
  destruct (0 <=? total_samples)%Z; [|exact Hs].
  pose proof (Htr (Ray.set_direction
                     (Ray.set_origin ray
                        (point_transform
                           (mkPoint (of_Z 0) (of_Z 0) (of_Z 0))
                           (to_root self)))
                     (vector_transform (camera_direction ip x y)
                        (to_root self))) (world s)) as Hsample.
  destruct (ray_trace _ (world s)) as [w' [[sample n]|e]]; [|exact Hs].
  cbn [snd] in Hsample. specialize (Hsample sample n eq_refl).
  cbn [lower_index set_world set_out frame xyz_frame Spectrum.samples].
  destruct (slice_assign _ _ _ _) as [samples|e] eqn:Eslice; [|exact Hs].
  cbn [set_world set_out set_ray_count frame xyz_frame].
  rewrite image_get_cases.
  destruct (np_index (Z.of_nat (length (xyz_frame s))) y) as [j|e] eqn:Ej;
    [|exact Hs].
  destruct (np_index (Z.of_nat (length (nth j (xyz_frame s) []))) x)
    as [i|e] eqn:Ei; [|exact Hs].
  rewrite image_set_cases, Ej, Ei.
  cbn [set_world set_out set_ray_count set_xyz_frame frame xyz_frame].
  assert (Hacc : nonneg_image
                   (image_put (xyz_frame s) j i
                      (pixel_add (pixel_at (xyz_frame s) j i)
                         (spectrum_to_ciexyz
                            (Spectrum.set_samples
                               (Spectrum.make
                                  (to_float (min_wavelength self))
                                  (to_float (max_wavelength self))
                                  (repeat (of_Z 0) (Z.to_nat total_samples)))
                               samples) tb)))).
  { apply nonneg_image_put; [exact Hs|].
    apply nonneg_pixel_add; [apply Hs|].
    apply Hxyz. cbn [Spectrum.samples Spectrum.set_samples].
    intros v Hv.
    destruct (@slice_assign_In _ _ _ _ _ _ Eslice Hv) as [Hz|Hin].
    - apply repeat_spec in Hz. subst v. cbn. lra.
    - now apply Hsample. }
  destruct (image_set _ _ _ _) as [f'|e]; exact Hacc.
Qed.

End Nonnegative.

Section PhaseInvariants.
Context {T : Type} `{Arith T} {C : Collab T}.

(** Whatever [setup] returns, it has reset both frames (for pixel counts
    that are not negative). *)
Lemma setup_resets (self : PinholeCamera) (s : state) :
  0 <= fst (_pixels self) -> 0 <= snd (_pixels self) ->
  frame (snd (setup self s))
  = zero_image (snd (_pixels self)) (fst (_pixels self))
  /\ xyz_frame (snd (setup self s))
     = zero_image (snd (_pixels self)) (fst (_pixels self)).
Proof.
  unfold setup. destruct (_pixels self) as [w h]. cbn [fst snd].
  intros Hw Hh. destruct s as [f x rc pt dt li wd c o].
  rewrite zeros3_cases.
  destruct (Z.leb_spec 0 h); [|lia]. destruct (Z.leb_spec 0 w); [|lia].
  step_state.
  destruct (isinstance_World (root self)); [|split; reflexivity].
  destruct (image_plane self) as [ip|e]; [|split; reflexivity].
  destruct (resample_ciexyz _ _ _) as [tb|e]; [|split; reflexivity].
  destruct (generate_rays self) as [rl|e]; [|split; reflexivity].
  destruct (time c) as [t0 c0].
  destruct (time c0) as [t1 c1].
  destruct (display_progress self).
  - destruct (time c1) as [t2 c2]. split; reflexivity.
  - split; reflexivity.
Qed.

Lemma finish_writes_nothing (self : PinholeCamera) (start_time : T) :
  writes_nothing (finish self start_time).
Proof.
  unfold finish.
  apply writes_nothing_bind; [apply writes_nothing_now|]. intros t.
  apply writes_nothing_bind; [now apply writes_nothing_print|]. intros _.
  destruct (display_progress self);
    [apply writes_nothing_display | apply writes_nothing_ret].
Qed.

(** A property of the two frames that every pixel keeps is kept by the
    loop. *)
Lemma render_keeps (P : image T -> image T -> Prop) (self : PinholeCamera)
      (g : setting) :
  (forall it, keeps (fun s => P (frame s) (xyz_frame s)) (do_item self g it)) ->
  keeps (fun s => P (frame s) (xyz_frame s)) (render self g).
Proof.
  intros Hit s Hs. rewrite render_loop_items.
  refine (@keeps_bind _ _ _ _ (fun s => P (frame s) (xyz_frame s))
                      _ _ _ _ s Hs).
  - intros s' Hs'. exact Hs'.
  - intros _. apply keeps_for_each. intros it _. apply Hit.
Qed.

(** A property of the two frames that holds of zero frames and that every
    pixel keeps holds when [observe] is over, however it ends. *)
Lemma observe_establishes (P : image T -> image T -> Prop)
      (self : PinholeCamera) (s : state) :
  0 <= fst (_pixels self) -> 0 <= snd (_pixels self) ->
  P (zero_image (snd (_pixels self)) (fst (_pixels self)))
    (zero_image (snd (_pixels self)) (fst (_pixels self))) ->
  (forall g it,
      keeps (fun s => P (frame s) (xyz_frame s)) (do_item self g it)) ->
  P (frame (snd (observe self s))) (xyz_frame (snd (observe self s))).
Proof.
  intros Hw Hh Hzero Hit. rewrite observe_phases, bind_run.
  destruct (setup_resets self s Hw Hh) as [Ef Ex].
  destruct (setup self s) as [[g|e] s0]; cbn [snd] in *.
  - refine (@keeps_bind _ _ _ _ (fun s => P (frame s) (xyz_frame s))
                        _ _ _ _ s0 _).
    + apply render_keeps. apply Hit.
    + intros _. apply (keeps_of_writes_nothing P).
      apply finish_writes_nothing.
    + now rewrite Ef, Ex.
  - now rewrite Ef, Ex.
Qed.

End PhaseInvariants.

Section NonnegativeFrame.
Context {C : Collab R}.
Local Open Scope R_scope.

(** With a tracer and a colour matching that return nothing negative, no
    entry of the accumulated frame is negative when [observe] is over. *)
Lemma observe_nonneg (self : PinholeCamera) (s : state) :
  tracer_nonneg -> ciexyz_nonneg ->
  (0 <= fst (_pixels self))%Z -> (0 <= snd (_pixels self))%Z ->
  nonneg_image (xyz_frame (snd (observe self s))).
Proof.
  intros Htr Hxyz Hw Hh.
  apply (observe_establishes (fun _ xf => nonneg_image xf) self s Hw Hh).
  - intros j i. rewrite pixel_at_zero_image. apply nonneg_zero_pixel.
  - intros g [index ray y x|index]; cbn [do_item].
    + unfold pixel_body.
      apply keeps_bind.
      * apply (keeps_of_writes_nothing (fun _ xf => nonneg_image xf)).
        apply progress_report_writes_nothing.
      * intros _. apply keeps_bind.
        -- now apply sample_pixel_nonneg.
        -- intros _.
           apply (keeps_of_writes_nothing (fun _ xf => nonneg_image xf)).
           apply display_refresh_writes_nothing.
    + intros s' Hs'. exact Hs'.
Qed.

End NonnegativeFrame.

(** ** One pixel, in exact arithmetic *)

Section PixelExact.
Context {C : Collab R}.
Local Open Scope R_scope.

(** The statistics line cannot raise inside the loop, where the total of
    the work is not zero. *)
Lemma progress_report_Ok (self : PinholeCamera)
      (total_pixels total_work channels index y x : Z) (s : state) :
  total_work <> 0%Z ->
  fst (progress_report self total_pixels total_work channels index y x s)
  = Ok tt.
Proof.
  intros Hwork. unfold progress_report. destruct (_pixels self) as [w h].
  unfold bind, now, gets, lift, print, modify.
  destruct (time (clock s)) as [t c]. cbn [fst snd progress_timer set_clock].
  cbn [ltb R_arith]. destruct (Rltb_spec (of_Z 1) (sub t (progress_timer s)))
    as [Hdt|Hdt]; [|reflexivity].
  unfold py_truediv. cbn [py_is_zero py_mul to_float].
  destruct (Z.eqb_spec total_work 0) as [E|_]; [contradiction|].
  cbn [eqb mul sub of_Z R_arith] in *.
  match goal with
  | |- context [Reqb ?a ?b] => destruct (Reqb_spec a b) as [E|_]
  end.
  - exfalso. lra.
  - cbn [fst snd ray_count set_out set_ray_count clock set_clock].
    destruct (time c) as [t' c']. reflexivity.
Qed.

End PixelExact.

Section RefreshFacts.
Context {T : Type} `{Arith T} {C : Collab T}.

(** The display refresh cannot raise. *)
Lemma display_refresh_Ok (self : PinholeCamera) (s : state) :
  fst (display_refresh self s) = Ok tt.
Proof.
  unfold display_refresh. destruct (display_progress self); [|reflexivity].
  unfold bind, now, gets, print, display, modify.
  destruct (time (clock s)) as [t c]. cbn [fst snd display_timer set_clock].
  destruct (py_gtb _ _); [|reflexivity].
  cbn [fst snd set_out set_clock clock]. destruct (time c) as [t' c'].
  reflexivity.
Qed.

Lemma firstn_repeat {A} (a : A) (n m : nat) :
  (n <= m)%nat -> firstn n (repeat a m) = repeat a n.
Proof.
  revert m. induction n as [|n IH]; intros [|m] Hn; cbn; try lia; auto.
  f_equal. apply IH. lia.
Qed.

Lemma skipn_repeat {A} (a : A) (n m : nat) :
  skipn n (repeat a m) = repeat a (m - n).
Proof.
  revert m. induction n as [|n IH]; intros [|m]; cbn; auto.
Qed.

(** Writing [v] into the slice [lo:hi] of a zero array of length [len]. *)
Lemma slice_assign_zeros (len lo hi : Z) (v : list T) :
  0 <= lo -> lo <= hi -> hi <= len ->
  length v = Z.to_nat (hi - lo) ->
  slice_assign (repeat (of_Z 0) (Z.to_nat len)) lo hi v
  = Ok (repeat (of_Z 0) (Z.to_nat lo) ++ v
        ++ repeat (of_Z 0) (Z.to_nat (len - hi))).
Proof.
  intros Hlo Hhi Hlen Hv. unfold slice_assign, np_bound.
  rewrite repeat_length, Z2Nat.id by lia.
  destruct (Z.ltb_spec lo 0); [lia|]. destruct (Z.ltb_spec hi 0); [lia|].
  replace (Z.min lo len) with lo by lia.
  replace (Z.max lo (Z.min hi len)) with hi by lia.
  rewrite Hv, Nat.eqb_refl.
  rewrite firstn_repeat by lia. rewrite skipn_repeat.
  repeat f_equal. lia.
Qed.

End RefreshFacts.

Section ShapeFacts.
Context {T : Type} `{Arith T}.

Lemma shape_repeat_length (a : image T) (h w : nat) :
  shape a = repeat w h -> length a = h.
Proof.
  intros E. apply (f_equal (@length nat)) in E.
  unfold shape in E. now rewrite length_map, repeat_length in E.
Qed.

Lemma shape_repeat_row (a : image T) (h w j : nat) :
  shape a = repeat w h -> (j < h)%nat -> length (nth j a []) = w.
Proof.
  intros E Hj. unfold shape in E.
  assert (Hn : nth j (map (@length (pixel T)) a) 0%nat = w).
  { rewrite E. apply nth_repeat_lt. exact Hj. }
  rewrite <- Hn. change 0%nat with (length (@nil (pixel T))).
  now rewrite map_nth.
Qed.

(** Two images of one shape with the same pixels are the same image. *)
Lemma image_ext (a b : image T) (h w : nat) :
  shape a = repeat w h -> shape b = repeat w h ->
  (forall j i, (j < h)%nat -> (i < w)%nat -> pixel_at a j i = pixel_at b j i) ->
  a = b.
Proof.
  intros Ha Hb Hpix.
  pose proof Ha as La. apply shape_repeat_length in La.
  pose proof Hb as Lb. apply shape_repeat_length in Lb.
  apply nth_ext with (d := []) (d' := []); [congruence|].
  intros j Hj. rewrite La in Hj.
  pose proof (@shape_repeat_row a h w j Ha Hj) as Ra.
  pose proof (@shape_repeat_row b h w j Hb Hj) as Rb.
  apply nth_ext with (d := zero_pixel) (d' := zero_pixel); [congruence|].
  intros i Hi. rewrite Ra in Hi. now apply Hpix.
Qed.

End ShapeFacts.

(** ** One pixel of one channel with a tracer that does not fail *)

Unset Implicit Arguments.

Section PixelSuccess.
Context {C : Collab R}.

Lemma sample_pixel_Ok (self : PinholeCamera) (g : setting)
      (radiance : Ray.t R -> list R) (cost : Ray.t R -> Z)
      (index : Z) (ray : Ray.t R) (h w j i : nat) (s : state) :
  tracer_is radiance cost ->
  framed h w (spectral_samples self * index) s ->
  (j < h)%nat -> (i < w)%nat ->
  0 <= spectral_samples self -> 0 <= index ->
  spectral_samples self * (index + 1) <= s_total_samples g ->
  Ray.num_samples ray = spectral_samples self ->
  exists s',
    sample_pixel self (s_plane g) (s_total_samples g) (s_table g) ray
                 (spectral_samples self * (index + 1))
                 (Z.of_nat j) (Z.of_nat i) s = (Ok tt, s')
    /\ xyz_frame s'
       = image_put (xyz_frame s) j i
           (pixel_add (pixel_at (xyz_frame s) j i)
                      (contribution self g radiance index ray j i))
    /\ frame s'
       = image_put (frame s) j i
           (let acc := pixel_add (pixel_at (xyz_frame s) j i)
                                 (contribution self g radiance index ray j i) in
            ciexyz_to_srgb (fst (fst acc)) (snd (fst acc)) (snd acc))
    /\ lower_index s' = lower_index s.
Proof.
  intros Htr [Hf [Hx Hli]] Hj Hi Hss Hidx Htot Hnum.
  unfold sample_pixel, bind, lift, trace, gets, modify.
  unfold Spectrum_new. rewrite zeros_cases.
  assert (H0 : 0 <= spectral_samples self * index) by nia.
  destruct (Z.leb_spec 0 (s_total_samples g)); [|nia].
  fold (aimed self g ray (Z.of_nat j) (Z.of_nat i)).
  destruct (Htr (aimed self g ray (Z.of_nat j) (Z.of_nat i)) (world s))
    as [Etr Elen].
  destruct (ray_trace _ (world s)) as [w' r]. cbn [snd fst] in *. subst r.
  cbn [lower_index set_world set_out frame xyz_frame Spectrum.samples].
  rewrite Hli.
  rewrite slice_assign_zeros; try lia.
  2:{ rewrite Elen. unfold aimed.
      cbn [Ray.num_samples Ray.set_direction Ray.set_origin].
      rewrite Hnum. f_equal. lia. }
  cbn [set_world set_out set_ray_count frame xyz_frame].
  assert (Lx : length (xyz_frame s) = h)
    by (eapply shape_repeat_length; eauto).
  assert (Rx : length (nth j (xyz_frame s) []) = w)
    by (eapply shape_repeat_row; eauto).
  assert (Lf : length (frame s) = h)
    by (eapply shape_repeat_length; eauto).
  assert (Rf : length (nth j (frame s) []) = w)
    by (eapply shape_repeat_row; eauto).
  rewrite image_get_cases, Lx, np_index_range, Rx, np_index_range
    by assumption.
  rewrite image_set_cases, Lx, np_index_range, Rx, np_index_range
    by assumption.
  cbn [set_world set_out set_ray_count set_xyz_frame frame xyz_frame].
  rewrite image_set_cases, Lf, np_index_range, Rf, np_index_range
    by assumption.
  eexists. split; [reflexivity|].
  cbn [set_frame set_xyz_frame set_world set_out set_ray_count
       frame xyz_frame lower_index].
  repeat split; try reflexivity. exact Hli.
Qed.

(** The same for the whole body of the loop, with its reporting. *)
Lemma pixel_body_Ok (self : PinholeCamera) (g : setting)
      (radiance : Ray.t R -> list R) (cost : Ray.t R -> Z)
      (index : Z) (ray : Ray.t R) (h w j i : nat) (s : state) :
  tracer_is radiance cost ->
  framed h w (spectral_samples self * index) s ->
  (j < h)%nat -> (i < w)%nat ->
  0 <= spectral_samples self -> 0 <= index ->
  spectral_samples self * (index + 1) <= s_total_samples g ->
  Ray.num_samples ray = spectral_samples self ->
  s_total_work g <> 0 ->
  exists s',
    do_item self g (Pixel index ray (Z.of_nat j) (Z.of_nat i)) s = (Ok tt, s')
    /\ framed h w (spectral_samples self * index) s'
    /\ xyz_frame s'
       = image_put (xyz_frame s) j i
           (pixel_add (pixel_at (xyz_frame s) j i)
                      (contribution self g radiance index ray j i))
    /\ frame s'
       = image_put (frame s) j i
           (let acc := pixel_add (pixel_at (xyz_frame s) j i)
                                 (contribution self g radiance index ray j i) in
            ciexyz_to_srgb (fst (fst acc)) (snd (fst acc)) (snd acc)).
Proof.
  intros Htr Hfr Hj Hi Hss Hidx Htot Hnum Hwork.
  cbn [do_item]. unfold pixel_body.
  (* the statistics line *)
  rewrite bind_run.
  pose proof (progress_report_Ok self (s_total_pixels g)
                (Z.of_nat (length (s_rays g))) index (Z.of_nat j)
                (Z.of_nat i) s Hwork) as Hrep.
  destruct (progress_report_writes_nothing self (s_total_pixels g)
              (s_total_work g) (Z.of_nat (length (s_rays g))) index
              (Z.of_nat j) (Z.of_nat i) s) as [Ef [Ex [_ [El _]]]].
  destruct (progress_report _ _ _ _ _ _ _ s) as [r s1].
  cbn [fst snd] in *. subst r.
  (* the sample *)
  assert (Hfr1 : framed h w (spectral_samples self * index) s1).
  { destruct Hfr as [Hf [Hx Hl]]. unfold framed. now rewrite Ef, Ex, El. }
  destruct (sample_pixel_Ok self g radiance cost index ray h w j i s1
              Htr Hfr1 Hj Hi Hss Hidx Htot Hnum)
    as [s2 [E2 [Ex2 [Ef2 El2]]]].
  rewrite bind_run, E2.
  (* the display refresh *)
  pose proof (display_refresh_Ok self s2) as Href.
  destruct (display_refresh_writes_nothing self s2) as [Ef3 [Ex3 [_ [El3 _]]]].
  destruct (display_refresh self s2) as [r s3].
  cbn [fst snd] in *. subst r.
  exists s3. split; [reflexivity|].
  rewrite Ex3, Ef3, Ex2, Ef2, Ex, Ef.
  split; [|split; reflexivity].
  destruct Hfr1 as [Hf [Hx Hl]]. unfold framed.
  rewrite Ef3, Ex3, El3, Ef2, Ex2, El2, !shape_image_put, Ef, Ex.
  rewrite Ef in Hf. rewrite Ex in Hx. auto.
Qed.

End PixelSuccess.

(** ** One channel *)

Section RasterFacts.

Lemma NoDup_list_prod {A B} (l : list A) (l' : list B) :
  NoDup l -> NoDup l' -> NoDup (list_prod l l').
Proof.
  intros Hl Hl'. induction Hl as [|a l Ha Hl IH]; cbn [list_prod].
  - constructor.
  - apply NoDup_app.
    + apply NoDup_map_NoDup_ForallPairs; [|exact Hl'].
      intros x y _ _ E. now injection E.
    + exact IH.
    + intros [a' b] Hin Hin'. apply in_map_iff in Hin.
      destruct Hin as [b' [E _]]. injection E as <- <-.
      apply in_prod_iff in Hin'. now destruct Hin'.
Qed.

(** The raster, over natural numbers. *)
Lemma raster_nat (h w : Z) :
  raster h w
  = map (fun p => (Z.of_nat (fst p), Z.of_nat (snd p)))
        (list_prod (seq 0 (Z.to_nat h)) (seq 0 (Z.to_nat w))).
Proof.
  unfold raster, range. generalize (seq 0 (Z.to_nat h)). intros l.
  induction l as [|j l IH]; [reflexivity|].
  cbn [map flat_map list_prod]. rewrite map_app, IH. f_equal.
  rewrite !map_map. reflexivity.
Qed.

Lemma in_raster_nat (h w j i : nat) :
  In (j, i) (list_prod (seq 0 h) (seq 0 w)) <-> (j < h)%nat /\ (i < w)%nat.
Proof. rewrite in_prod_iff, !in_seq. lia. Qed.

End RasterFacts.

Section ChannelSuccess.
Context {C : Collab R}.
Variable self : PinholeCamera.
Variable g : setting.
Variable radiance : Ray.t R -> list R.
Variable cost : Ray.t R -> Z.
Variable index : Z.
Variable ray : Ray.t R.
Variables h w : nat.

Hypothesis Htr : tracer_is radiance cost.
Hypothesis Hss : 0 <= spectral_samples self.
Hypothesis Hidx : 0 <= index.
Hypothesis Htot : spectral_samples self * (index + 1) <= s_total_samples g.
Hypothesis Hnum : Ray.num_samples ray = spectral_samples self.
Hypothesis Hwork : s_total_work g <> 0.

(** The accumulated pixel and the display pixel after the channel, from
    the accumulated pixel before it. *)
Let after (old : pixel R) (j i : nat) : pixel R :=
  pixel_add old (contribution self g radiance index ray j i).

Let shown (p : pixel R) : pixel R :=
  ciexyz_to_srgb (fst (fst p)) (snd (fst p)) (snd p).

(** Pixels at distinct places of the frame, in any order: each is
    accumulated once, all others are left alone. *)
Lemma pixels_Ok (places : list (nat * nat)) :
  NoDup places ->
  (forall p, In p places -> (fst p < h)%nat /\ (snd p < w)%nat) ->
  forall s,
    framed h w (spectral_samples self * index) s ->
    exists s',
      for_each (map (fun p => Pixel index ray (Z.of_nat (fst p))
                                    (Z.of_nat (snd p))) places)
               (do_item self g) s = (Ok tt, s')
      /\ framed h w (spectral_samples self * index) s'
      /\ forall j i,
          (In (j, i) places ->
           pixel_at (xyz_frame s') j i = after (pixel_at (xyz_frame s) j i) j i
           /\ pixel_at (frame s') j i
              = shown (after (pixel_at (xyz_frame s) j i) j i))
          /\ (~ In (j, i) places ->
              pixel_at (xyz_frame s') j i = pixel_at (xyz_frame s) j i
              /\ pixel_at (frame s') j i = pixel_at (frame s) j i).
Proof.
  intros Hnd. induction Hnd as [|[j0 i0] places Hnotin Hnd IH];
    intros Hin s Hfr.
  - exists s. split; [reflexivity|]. split; [exact Hfr|].
    intros j i. split; [contradiction | auto].
  - destruct (Hin (j0, i0) (or_introl eq_refl)) as [Hj0 Hi0].
    cbn [fst snd] in Hj0, Hi0.
    destruct (pixel_body_Ok self g radiance cost index ray h w j0 i0 s
                Htr Hfr Hj0 Hi0 Hss Hidx Htot Hnum Hwork)
      as [s1 [E1 [Hfr1 [Ex1 Ef1]]]].
    destruct (IH (fun p Hp => Hin p (or_intror Hp)) s1 Hfr1)
      as [s' [E' [Hfr' Hpix]]].
    exists s'. split.
    { cbn [map for_each fst snd]. rewrite bind_run, E1. exact E'. }
    split; [exact Hfr'|].
    destruct Hfr as [Hf [Hx _]].
    assert (Lx : length (xyz_frame s) = h)
      by (eapply shape_repeat_length; eauto).
    assert (Rx : length (nth j0 (xyz_frame s) []) = w)
      by (eapply shape_repeat_row; eauto).
    assert (Lf : length (frame s) = h)
      by (eapply shape_repeat_length; eauto).
    assert (Rf : length (nth j0 (frame s) []) = w)
      by (eapply shape_repeat_row; eauto).
    intros j i. destruct (Hpix j i) as [Hyes Hno].
    destruct (Nat.eq_dec j j0) as [Ej|Ej];
      [destruct (Nat.eq_dec i i0) as [Ei|Ei]|].
    + subst j i. destruct (Hno Hnotin) as [Ex' Ef'].
      split; [|intros Hn; exfalso; apply Hn; now left].
      intros _. rewrite Ex', Ef', Ex1, Ef1.
      rewrite !pixel_at_put_same by lia. split; reflexivity.
    + assert (Hne : (j, i) <> (j0, i0)) by congruence.
      split.
      * intros [E|Hin']; [congruence|]. destruct (Hyes Hin') as [Ex' Ef'].
        rewrite Ex', Ef', Ex1. now rewrite pixel_at_put_other by exact Hne.
      * intros Hn. destruct Hno as [Ex' Ef'].
        { intros Hin'. apply Hn. now right. }
        rewrite Ex', Ef', Ex1, Ef1.
        now rewrite !pixel_at_put_other by exact Hne.
    + assert (Hne : (j, i) <> (j0, i0)) by congruence.
      split.
      * intros [E|Hin']; [congruence|]. destruct (Hyes Hin') as [Ex' Ef'].
        rewrite Ex', Ef', Ex1. now rewrite pixel_at_put_other by exact Hne.
      * intros Hn. destruct Hno as [Ex' Ef'].
        { intros Hin'. apply Hn. now right. }
        rewrite Ex', Ef', Ex1, Ef1.
        now rewrite !pixel_at_put_other by exact Hne.
Qed.

End ChannelSuccess.

Section ChannelLoop.
Context {C : Collab R}.

Lemma shape_zero_image (h w : Z) :
  shape (zero_image (T := R) h w) = repeat (Z.to_nat w) (Z.to_nat h).
Proof.
  unfold shape, zero_image. generalize (Z.to_nat h). intros n.
  induction n as [|n IH]; cbn [repeat map]; [reflexivity|].
  now rewrite IH, repeat_length.
Qed.

(** A whole channel: every pixel of the frame is accumulated once and
    displayed, and [lower_index] moves on to the next channel. *)
Lemma channel_Ok (self : PinholeCamera) (g : setting)
      (radiance : Ray.t R -> list R) (cost : Ray.t R -> Z)
      (index : Z) (ray : Ray.t R) (s : state) :
  let h := Z.to_nat (snd (_pixels self)) in
  let w := Z.to_nat (fst (_pixels self)) in
  tracer_is radiance cost ->
  0 <= spectral_samples self -> 0 <= index ->
  spectral_samples self * (index + 1) <= s_total_samples g ->
  Ray.num_samples ray = spectral_samples self ->
  s_total_work g <> 0 ->
  framed h w (spectral_samples self * index) s ->
  exists s',
    for_each (channel_items self (index, ray)) (do_item self g) s = (Ok tt, s')
    /\ framed h w (spectral_samples self * (index + 1)) s'
    /\ forall j i,
        (j < h)%nat -> (i < w)%nat ->
        pixel_at (xyz_frame s') j i
        = pixel_add (pixel_at (xyz_frame s) j i)
                    (contribution self g radiance index ray j i)
        /\ pixel_at (frame s') j i
           = ciexyz_to_srgb (fst (fst (pixel_at (xyz_frame s') j i)))
                            (snd (fst (pixel_at (xyz_frame s') j i)))
                            (snd (pixel_at (xyz_frame s') j i)).
Proof.
  intros h w Htr Hss Hidx Htot Hnum Hwork Hfr.
  unfold channel_items. cbn [fst snd].
  rewrite raster_nat, map_map. cbn [fst snd]. fold h w.
  destruct (pixels_Ok self g radiance cost index ray h w Htr Hss Hidx Htot
              Hnum Hwork (list_prod (seq 0 h) (seq 0 w)))
    with (s := s) as [s1 [E1 [Hfr1 Hpix]]].
  - apply NoDup_list_prod; apply seq_NoDup.
  - intros [j i] Hin. now apply in_raster_nat in Hin.
  - exact Hfr.
  - exists (set_lower_index (spectral_samples self * (index + 1)) s1).
    split.
    { rewrite for_each_app, bind_run, E1. reflexivity. }
    split.
    { destruct Hfr1 as [Hf [Hx _]]. repeat split; assumption. }
    intros j i Hj Hi. cbn [set_lower_index frame xyz_frame].
    destruct (Hpix j i) as [Hyes _].
    destruct Hyes as [Ex Ef]; [now apply in_raster_nat|].
    rewrite Ex, Ef. split; reflexivity.
Qed.

End ChannelLoop.

(** ** A whole invocation that does not fail *)

Section Success.
Context {T : Type} `{Arith T} {C : Collab T}.

(** The set-up succeeds when each of its steps does: the frames can be
    allocated, the root is a World, the tangent of the half angle is
    defined, the colour table can be made and the channel count is not
    zero. *)
Lemma setup_succeeds (self : PinholeCamera) (s : state) (tb : Table)
      (ip : pynum T * pynum T * pynum T) :
  0 <= fst (_pixels self) -> 0 <= snd (_pixels self) ->
  isinstance_World (root self) = true ->
  image_plane self = Ok ip ->
  resample_ciexyz (to_float (min_wavelength self))
                  (to_float (max_wavelength self))
                  (rays self * spectral_samples self) = Ok tb ->
  rays self <> 0 ->
  exists g s0, setup self s = (Ok g, s0).
Proof.
  intros Hw Hh Hroot Hip Hres Hrays.
  unfold setup. destruct (_pixels self) as [w h]. cbn [fst snd] in *.
  destruct s as [f x rc pt dt li wd c o].
  rewrite zeros3_cases, Hroot, Hip, Hres, generate_rays_cases.
  destruct (Z.leb_spec 0 h); [|lia]. destruct (Z.leb_spec 0 w); [|lia].
  destruct (Z.eqb_spec (rays self) 0); [contradiction|].
  step_state.
  destruct (time c) as [t0 c0].
  destruct (time c0) as [t1 c1].
  destruct (display_progress self).
  - destruct (time c1) as [t2 c2]. eexists. eexists. reflexivity.
  - eexists. eexists. reflexivity.
Qed.

Lemma finish_Ok (self : PinholeCamera) (start_time : T) (s : state) :
  fst (finish self start_time s) = Ok tt.
Proof.
  unfold finish, bind, now, print, display, modify, ret.
  destruct (time (clock s)) as [t c].
  destruct (display_progress self); reflexivity.
Qed.

(** When the set-up and the loop succeed, so does [observe], and it
    leaves the frames of the loop. *)
Lemma observe_Ok (self : PinholeCamera) (s s0 s1 : state) (g : setting) :
  setup self s = (Ok g, s0) ->
  render self g s0 = (Ok tt, s1) ->
  fst (observe self s) = Ok tt
  /\ frame (snd (observe self s)) = frame s1
  /\ xyz_frame (snd (observe self s)) = xyz_frame s1.
Proof.
  intros Hs Hr. rewrite observe_phases, bind_run, Hs, bind_run, Hr.
  destruct (finish_writes_nothing self (s_start_time g) s1)
    as [Ef [Ex _]].
  pose proof (finish_Ok self (s_start_time g) s1) as Hf.
  auto.
Qed.

End Success.

Section ChannelsSuccess.
Context {C : Collab R}.
Variable self : PinholeCamera.
Variable g : setting.
Variable radiance : Ray.t R -> list R.
Variable cost : Ray.t R -> Z.

Let h : nat := Z.to_nat (snd (_pixels self)).
Let w : nat := Z.to_nat (fst (_pixels self)).

Hypothesis Htr : tracer_is radiance cost.
Hypothesis Hss : 0 <= spectral_samples self.
Hypothesis Hwork : s_total_work g <> 0.

Lemma enumerate_from_length {A} (l : list A) (a : Z) :
  length (enumerate_from a l) = length l.
Proof.
  revert a. induction l as [|x l IH]; intros a; cbn; [reflexivity|].
  now rewrite IH.
Qed.

(** The channels one after the other: each pixel accumulates the
    contribution of every channel, and shows the sum. *)
Lemma channels_Ok (channels : list (Ray.t R)) :
  forall (a : Z) (s : state),
    0 <= a ->
    spectral_samples self * (a + Z.of_nat (length channels))
    <= s_total_samples g ->
    (forall r, In r channels -> Ray.num_samples r = spectral_samples self) ->
    framed h w (spectral_samples self * a) s ->
    exists s',
      for_each (flat_map (channel_items self) (enumerate_from a channels))
               (do_item self g) s = (Ok tt, s')
      /\ framed h w (spectral_samples self
                     * (a + Z.of_nat (length channels))) s'
      /\ forall j i,
          (j < h)%nat -> (i < w)%nat ->
          pixel_at (xyz_frame s') j i
          = accumulate self g radiance (enumerate_from a channels) j i
                       (pixel_at (xyz_frame s) j i)
          /\ (channels <> [] ->
              pixel_at (frame s') j i
              = ciexyz_to_srgb (fst (fst (pixel_at (xyz_frame s') j i)))
                               (snd (fst (pixel_at (xyz_frame s') j i)))
                               (snd (pixel_at (xyz_frame s') j i))).
Proof.
  induction channels as [|ray channels IH]; intros a s Ha Htot Hnum Hfr.
  - exists s. split; [reflexivity|]. split.
    + cbn [length Z.of_nat]. now rewrite Z.add_0_r.
    + intros j i _ _. split; [reflexivity | congruence].
  - cbn [length] in Htot. rewrite Nat2Z.inj_succ in Htot.
    destruct (channel_Ok self g radiance cost a ray s Htr Hss Ha)
      as [s1 [E1 [Hfr1 Hpix1]]]; try assumption.
    { nia. }
    { apply Hnum. now left. }
    destruct (IH (a + 1) s1) as [s' [E' [Hfr' Hpix']]].
    + lia.
    + replace (a + 1 + Z.of_nat (length channels))
        with (a + Z.succ (Z.of_nat (length channels))) by lia.
      exact Htot.
    + intros r Hr. apply Hnum. now right.
    + exact Hfr1.
    + exists s'. split.
      { cbn [enumerate_from flat_map]. rewrite for_each_app, bind_run, E1.
        exact E'. }
      split.
      { cbn [length]. rewrite Nat2Z.inj_succ.
        replace (a + Z.succ (Z.of_nat (length channels)))
          with (a + 1 + Z.of_nat (length channels)) by lia.
        exact Hfr'. }
      intros j i Hj Hi.
      destruct (Hpix1 j i Hj Hi) as [Ex1 Ef1].
      destruct (Hpix' j i Hj Hi) as [Ex' Ef'].
      split.
      * rewrite Ex', Ex1. reflexivity.
      * intros _. destruct channels as [|ray' channels].
        -- (* the last channel displayed the pixel *)
           cbn [enumerate_from flat_map for_each] in E'.
           injection E' as <-. exact Ef1.
        -- apply Ef'. discriminate.
Qed.

End ChannelsSuccess.

Section ObserveExact.
Context {C : Collab R}.
Variable self : PinholeCamera (T := R).
Variable radiance : Ray.t R -> list R.
Variable cost : Ray.t R -> Z.
Variable tb : Table.

Let h : nat := Z.to_nat (snd (_pixels self)).
Let w : nat := Z.to_nat (fst (_pixels self)).

Lemma chain_num_samples (delta : pynum R) (indices : list Z) :
  forall lower r,
    In r (chain self delta indices lower) ->
    Ray.num_samples r = spectral_samples self.
Proof.
  induction indices as [|i rest IH]; intros lower r; cbn [chain In].
  - tauto.
  - intros [<-|Hr]; [reflexivity | eapply IH; eassumption].
Qed.

(** A render that succeeds at every step: [observe] returns normally,
    both frames keep their shape, every accumulated pixel is the sum of the
    contributions of the channels in order, and the display frame shows
    it. *)
Lemma observe_accumulates (s : state) :
  1 <= fst (_pixels self) -> 1 <= snd (_pixels self) ->
  isinstance_World (root self) = true ->
  0 <= spectral_samples self -> 1 <= rays self ->
  tracer_is radiance cost ->
  resample_ciexyz (to_float (min_wavelength self))
                  (to_float (max_wavelength self))
                  (rays self * spectral_samples self) = Ok tb ->
  exists g : setting,
    image_plane self = Ok (s_plane g)
    /\ s_table g = tb
    /\ s_total_samples g = rays self * spectral_samples self
    /\ fst (observe self s) = Ok tt
    /\ shape (xyz_frame (snd (observe self s))) = repeat w h
    /\ shape (frame (snd (observe self s))) = repeat w h
    /\ forall j i,
        (j < h)%nat -> (i < w)%nat ->
        let p := accumulate self g radiance
                   (enumerate (chain self (PyFloat (step self))
                                     (range (rays self))
                                     (min_wavelength self)))
                   j i zero_pixel in
        pixel_at (xyz_frame (snd (observe self s))) j i = p
        /\ pixel_at (frame (snd (observe self s))) j i
           = ciexyz_to_srgb (fst (fst p)) (snd (fst p)) (snd p).
Proof.
  intros Hw Hh Hroot Hss Hrays Htr Hres.
  destruct (image_plane_Ok_R self) as [ip0 Hip0].
  destruct (setup_succeeds self s tb ip0) as [g [s0 Hs]];
    try assumption; try lia.
  pose proof Hs as Hfacts. apply setup_Ok in Hfacts. cbv zeta in Hfacts.
  destruct Hfacts as
      [Ef [Ex [_ [_ [_ [Hip [Htb [Hgen [Htot [_ [Hwork _]]]]]]]]]]].
  rewrite generate_rays_cases in Hgen.
  destruct (Z.eqb_spec (rays self) 0) as [|_]; [lia|].
  assert (Hg : chain self (PyFloat (step self)) (range (rays self))
                     (min_wavelength self) = s_rays g) by congruence.
  clear Hgen. rename Hg into Hgen.
  assert (Hlen : Z.of_nat (length (s_rays g)) = rays self).
  { rewrite <- Hgen, chain_length, range_length. lia. }
  destruct (channels_Ok self g radiance cost Htr Hss
                        ltac:(rewrite Hwork; nia)
                        (s_rays g) 0 (set_lower_index 0 s0))
    as [s1 [E1 [[Hf1 [Hx1 _]] Hpix]]].
  - lia.
  - rewrite Hlen, Htot. lia.
  - intros r Hr. rewrite <- Hgen in Hr.
    eapply chain_num_samples; eassumption.
  - split; [|split].
    + cbn [set_lower_index frame]. fold h w. rewrite Ef.
      apply shape_zero_image.
    + cbn [set_lower_index xyz_frame]. rewrite Ex. apply shape_zero_image.
    + cbn [set_lower_index lower_index]. lia.
  - assert (Hr : render self g s0 = (Ok tt, s1)).
    { rewrite render_loop_items, bind_run. exact E1. }
    destruct (observe_Ok self s s0 s1 g Hs Hr) as [Eo [Eof Eox]].
    exists g. rewrite Eo, Eof, Eox.
    split; [exact Hip|]. split; [congruence|]. split; [exact Htot|].
    split; [reflexivity|]. split; [exact Hx1|]. split; [exact Hf1|].
    intros j i Hj Hi. cbv zeta.
    destruct (Hpix j i Hj Hi) as [Epx Epf].
    cbn [set_lower_index xyz_frame] in Epx. rewrite Ex in Epx.
    rewrite pixel_at_zero_image in Epx.
    unfold enumerate. rewrite Hgen, <- Epx.
    split; [reflexivity|]. apply Epf.
    intros E. rewrite E in Hlen. cbn in Hlen. lia.
Qed.

End ObserveExact.

(** ** Additivity across channels *)

Section Additive.
Context {C : Collab R}.
Variable self : PinholeCamera (T := R).
Variable n : Z.
Variable radiance : Ray.t R -> list R.
Variable cost : Ray.t R -> Z.
Variable tb : Table.

Let lo : R := to_float (min_wavelength self).
Let hi : R := to_float (max_wavelength self).
Let mid : R := ((lo + hi) / 2)%R.
Let one : PinholeCamera := with_channels self 1 (2 * n).
Let two : PinholeCamera := with_channels self 2 n.
Let h : nat := Z.to_nat (snd (_pixels self)).
Let w : nat := Z.to_nat (fst (_pixels self)).

Lemma one_partition :
  chain one (PyFloat (step one)) (range (rays one)) (min_wavelength one)
  = [Ray.new lo hi (2 * n) (ray_max_depth self)
             (mkPoint 0%R 0%R 0%R) (mkVector 0%R 0%R 1%R)].
Proof.
  change (range (rays one)) with [0]. cbn [chain].
  rewrite (upper_bound_R one 0).
  change (to_float (min_wavelength one)) with lo.
  change (to_float (max_wavelength one)) with hi.
  change (rays one) with 1.
  replace (lo + (hi - lo) / IZR 1 * IZR (0 + 1))%R with hi
    by (cbn [Z.add]; field).
  reflexivity.
Qed.

Lemma two_partition :
  chain two (PyFloat (step two)) (range (rays two)) (min_wavelength two)
  = [Ray.new lo mid n (ray_max_depth self)
             (mkPoint 0%R 0%R 0%R) (mkVector 0%R 0%R 1%R);
     Ray.new mid hi n (ray_max_depth self)
             (mkPoint 0%R 0%R 0%R) (mkVector 0%R 0%R 1%R)].
Proof.
  change (range (rays two)) with [0; 1]. cbn [chain].
  rewrite (upper_bound_R two 0), (upper_bound_R two 1).
  change (to_float (min_wavelength two)) with lo.
  change (to_float (max_wavelength two)) with hi.
  change (rays two) with 2.
  replace (lo + (hi - lo) / IZR 2 * IZR (0 + 1))%R with mid
    by (unfold mid; cbn [Z.add]; field).
  replace (lo + (hi - lo) / IZR 2 * IZR (1 + 1))%R with hi
    by (cbn [Z.add Pos.add]; field).
  reflexivity.
Qed.


Lemma pixel_add_zero_two (a b : pixel R) :
  pixel_add (pixel_add zero_pixel a) b = pixel_add zero_pixel (pixel_add a b).
Proof.
  destruct a as [[a1 a2] a3], b as [[b1 b2] b3].
  unfold pixel_add, zero_pixel. cbn [fst snd add of_Z R_arith].
  f_equal; [f_equal|]; ring.
Qed.

Hypothesis Hw : 1 <= fst (_pixels self).
Hypothesis Hh : 1 <= snd (_pixels self).
Hypothesis Hroot : isinstance_World (root self) = true.
Hypothesis Hn : 0 <= n.
Hypothesis Htr : tracer_is radiance cost.
Hypothesis Hsplit :
  forall o d,
    radiance (Ray.new lo hi (2 * n) (ray_max_depth self) o d)
    = radiance (Ray.new lo mid n (ray_max_depth self) o d)
      ++ radiance (Ray.new mid hi n (ray_max_depth self) o d).
Hypothesis Hres : resample_ciexyz lo hi (2 * n) = Ok tb.
Hypothesis Hadd :
  forall A B : list R,
    length A = Z.to_nat n -> length B = Z.to_nat n ->
    pixel_add
      (spectrum_to_ciexyz
         (Spectrum.make lo hi (A ++ repeat 0%R (Z.to_nat n))) tb)
      (spectrum_to_ciexyz
         (Spectrum.make lo hi (repeat 0%R (Z.to_nat n) ++ B)) tb)
    = spectrum_to_ciexyz (Spectrum.make lo hi (A ++ B)) tb.

Lemma two_channels_add_up (s1 s2 : state) :
  fst (observe two s2) = Ok tt /\ fst (observe one s1) = Ok tt
  /\ xyz_frame (snd (observe two s2)) = xyz_frame (snd (observe one s1))
  /\ frame (snd (observe two s2)) = frame (snd (observe one s1)).
Proof.
  destruct (observe_accumulates one radiance cost tb s1)
    as [g1 [Hip1 [Htb1 [Htot1 [Eo1 [Shx1 [Shf1 Hpix1]]]]]]];
    try assumption; try (cbn [one with_channels spectral_samples rays]; lia).
  { change (rays one * spectral_samples one) with (1 * (2 * n)).
    rewrite Z.mul_1_l. exact Hres. }
  destruct (observe_accumulates two radiance cost tb s2)
    as [g2 [Hip2 [Htb2 [Htot2 [Eo2 [Shx2 [Shf2 Hpix2]]]]]]];
    try assumption; try (cbn [two with_channels spectral_samples rays]; lia).
  rewrite one_partition in Hpix1. rewrite two_partition in Hpix2.
  assert (Hplane : s_plane g2 = s_plane g1).
  { change (image_plane two) with (image_plane one) in Hip2. congruence. }
  assert (Hsame : forall j i,
             accumulate two g2 radiance
               (enumerate
                  [Ray.new lo mid n (ray_max_depth self)
                           (mkPoint 0%R 0%R 0%R) (mkVector 0%R 0%R 1%R);
                   Ray.new mid hi n (ray_max_depth self)
                           (mkPoint 0%R 0%R 0%R) (mkVector 0%R 0%R 1%R)])
               j i zero_pixel
             = accumulate one g1 radiance
                 (enumerate
                    [Ray.new lo hi (2 * n) (ray_max_depth self)
                             (mkPoint 0%R 0%R 0%R) (mkVector 0%R 0%R 1%R)])
                 j i zero_pixel).
  { intros j i. unfold accumulate, enumerate.
    cbn [enumerate_from fold_left fst snd].
    rewrite pixel_add_zero_two. f_equal.
    unfold contribution, aimed. rewrite Htb1, Htb2, Htot1, Htot2, Hplane.
    change (to_root two) with (to_root self).
    change (to_root one) with (to_root self).
    set (o := point_transform _ (to_root self)).
    set (d := vector_transform _ (to_root self)).
    unfold Ray.set_direction, Ray.set_origin.
    cbn [Ray.min_wavelength Ray.max_wavelength Ray.num_samples
         Ray.max_depth Ray.origin Ray.direction].
    change (to_float (min_wavelength two)) with lo.
    change (to_float (max_wavelength two)) with hi.
    change (to_float (min_wavelength one)) with lo.
    change (to_float (max_wavelength one)) with hi.
    change (spectral_samples two) with n.
    change (spectral_samples one) with (2 * n).
    change (rays two) with 2. change (rays one) with 1.
    replace (Z.to_nat (n * 0)) with O by lia.
    replace (Z.to_nat (2 * n - n * (0 + 1))) with (Z.to_nat n) by lia.
    replace (Z.to_nat (n * (0 + 1))) with (Z.to_nat n) by lia.
    replace (Z.to_nat (2 * n - n * (0 + 1 + 1))) with O by lia.
    replace (Z.to_nat (2 * n * 0)) with O by lia.
    replace (Z.to_nat (1 * (2 * n) - 2 * n * (0 + 1))) with O by lia.
    cbn [repeat app]. rewrite !app_nil_r.
    rewrite Hsplit. apply Hadd.
    - destruct (Htr (Ray.new lo mid n (ray_max_depth self) o d) (world s1))
        as [_ Hl]. exact Hl.
    - destruct (Htr (Ray.new mid hi n (ray_max_depth self) o d) (world s1))
        as [_ Hl]. exact Hl. }
  split; [exact Eo2|]. split; [exact Eo1|].
  assert (Hx : xyz_frame (snd (observe two s2))
               = xyz_frame (snd (observe one s1))).
  { apply image_ext with (h := h) (w := w); [exact Shx2 | exact Shx1 |].
    intros j i Hj Hi.
    destruct (Hpix1 j i Hj Hi) as [-> _].
    destruct (Hpix2 j i Hj Hi) as [-> _]. apply Hsame. }
  split; [exact Hx|].
  apply image_ext with (h := h) (w := w); [exact Shf2 | exact Shf1 |].
  intros j i Hj Hi.
  destruct (Hpix1 j i Hj Hi) as [_ ->].
  destruct (Hpix2 j i Hj Hi) as [_ ->]. now rewrite Hsame.
Qed.
End Additive.

(** C7.  Over the reals, with a tracer and a colour matching that return
    nothing negative, no entry of the accumulated frame is negative after
    [observe].  And accumulation is additive across channels: when the
    tracer returns for the whole range what it returns for its two halves,
    one after the other, and the colour matching of a spectrum is the sum
    of the colour matchings of its two halves, [observe] with two channels
    of [n] samples returns normally and leaves the accumulated frame, and
    the display frame, that [observe] with one channel of [2 * n] samples
    leaves. *)
Theorem accumulation_nonnegative_and_additive {C : Collab R}
        (self : PinholeCamera) (n : Z) (radiance : Ray.t R -> list R)
        (cost : Ray.t R -> Z) (tb : Table) (s s1 s2 : state) :
  let lo := to_float (min_wavelength self) in
  let hi := to_float (max_wavelength self) in
  let mid := ((lo + hi) / 2)%R in
  let two := with_channels self 2 n in
  let one := with_channels self 1 (2 * n) in
  1 <= fst (_pixels self) -> 1 <= snd (_pixels self) ->
  isinstance_World (root self) = true ->
  0 <= n ->
  tracer_nonneg -> ciexyz_nonneg ->
  tracer_is radiance cost ->
  (forall o d,
      radiance (Ray.new lo hi (2 * n) (ray_max_depth self) o d)
      = radiance (Ray.new lo mid n (ray_max_depth self) o d)
        ++ radiance (Ray.new mid hi n (ray_max_depth self) o d)) ->
  resample_ciexyz lo hi (2 * n) = Ok tb ->
  (forall A B : list R,
      length A = Z.to_nat n -> length B = Z.to_nat n ->
      pixel_add
        (spectrum_to_ciexyz
           (Spectrum.make lo hi (A ++ repeat 0%R (Z.to_nat n))) tb)
        (spectrum_to_ciexyz
           (Spectrum.make lo hi (repeat 0%R (Z.to_nat n) ++ B)) tb)
      = spectrum_to_ciexyz (Spectrum.make lo hi (A ++ B)) tb) ->
  nonneg_image (xyz_frame (snd (observe self s)))
  /\ fst (observe two s2) = Ok tt
  /\ fst (observe one s1) = Ok tt
  /\ xyz_frame (snd (observe two s2)) = xyz_frame (snd (observe one s1))
  /\ frame (snd (observe two s2)) = frame (snd (observe one s1)).
Proof.
  intros lo hi mid two one Hw Hh Hroot Hn Hnn Hcn Htr Hsplit Hres Hadd.
  split.
  - apply observe_nonneg; try assumption; lia.
  - eapply two_channels_add_up; eassumption.
Qed.

Lemma toy_ciexyz_nonneg : ciexyz_nonneg (C := Sample.real_world).
Proof.
  intros sp tb Hs. cbn [spectrum_to_ciexyz Sample.real_world Sample.toy].
  assert (Hsum : (0 <= fold_right add (of_Z 0) (Spectrum.samples sp))%R).
  { induction (Spectrum.samples sp) as [|v l IH]; cbn [fold_right].
    - cbn. lra.
    - cbn [add R_arith].
      assert (0 <= v)%R by (apply Hs; now left).
      assert (0 <= fold_right add (of_Z 0) l)%R
        by (apply IH; intros u Hu; apply Hs; now right).
      cbn [add R_arith] in *. lra. }
  repeat split; exact Hsum.
Qed.

Lemma accumulation_nonnegative_and_additive_witness :
  let self :=
    Sample.real_camera (2, 1) (PyInt 40) 1 1 (PyFloat 375%R) (PyFloat 740%R)
                       RootWorld in
  let s := mkState (C := Sample.real_world) [] [] 0 0%R (PyInt 0) 0 0%nat
                   0%R [] in
  let radiance := fun r : Ray.t R => repeat 2%R (Z.to_nat (Ray.num_samples r)) in
  (tracer_nonneg (C := Sample.real_world)
   /\ ciexyz_nonneg (C := Sample.real_world)
   /\ tracer_is (C := Sample.real_world) radiance (fun _ => 1))
  /\ nonneg_image (xyz_frame (snd (observe self s)))
  /\ fst (observe (with_channels self 2 1) s) = Ok tt
  /\ fst (observe (with_channels self 1 2) s) = Ok tt
  /\ xyz_frame (snd (observe (with_channels self 2 1) s))
     = xyz_frame (snd (observe (with_channels self 1 2) s))
  /\ frame (snd (observe (with_channels self 2 1) s))
     = frame (snd (observe (with_channels self 1 2) s)).
Proof.
  intros self s radiance.
  assert (Hnn : tracer_nonneg (C := Sample.real_world)).
  { intros r w sample k E v Hv. cbn in E. injection E as <- _.
    apply repeat_spec in Hv. subst v. lra. }
  assert (Htr : tracer_is (C := Sample.real_world) radiance (fun _ => 1)).
  { intros r w. split; [reflexivity | apply repeat_length]. }
  split; [auto using toy_ciexyz_nonneg|].
  apply (accumulation_nonnegative_and_additive
           (C := Sample.real_world) self 1 radiance (fun _ => 1) tt s s s);
    try assumption; try (cbn; lia); try reflexivity.
  - apply toy_ciexyz_nonneg.
  - intros A B HA HB.
    destruct A as [|a [|a' A]]; try discriminate.
    destruct B as [|b [|b' B]]; try discriminate.
    unfold pixel_add. cbn [spectrum_to_ciexyz Sample.real_world Sample.toy
                           Spectrum.samples fold_right app
                           repeat Z.to_nat Pos.to_nat Pos.iter_op fst snd
                           add of_Z R_arith].
    change (Pos.to_nat 1) with 1%nat. cbn [repeat app fold_right].
    f_equal; [f_equal|]; ring.
Defined.

(** * Further properties of the render loop *)

(** ** The order of the tracer calls *)

Section ScanOrder.
Context {T : Type} `{Arith T} {C : Collab T}.
Variable self : PinholeCamera.
Variable g : setting.

Lemma scan_order_items :
  scan_order self g
  = flat_map (item_traces self g) (render_items self (s_rays g)).
Proof.
  unfold scan_order, render_items. generalize (enumerate (s_rays g)).
  intros l. induction l as [|[index ray] l IH]; [reflexivity|].
  cbn [flat_map]. rewrite flat_map_app, IH. f_equal.
  unfold channel_items. cbn [fst snd]. rewrite flat_map_app.
  cbn [flat_map item_traces app]. rewrite app_nil_r.
  generalize (raster (snd (_pixels self)) (fst (_pixels self))). intros r.
  induction r as [|yx r IHr]; [reflexivity|].
  cbn [map flat_map item_traces app]. now rewrite IHr.
Qed.

Lemma raster_length (h w : Z) :
  length (raster h w) = (Z.to_nat h * Z.to_nat w)%nat.
Proof.
  rewrite raster_nat, length_map, length_prod, !length_seq. reflexivity.
Qed.

Lemma scan_order_length :
  length (scan_order self g)
  = (length (s_rays g) * (Z.to_nat (snd (_pixels self))
                          * Z.to_nat (fst (_pixels self))))%nat.
Proof.
  unfold scan_order, enumerate. generalize 0. generalize (s_rays g).
  intros l. induction l as [|r l IH]; intros a; [reflexivity|].
  cbn [enumerate_from flat_map length]. rewrite length_app, IH.
  now rewrite length_map, raster_length.
Qed.

(** The pixel traces its aimed ray at most once, and exactly once when it
    returns. *)
Lemma sample_pixel_out (ray : Ray.t T) (upper_index y x : Z) (s : state) :
  let r := sample_pixel self (s_plane g) (s_total_samples g) (s_table g)
                        ray upper_index y x s in
  (out (snd r) = out s /\ fst r <> Ok tt)
  \/ out (snd r) = out s ++ [trace_call (aimed self g ray y x)].
Proof.
  cbv zeta. unfold sample_pixel, bind, lift, trace, gets, modify.
  destruct (Spectrum_new _ _ _) as [sp|e]; [|left; split; [reflexivity|discriminate]].
  fold (aimed self g ray y x). right.
  destruct (ray_trace _ (world s)) as [w' [[sample n]|e]]; [|reflexivity].
  destruct (slice_assign _ _ _ _) as [samples|e]; [|reflexivity].
  destruct (image_get _ _ _) as [p|e]; [|reflexivity].
  destruct (image_set _ _ _ _) as [xf'|e]; [|reflexivity].
  destruct (image_set _ _ _ _) as [f'|e]; reflexivity.
Qed.

Lemma do_item_traces (it : item) (s : state) :
  exists l,
    trace_calls (out (snd (do_item self g it s))) = trace_calls (out s) ++ l
    /\ (l = [] \/ l = item_traces self g it)
    /\ (fst (do_item self g it s) = Ok tt -> l = item_traces self g it).
Proof.
  destruct it as [index ray y x|index]; cbn [do_item item_traces].
  - unfold pixel_body. rewrite bind_run.
    destruct (progress_report_writes_nothing self (s_total_pixels g)
                (s_total_work g) (Z.of_nat (length (s_rays g))) index y x s)
      as [_ [_ [_ [_ [evs [Eo Et]]]]]].
    destruct (progress_report _ _ _ _ _ _ _ s) as [[[]|e] s1]; cbn [snd] in *.
    2:{ exists []. rewrite Eo, trace_calls_app, Et.
        split; [reflexivity|]. split; [now left | discriminate]. }
    rewrite bind_run.
    pose proof (sample_pixel_out ray (spectral_samples self * (index + 1))
                                 y x s1) as Hsp. cbv zeta in Hsp.
    destruct (sample_pixel _ _ _ _ _ _ _ _ s1) as [[[]|e] s2];
      cbn [fst snd] in *.
    + destruct Hsp as [[_ Hne]|Eo2]; [congruence|].
      destruct (display_refresh_writes_nothing self s2)
        as [_ [_ [_ [_ [evs' [Eo' Et']]]]]].
      exists [aimed self g ray y x].
      rewrite Eo', Eo2, Eo, !trace_calls_app, Et, Et'. cbn [trace_calls].
      rewrite !app_nil_r. auto.
    + destruct Hsp as [[Eo2 _]|Eo2].
      * exists []. rewrite Eo2, Eo, trace_calls_app, Et.
        split; [reflexivity|]. split; [now left | discriminate].
      * exists [aimed self g ray y x].
        rewrite Eo2, Eo, !trace_calls_app, Et. cbn [trace_calls app].
        rewrite !app_nil_r.
        split; [reflexivity|]. split; [now right | reflexivity].
  - exists []. cbn. rewrite app_nil_r. auto.
Qed.

(** The steps of the loop trace a prefix of their rays, and all of them
    when the loop returns. *)
Lemma for_each_traces (its : list item) :
  forall s,
    exists n,
      trace_calls (out (snd (for_each its (do_item self g) s)))
      = trace_calls (out s) ++ firstn n (flat_map (item_traces self g) its)
      /\ (fst (for_each its (do_item self g) s) = Ok tt ->
          trace_calls (out (snd (for_each its (do_item self g) s)))
          = trace_calls (out s) ++ flat_map (item_traces self g) its).
Proof.
  induction its as [|it its IH]; intros s.
  - exists O. cbn. rewrite app_nil_r. auto.
  - cbn [for_each flat_map]. rewrite bind_run.
    destruct (do_item_traces it s) as [l [El [Hl Hok]]].
    destruct (do_item self g it s) as [[[]|e] s1]; cbn [fst snd] in *.
    + rewrite (Hok eq_refl) in El.
      destruct (IH s1) as [n [En Hall]].
      exists (length (item_traces self g it) + n)%nat.
      rewrite firstn_app_2, app_assoc, <- El. split; [exact En|].
      intros E. rewrite (Hall E), El, app_assoc. reflexivity.
    + split with (x := length l). split; [|discriminate].
      rewrite El. f_equal. destruct Hl as [->| ->]; [reflexivity|].
      now rewrite firstn_app, Nat.sub_diag, firstn_all, firstn_O, app_nil_r.
Qed.

End ScanOrder.

Section ScanOrderObserve.
Context {T : Type} `{Arith T} {C : Collab T}.

(** The set-up traces nothing, however it ends. *)
Lemma setup_traces_nothing (self : PinholeCamera) (s : state) :
  trace_calls (out (snd (setup self s))) = trace_calls (out s).
Proof.
  unfold setup. destruct (_pixels self) as [w h].
  destruct s as [f x rc pt dt li wd c o].
  destruct (zeros3 h w) as [z|e]; [|reflexivity].
  step_state.
  destruct (isinstance_World (root self)); [|reflexivity].
  destruct (image_plane self) as [ip|e]; [|reflexivity].
  destruct (resample_ciexyz _ _ _) as [tb|e]; [|reflexivity].
  destruct (generate_rays self) as [rl|e]; [|reflexivity].
  destruct (time c) as [t0 c0].
  destruct (time c0) as [t1 c1].
  destruct (display_progress self).
  - destruct (time c1) as [t2 c2]. cbn.
    rewrite trace_calls_app. cbn. now rewrite app_nil_r.
  - reflexivity.
Qed.

(** X1.  The tracer is called once for each pixel of each channel, channels
    outermost, then rows, then columns, each time with the channel's ray
    aimed through the pixel.  A run that raises has made the calls of a
    prefix of that order, and a run whose set-up raises has made none. *)
Theorem tracer_calls_in_scan_order (self : PinholeCamera) (s : state) :
  let s' := snd (observe self s) in
  match setup self s with
  | (Ok g, _) =>
      length (scan_order self g)
      = (Z.to_nat (rays self)
         * (Z.to_nat (snd (_pixels self)) * Z.to_nat (fst (_pixels self))))%nat
      /\ (exists n,
             trace_calls (out s')
             = trace_calls (out s) ++ firstn n (scan_order self g))
      /\ (fst (observe self s) = Ok tt ->
          trace_calls (out s') = trace_calls (out s) ++ scan_order self g)
  | (Raise e, _) =>
      fst (observe self s) = Raise e
      /\ trace_calls (out s') = trace_calls (out s)
  end.
Proof.
  cbv zeta. rewrite observe_phases, bind_run.
  pose proof (setup_traces_nothing self s) as Hset.
  destruct (setup self s) as [[g|e] s0] eqn:Es; cbn [fst snd] in *; [|auto].
  split.
  { rewrite scan_order_length. f_equal.
    apply setup_Ok in Es. cbv zeta in Es.
    destruct Es as [_ [_ [_ [_ [_ [_ [_ [Hgen _]]]]]]]].
    rewrite generate_rays_cases in Hgen.
    destruct (rays self =? 0); [discriminate|].
    assert (E : s_rays g = chain self (PyFloat (step self))
                                 (range (rays self)) (min_wavelength self))
      by congruence.
    now rewrite E, chain_length, range_length. }
  rewrite bind_run, render_loop_items, bind_run. cbn [modify].
  destruct (for_each_traces self g (render_items self (s_rays g))
                            (set_lower_index 0 s0)) as [n [En Hall]].
  rewrite <- scan_order_items in En, Hall.
  cbn [set_lower_index out] in En, Hall. rewrite Hset in En, Hall.
  destruct (for_each _ _ (set_lower_index 0 s0)) as [[[]|e] s1];
    cbn [fst snd] in *.
  - destruct (finish_writes_nothing self (s_start_time g) s1)
      as [_ [_ [_ [_ [evs [Eo Et]]]]]].
    rewrite Eo, trace_calls_app, Et, app_nil_r.
    split; [exists n; exact En|]. intros _. now apply Hall.
  - split; [exists n; exact En | discriminate].
Qed.

End ScanOrderObserve.

(** ** The frames, however [observe] ends *)

Section FramesAlways.
Context {T : Type} `{Arith T} {C : Collab T}.

Lemma shape_zero_image_any (h w : Z) :
  shape (zero_image (T := T) h w) = repeat (Z.to_nat w) (Z.to_nat h).
Proof.
  unfold shape, zero_image. induction (Z.to_nat h) as [|n IH];
    [reflexivity|].
  cbn [repeat map]. now rewrite IH, repeat_length.
Qed.

(** A pixel leaves the accumulated frame in its shape. *)
Lemma sample_pixel_xyz_shape (self : PinholeCamera)
      (ip : pynum T * pynum T * pynum T) (total_samples : Z) (tb : Table)
      (ray : Ray.t T) (upper_index y x : Z) (s : state) :
  shape (xyz_frame (snd (sample_pixel self ip total_samples tb ray
                                      upper_index y x s)))
  = shape (xyz_frame s).
Proof.
  unfold sample_pixel, bind, lift, trace, gets, modify.
  destruct (Spectrum_new _ _ _) as [sp|e]; [|reflexivity].
  destruct (ray_trace _ (world s)) as [w' [[sample n]|e]]; [|reflexivity].
  destruct (slice_assign _ _ _ _) as [samples|e]; [|reflexivity].
  cbn [set_world set_out set_ray_count frame xyz_frame].
  destruct (image_get _ _ _) as [p|e]; [|reflexivity].
  rewrite image_set_cases.
  destruct (np_index _ y) as [j|e]; [|reflexivity].
  destruct (np_index _ x) as [i|e]; [|reflexivity].
  cbn [set_world set_out set_ray_count set_xyz_frame frame xyz_frame].
  destruct (image_set _ _ _ _) as [f'|e]; cbn; apply shape_image_put.
Qed.

(** Both frames keep the shape [sh], and the display frame keeps showing
    the accumulated one, through every step of the loop. *)
Lemma do_item_frames (self : PinholeCamera) (g : setting) (it : item)
      (sh : list nat) :
  keeps (fun s => (fun f xf => shape f = sh /\ shape xf = sh /\ shows f xf)
                    (frame s) (xyz_frame s))
        (do_item self g it).
Proof.
  destruct it as [index ray y x|index]; cbn [do_item].
  - unfold pixel_body. apply keeps_bind.
    { apply (keeps_of_writes_nothing
               (fun f xf => shape f = sh /\ shape xf = sh /\ shows f xf)).
      apply progress_report_writes_nothing. }
    intros _. apply keeps_bind.
    2:{ intros _.
        apply (keeps_of_writes_nothing
                 (fun f xf => shape f = sh /\ shape xf = sh /\ shows f xf)).
        apply display_refresh_writes_nothing. }
    intros s [Hf [Hx Hs]].
    pose proof (@sample_pixel_display_consistent _ _ _ self (s_plane g)
                  (s_total_samples g) (s_table g) ray
                  (spectral_samples self * (index + 1)) y x s Hs) as Hs'.
    pose proof (sample_pixel_xyz_shape self (s_plane g) (s_total_samples g)
                  (s_table g) ray (spectral_samples self * (index + 1))
                  y x s) as Hx'.
    destruct Hs' as [Hsh Hval].
    split; [|split; [|split]]; try assumption; congruence.
  - intros s Hs. exact Hs.
Qed.

(** X2.  However [observe] ends - normally, or with an exception of the set-up,
    the tracer, the colour functions or numpy - both frames have
    [pixels[1]] rows of [pixels[0]] pixels, and every display pixel is the
    colour mapping of the accumulated pixel, or both are still zero. *)
Theorem frames_shaped_and_consistent (self : PinholeCamera) (s : state) :
  0 <= fst (_pixels self) -> 0 <= snd (_pixels self) ->
  let s' := snd (observe self s) in
  let sh := repeat (Z.to_nat (fst (_pixels self)))
                   (Z.to_nat (snd (_pixels self))) in
  shape (frame s') = sh
  /\ shape (xyz_frame s') = sh
  /\ display_consistent s'.
Proof.
  intros Hw Hh s' sh. subst s'.
  pose (P := fun f xf : image T =>
               shape f = sh /\ shape xf = sh /\ shows f xf).
  assert (Hzero : P (zero_image (snd (_pixels self)) (fst (_pixels self)))
                    (zero_image (snd (_pixels self)) (fst (_pixels self)))).
  { split; [apply shape_zero_image_any|].
    split; [apply shape_zero_image_any | apply zero_images_show]. }
  assert (Hstep : forall g it,
             keeps (fun s => P (frame s) (xyz_frame s)) (do_item self g it)).
  { intros g it. apply do_item_frames. }
  exact (observe_establishes P self s Hw Hh Hzero Hstep).
Qed.

End FramesAlways.

(** At a camera of 3 by 2 pixels whose tracer raises at its fourth call. *)
Lemma frames_shaped_and_consistent_witness :
  let self :=
    Sample.float_camera (Some 3%nat) (3, 2) (PyInt 40) 2 2
                        (PyFloat 375%float) (PyFloat 740%float) RootWorld in
  let s := mkState (C := Sample.float_world (Some 3%nat)) [] [] 0 0%float
                   (PyInt 0) 0 0%nat 0%float [] in
  (0 <= fst (_pixels self) /\ 0 <= snd (_pixels self))
  /\ shape (frame (snd (observe self s))) = [3; 3]%nat
  /\ shape (xyz_frame (snd (observe self s))) = [3; 3]%nat
  /\ display_consistent (snd (observe self s)).
Proof.
  intros self s.
  assert (Hw : 0 <= fst (_pixels self)) by (cbn; lia).
  assert (Hh : 0 <= snd (_pixels self)) by (cbn; lia).
  split; [auto|].
  exact (frames_shaped_and_consistent self s Hw Hh).
Defined.

(** ** What [observe] writes to the console and the display *)

Section Emits.
Context {T : Type} `{Arith T} {C : Collab T}.
Variable P : @event T -> bool.

Lemma emits_silent {A} (m : M A) :
  (forall s, out (snd (m s)) = out s) -> emits P m.
Proof.
  intros Hm s. exists []. now rewrite app_nil_r, Hm.
Qed.

Lemma emits_now : emits P now.
Proof.
  apply emits_silent. intros s. unfold now.
  now destruct (time (clock s)).
Qed.

Lemma emits_print (ev : @event T) : P ev = true -> emits P (print ev).
Proof.
  intros Hev s. exists [ev]. cbn. now rewrite Hev.
Qed.

Lemma emits_display :
  (forall f, P (display_call f) = true) -> emits P display.
Proof.
  intros Hd s. exists [display_call (frame s)]. cbn. now rewrite Hd.
Qed.

Lemma emits_bind {A B} (m : M A) (k : A -> M B) :
  emits P m -> (forall a, emits P (k a)) -> emits P (bind m k).
Proof.
  intros Hm Hk s. unfold bind. destruct (Hm s) as [evs [Eo Ep]].
  destruct (m s) as [[a|e] s1]; cbn [snd] in *.
  - destruct (Hk a s1) as [evs' [Eo' Ep']].
    exists (evs ++ evs'). rewrite Eo', Eo, app_assoc, forallb_app, Ep, Ep'.
    auto.
  - exists evs. auto.
Qed.

Lemma emits_for_each {A} (l : list A) (body : A -> M unit) :
  (forall a, emits P (body a)) -> emits P (for_each l body).
Proof.
  intros Hb. induction l as [|a l IH]; cbn [for_each].
  - now apply emits_silent.
  - apply emits_bind; [apply Hb | intros _; exact IH].
Qed.

Variable self : PinholeCamera.

Hypothesis Hprogress :
  forall completion channel channels line lines current_pixel total_pixels
         rays_per_second,
    P (print_progress completion channel channels line lines current_pixel
                      total_pixels rays_per_second) = true.
Hypothesis Htrace : forall r, P (trace_call r) = true.
Hypothesis Hdisplay :
  display_progress self = false
  \/ (P print_refreshing = true /\ forall f, P (display_call f) = true).

Ltac silent := apply emits_silent; intros ?; reflexivity.

Lemma progress_report_emits (total_pixels total_work channels index y x : Z) :
  emits P (progress_report self total_pixels total_work channels index y x).
Proof.
  unfold progress_report. destruct (_pixels self) as [w h].
  apply emits_bind; [apply emits_now|]. intros t.
  apply emits_bind; [silent|]. intros pt.
  destruct (ltb (of_Z 1) (sub t pt)); [|silent].
  apply emits_bind; [silent|]. intros completion.
  apply emits_bind; [silent|]. intros rc.
  apply emits_bind; [silent|]. intros rays_per_second.
  apply emits_bind; [apply emits_print, Hprogress|]. intros _.
  apply emits_bind; [silent|]. intros _.
  apply emits_bind; [apply emits_now | intros t'; silent].
Qed.

Lemma display_refresh_emits : emits P (display_refresh self).
Proof.
  unfold display_refresh.
  destruct (display_progress self) eqn:Ed; [|silent].
  destruct Hdisplay as [|[Hr Hd]]; [discriminate|].
  apply emits_bind; [apply emits_now|]. intros t.
  apply emits_bind; [silent|]. intros dtm.
  destruct (py_gtb _ _); [|silent].
  apply emits_bind; [now apply emits_print|]. intros _.
  apply emits_bind; [now apply emits_display|]. intros _.
  apply emits_bind; [apply emits_now | intros t'; silent].
Qed.

Lemma sample_pixel_emits (ip : pynum T * pynum T * pynum T)
      (total_samples : Z) (tb : Table) (ray : Ray.t T)
      (upper_index y x : Z) :
  emits P (sample_pixel self ip total_samples tb ray upper_index y x).
Proof.
  unfold sample_pixel.
  apply emits_bind; [silent|]. intros sp.
  apply emits_bind.
  { intros s. unfold trace. destruct (ray_trace _ (world s)) as [w' r].
    eexists. split; [reflexivity|]. cbn. now rewrite Htrace. }
  intros [sample n].
  apply emits_bind; [silent|]. intros li.
  apply emits_bind; [silent|]. intros samples.
  apply emits_bind; [silent|]. intros _.
  apply emits_bind; [silent|]. intros xf.
  apply emits_bind; [silent|]. intros p.
  apply emits_bind; [silent|]. intros xf'.
  apply emits_bind; [silent|]. intros _.
  apply emits_bind; [silent|]. intros f.
  apply emits_bind; [silent | intros f'; silent].
Qed.

Lemma render_emits (g : setting) : emits P (render self g).
Proof.
  intros s. rewrite render_loop_items. revert s.
  apply emits_bind; [silent|]. intros _.
  apply emits_for_each. intros [index ray y x|index]; cbn [do_item].
  - unfold pixel_body.
    apply emits_bind; [apply progress_report_emits|]. intros _.
    apply emits_bind; [apply sample_pixel_emits|]. intros _.
    apply display_refresh_emits.
  - silent.
Qed.

Lemma setup_emits : emits P (setup self).
Proof.
  unfold setup. destruct (_pixels self) as [w h].
  apply emits_bind; [silent|]. intros xf.
  apply emits_bind; [silent|]. intros _.
  apply emits_bind; [silent|]. intros f.
  apply emits_bind; [silent|]. intros _.
  destruct (negb (isinstance_World (root self))); [silent|].
  apply emits_bind; [silent|]. intros ip.
  apply emits_bind; [silent|]. intros tb.
  apply emits_bind; [silent|]. intros rl.
  apply emits_bind; [silent|]. intros _.
  apply emits_bind; [apply emits_now|]. intros t0.
  apply emits_bind; [apply emits_now|]. intros t1.
  apply emits_bind; [silent|]. intros _.
  apply emits_bind; [silent|]. intros _.
  apply emits_bind; [|intros _; silent].
  destruct (display_progress self) eqn:Ed; [|silent].
  destruct Hdisplay as [|[Hr Hd]]; [discriminate|].
  apply emits_bind; [now apply emits_display|]. intros _.
  apply emits_bind; [apply emits_now | intros t; silent].
Qed.

End Emits.

Section Output.
Context {T : Type} `{Arith T} {C : Collab T}.

(** X3.  With [display_progress] off, [observe] never calls [self.display()]
    and never announces a refresh, however it ends: what it appends to the
    output holds neither. *)
Theorem no_display_when_off (self : PinholeCamera) (s : state) :
  display_progress self = false ->
  exists evs,
    out (snd (observe self s)) = out s ++ evs
    /\ forallb (fun ev => negb (is_display ev)) evs = true.
Proof.
  intros Hoff. rewrite observe_phases. revert s.
  change (emits (fun ev => negb (is_display ev))
                (g <- setup self ;;
                 render self g ;;; finish self (s_start_time g))).
  apply emits_bind.
  { apply setup_emits. now left. }
  intros g.
  apply emits_bind.
  { apply render_emits; [intros; reflexivity | intros; reflexivity | now left]. }
  intros _.
  unfold finish. rewrite Hoff.
  apply emits_bind; [apply emits_now|]. intros t.
  apply emits_bind; [now apply emits_print|]. intros _.
  apply emits_silent. reflexivity.
Qed.

(** X4.  The line "Render complete" is printed exactly when [observe] returns
    normally, once, after everything else but the last call of
    [self.display()], which shows the frame that [observe] leaves; a run
    that raises does not print it. *)
Theorem render_complete_closes (self : PinholeCamera) (s : state) :
  let s' := snd (observe self s) in
  exists evs,
    forallb (fun ev => negb (is_complete ev)) evs = true
    /\ match fst (observe self s) with
       | Ok _ =>
           exists elapsed,
             out s' = out s ++ evs ++ print_complete elapsed
                                   :: (if display_progress self
                                       then [display_call (frame s')]
                                       else [])
       | Raise _ => out s' = out s ++ evs
       end.
Proof.
  cbv zeta. rewrite observe_phases, bind_run.
  assert (Hd : display_progress self = false
               \/ (negb (is_complete (@print_refreshing T)) = true
                   /\ forall f : image T,
                       negb (is_complete (display_call f)) = true))
    by (right; split; reflexivity).
  destruct (setup_emits (fun ev => negb (is_complete ev)) self Hd s)
    as [evs0 [E0 P0]].
  destruct (setup self s) as [[g|e] s0]; cbn [fst snd] in *;
    [|exists evs0; auto].
  rewrite bind_run.
  destruct (render_emits (fun ev => negb (is_complete ev)) self
                         ltac:(reflexivity) ltac:(reflexivity) Hd g s0)
    as [evs1 [E1 P1]].
  destruct (render self g s0) as [[[]|e] s1]; cbn [fst snd] in *.
  - exists (evs0 ++ evs1). rewrite forallb_app, P0, P1.
    split; [reflexivity|].
    unfold finish, bind, now, print, display, modify, ret.
    destruct (time (clock s1)) as [t c].
    destruct (display_progress self); cbn; eexists;
      rewrite E1, E0, <- !app_assoc; reflexivity.
  - exists (evs0 ++ evs1). rewrite forallb_app, P0, P1, E1, E0, app_assoc.
    auto.
Qed.

End Output.

(** At a camera of two pixels with the display off. *)
Lemma no_display_when_off_witness :
  let self :=
    mkCamera (C := Sample.float_world None) (2, 1) (PyInt 40) 1 2
             (PyFloat 375%float) (PyFloat 740%float) 15 false
             (PyFloat 10%float) RootWorld tt in
  let s := mkState (C := Sample.float_world None) [] [] 0 0%float
                   (PyInt 0) 0 0%nat 0%float [] in
  display_progress self = false
  /\ exists evs,
      out (snd (observe self s)) = out s ++ evs
      /\ forallb (fun ev => negb (is_display ev)) evs = true.
Proof.
  intros self s. split; [reflexivity|].
  exact (no_display_when_off self s eq_refl).
Defined.

(** ** The reset of the frames *)

Section ResetFrames.
Context {T : Type} `{Arith T} {C : Collab T}.

(** What a successful set-up has written to the output: with
    [display_progress] on, the one call of [self.display()], which shows the
    zeros of the reset. *)
Lemma setup_out (self : PinholeCamera) (s s0 : state) (g : setting) :
  setup self s = (Ok g, s0) ->
  out s0
  = out s ++ if display_progress self
             then [display_call (zero_image (snd (_pixels self))
                                            (fst (_pixels self)))]
             else [].
Proof.
  unfold setup. destruct (_pixels self) as [w h]. cbn [fst snd].
  destruct s as [f x rc pt dt li wd c o].
  rewrite zeros3_cases.
  destruct (Z.leb_spec 0 h) as [Hh|]; [|step_state; discriminate].
  destruct (Z.leb_spec 0 w) as [Hw|]; [|step_state; discriminate].
  step_state.
  destruct (isinstance_World (root self)); [|discriminate].
  destruct (image_plane self) as [ip|e]; [|discriminate].
  destruct (resample_ciexyz _ _ _) as [tb|e]; [|discriminate].
  destruct (generate_rays self) as [rl|e]; [|discriminate].
  destruct (time c) as [t0 c0].
  destruct (time c0) as [t1 c1].
  destruct (display_progress self).
  - destruct (time c1) as [t2 c2]. intros E. injection E as <- <-.
    reflexivity.
  - intros E. injection E as <- <-. cbn. now rewrite app_nil_r.
Qed.

Lemma untouched_writes_nothing {A} (blank : image T) (base : nat) (m : M A) :
  writes_nothing m -> keeps (untouched blank base) m.
Proof.
  intros Hm s Hs. destruct (Hm s) as [Ef [Ex [_ [_ [evs [Eo Et]]]]]].
  unfold untouched.
  rewrite Ef, Ex, Eo, trace_calls_app, Et, app_nil_r. exact Hs.
Qed.

(** A pixel writes the frames only after the tracer has returned. *)
Lemma sample_pixel_untouched (self : PinholeCamera)
      (ip : pynum T * pynum T * pynum T) (total_samples : Z) (tb : Table)
      (ray : Ray.t T) (upper_index y x : Z) (blank : image T) (base : nat) :
  keeps (untouched blank base)
        (sample_pixel self ip total_samples tb ray upper_index y x).
Proof.
  intros s Hs.
  assert (Hcall : forall s' : state,
             length (trace_calls (out s'))
             = S (length (trace_calls (out s))) ->
             untouched blank base s').
  { intros s' E. right. rewrite E. destruct Hs as [[_ [_ <-]]|Hs]; lia. }
  assert (Hlen : forall r : Ray.t T,
             length (trace_calls (out s ++ [trace_call r]))
             = S (length (trace_calls (out s)))).
  { intros r. rewrite trace_calls_app, length_app. cbn. lia. }
  unfold sample_pixel, bind, lift, trace, gets, modify.
  destruct (Spectrum_new _ _ _) as [sp|e]; [|exact Hs].
  destruct (ray_trace _ (world s)) as [w' [[sample n]|e]];
    [|apply Hcall, Hlen].
  destruct (slice_assign _ _ _ _) as [samples|e]; [|apply Hcall, Hlen].
  destruct (image_get _ _ _) as [p|e]; [|apply Hcall, Hlen].
  destruct (image_set _ _ _ _) as [xf'|e]; [|apply Hcall, Hlen].
  destruct (image_set _ _ _ _) as [f'|e]; apply Hcall, Hlen.
Qed.

Lemma do_item_untouched (self : PinholeCamera) (g : setting) (it : item)
      (blank : image T) (base : nat) :
  keeps (untouched blank base) (do_item self g it).
Proof.
  destruct it as [index ray y x|index]; cbn [do_item].
  - unfold pixel_body. apply keeps_bind.
    { apply untouched_writes_nothing, progress_report_writes_nothing. }
    intros _. apply keeps_bind; [apply sample_pixel_untouched|].
    intros _. apply untouched_writes_nothing, display_refresh_writes_nothing.
  - intros s Hs. exact Hs.
Qed.

(** C9, as amended.  For pixel counts that are not negative, [observe]
    starts by replacing both frames with zeros:

    - whatever the set-up returns, it leaves both frames all zero, and the
      loop runs from there;
    - a run that has not called the tracer - because the set-up raised,
      because there was nothing to scan, or because the first pixel failed
      before its trace - ends with both frames all zero, whatever they
      held before;
    - with [display_progress] on, the first thing a run shows after a
      successful set-up is the all-zero frame;
    - and what the run returns and leaves (result, both frames, world,
      clock, output) does not depend on the frames, nor on anything else,
      that an earlier invocation left: two runs from the same world, clock
      and output agree. *)
Theorem observe_resets_frames (self : PinholeCamera) (s s' : state) :
  0 <= fst (_pixels self) ->
  0 <= snd (_pixels self) ->
  let blank := zero_image (snd (_pixels self)) (fst (_pixels self)) in
  (frame (snd (setup self s)) = blank
   /\ xyz_frame (snd (setup self s)) = blank
   /\ observe self s
      = (g <- setup self ;; render self g ;;; finish self (s_start_time g)) s)
  /\ (trace_calls (out (snd (observe self s))) = trace_calls (out s) ->
      frame (snd (observe self s)) = blank
      /\ xyz_frame (snd (observe self s)) = blank)
  /\ (display_progress self = true ->
      is_Ok (fst (setup self s)) = true ->
      exists evs,
        out (snd (observe self s)) = out s ++ display_call blank :: evs)
  /\ (scene_of s = scene_of s' ->
      outcome (observe self s) = outcome (observe self s')).
Proof.
  intros Hw Hh blank.
  destruct (setup_resets self s Hw Hh) as [Ef Ex].
  split; [split; [exact Ef|]; split; [exact Ex | apply observe_phases]|].
  split; [|split].
  - (* no call of the tracer, no write *)
    intros Hcalls.
    assert (Hend : untouched blank (length (trace_calls (out s)))
                             (snd (observe self s))).
    { rewrite observe_phases, bind_run.
      pose proof (setup_traces_nothing self s) as Hset.
      destruct (setup self s) as [[g|e] s0]; cbn [snd] in *.
      - refine (@keeps_bind _ _ _ _ _ _ _ _ _ s0 _).
        + intros s1 Hs1. rewrite render_loop_items.
          refine (@keeps_bind _ _ _ _ _ _ _ _ _ s1 Hs1).
          * intros s2 Hs2. exact Hs2.
          * intros _. apply keeps_for_each. intros it _.
            apply do_item_untouched.
        + intros _. apply untouched_writes_nothing, finish_writes_nothing.
        + left. now rewrite Ef, Ex, Hset.
      - left. now rewrite Ef, Ex, Hset. }
    destruct Hend as [[Ef' [Ex' _]]|Hlt]; [auto|].
    rewrite Hcalls in Hlt. lia.
  - (* the first display *)
    intros Hon Hok. rewrite observe_phases, bind_run.
    destruct (setup self s) as [[g|e] s0] eqn:Hs; [|discriminate].
    apply setup_out in Hs. rewrite Hon in Hs. fold blank in Hs.
    assert (Hd : display_progress self = false
                 \/ ((fun _ : @event T => true) print_refreshing = true
                     /\ forall f : image T,
                         (fun _ : @event T => true) (display_call f) = true))
      by (right; split; reflexivity).
    rewrite bind_run.
    destruct (render_emits (fun _ => true) self
                           ltac:(reflexivity) ltac:(reflexivity) Hd g s0)
      as [evs1 [E1 _]].
    destruct (render self g s0) as [[[]|e] s1]; cbn [fst snd] in *.
    + destruct (finish_writes_nothing self (s_start_time g) s1)
        as [_ [_ [_ [_ [evs2 [E2 _]]]]]].
      exists (evs1 ++ evs2).
      rewrite E2, E1, Hs, <- !app_assoc. reflexivity.
    + exists evs1. rewrite E1, Hs, <- app_assoc. reflexivity.
  - intros Hscene. now apply outcome_ignores_frames.
Qed.

End ResetFrames.

(** A second invocation, run from an image that a first one left, and run
    again from other frames. *)
Lemma observe_resets_frames_witness :
  let self :=
    Sample.float_camera None (2, 1) (PyInt 40) 2 2
                        (PyFloat 375%float) (PyFloat 740%float) RootWorld in
  let image := [[(8%float, 8%float, 8%float); (8%float, 8%float, 8%float)]] in
  let blank := [[(0%float, 0%float, 0%float); (0%float, 0%float, 0%float)]] in
  let s := mkState (C := Sample.float_world None) image image 0 0%float
                   (PyInt 0) 0 0%nat 0%float [] in
  let s' := mkState (C := Sample.float_world None) [] [] 7 1%float
                    (PyInt 3) 5 0%nat 0%float [] in
  (0 <= fst (_pixels self) /\ 0 <= snd (_pixels self))
  /\ frame (snd (setup self s)) = blank
  /\ xyz_frame (snd (setup self s)) = blank
  /\ (exists evs, out (snd (observe self s)) = display_call blank :: evs)
  /\ outcome (observe self s) = outcome (observe self s').
Proof.
  intros self image blank s s'.
  assert (Hw : 0 <= fst (_pixels self)) by (simpl; lia).
  assert (Hh : 0 <= snd (_pixels self)) by (simpl; lia).
  split; [auto|].
  destruct (@observe_resets_frames _ _ _ self s s' Hw Hh)
    as [[Ef [Ex _]] [_ [Hshow Hsame]]].
  split; [exact Ef|]. split; [exact Ex|].
  split; [|apply Hsame; reflexivity].
  apply Hshow; [reflexivity | vm_compute; reflexivity].
Defined.

(** C9 as stated fails for a camera whose pixel counts were set to
    [(-1, 5)], which the setter accepts: [observe] raises ValueError before
    it has reset anything, so the frame that an earlier invocation left is
    still there, and what the invocation leaves depends on it. *)
Lemma negative_count_keeps_frame :
  let self :=
    Sample.float_camera None (-1, 5) (PyInt 40) 1 2
                        (PyFloat 375%float) (PyFloat 740%float) RootWorld in
  let image := [[(1%float, 1%float, 1%float)]] in
  let image' := [[(2%float, 2%float, 2%float)]] in
  let s := mkState (C := Sample.float_world None) image image 0 0%float
                   (PyInt 0) 0 0%nat 0%float [] in
  let s' := mkState (C := Sample.float_world None) image' image' 0 0%float
                    (PyInt 0) 0 0%nat 0%float [] in
  set_pixels [-1; 5] = Ok (-1, 5)
  /\ scene_of s = scene_of s'
  /\ fst (observe self s) = Raise ValueError
  /\ frame (snd (observe self s)) = image
  /\ xyz_frame (snd (observe self s)) = image
  /\ frame (snd (observe self s')) = image'.
Proof.
  cbv zeta. repeat split.
Qed.

(** ** Runs that end before the first pixel *)

Section EarlyExit.
Context {T : Type} `{Arith T} {C : Collab T}.

(** X5.  A negative pixel count is refused by numpy's [zeros] before anything
    else happens: [observe] raises ValueError and nothing has changed, not
    even [self.frame]. *)
Theorem observe_negative_pixels (self : PinholeCamera) (s : state) :
  fst (_pixels self) < 0 \/ snd (_pixels self) < 0 ->
  observe self s = (Raise ValueError, s).
Proof.
  intros Hneg. unfold observe. destruct (_pixels self) as [w h].
  cbn [fst snd] in Hneg. unfold bind, lift. rewrite zeros3_cases.
  destruct (Z.leb_spec 0 h), (Z.leb_spec 0 w); cbn [andb];
    try reflexivity; lia.
Qed.

(** The set-up of the image plane raises for no other reason than the
    field of view: OverflowError when it is an [int] beyond the range of a
    double, ValueError from [math.tan] when the tangent of the half angle is
    undefined; and only when there is more than one pixel one way. *)
Lemma image_plane_raises (self : PinholeCamera) (e : exn) :
  image_plane self = Raise e ->
  (e = ValueError \/ e = OverflowError)
  /\ 1 < Z.max (fst (_pixels self)) (snd (_pixels self)).
Proof.
  unfold image_plane. destruct (_pixels self) as [w h]. cbn [fst snd].
  destruct (Z.ltb_spec 1 (Z.max w h)) as [Hmax|]; [|discriminate].
  unfold py_truediv. cbn [py_is_zero].
  destruct (Z.eqb_spec 180 0); [discriminate|].
  destruct (Z.eqb_spec (Z.max w h - 1) 0); [lia|].
  cbn [py_mul py_mul_checked as_double to_float].
  destruct (_fov self) as [z|f]; cbn [as_double].
  - destruct (is_inf (of_Z z)).
    + intros E. injection E as <-. auto.
    + cbn [to_float]. unfold py_tan.
      destruct (is_inf _); [intros E; injection E as <-; auto|].
      destruct (_ && _); [intros E; injection E as <-; auto|].
      destruct (_ && _); [intros E; injection E as <-; auto|discriminate].
  - cbn [to_float]. unfold py_tan.
    destruct (is_inf _); [intros E; injection E as <-; auto|].
    destruct (_ && _); [intros E; injection E as <-; auto|].
    destruct (_ && _); [intros E; injection E as <-; auto|discriminate].
Qed.

(** X6.  With a channel count of zero the division that computes the width of
    a channel raises: [observe] ends with ZeroDivisionError, unless the
    set-up of the image plane has raised before it (ValueError from
    [math.tan], or OverflowError, for a field of view it cannot take), and
    then with that exception.  Either way it has reset both frames, and has
    not read the clock, shown or printed anything, or called the tracer. *)
Theorem observe_zero_channels (self : PinholeCamera) (s : state)
        (tb : Table) :
  0 <= fst (_pixels self) -> 0 <= snd (_pixels self) ->
  isinstance_World (root self) = true ->
  resample_ciexyz (to_float (min_wavelength self))
                  (to_float (max_wavelength self))
                  (rays self * spectral_samples self) = Ok tb ->
  rays self = 0 ->
  let blank := zero_image (snd (_pixels self)) (fst (_pixels self)) in
  observe self s
  = (Raise match image_plane self with
           | Ok _ => ZeroDivisionError
           | Raise e => e
           end,
     set_frame blank (set_xyz_frame blank s))
  /\ forall e, image_plane self = Raise e ->
               (e = ValueError \/ e = OverflowError)
               /\ 1 < Z.max (fst (_pixels self)) (snd (_pixels self)).
Proof.
  intros Hw Hh Hroot Hres Hrays blank. subst blank.
  split; [|apply image_plane_raises].
  unfold observe. destruct (_pixels self) as [w h]. cbn [fst snd] in *.
  destruct s as [f x rc pt dt li wd c o].
  rewrite zeros3_cases, Hroot.
  destruct (Z.leb_spec 0 h); [|lia]. destruct (Z.leb_spec 0 w); [|lia].
  destruct (image_plane self) as [ip|e].
  - rewrite Hres, generate_rays_cases, Hrays. step_state. reflexivity.
  - step_state. reflexivity.
Qed.

(** X7.  A camera that is not attached to a World loses its image all the
    same: [observe] has replaced [self.frame] by zeros when it raises
    TypeError, and has changed nothing else. *)
Theorem unattached_observe_wipes_frame (self : PinholeCamera) (s : state) :
  0 <= fst (_pixels self) -> 0 <= snd (_pixels self) ->
  isinstance_World (root self) = false ->
  let blank := zero_image (snd (_pixels self)) (fst (_pixels self)) in
  observe self s = (Raise TypeError, set_frame blank (set_xyz_frame blank s)).
Proof.
  intros Hw Hh Hroot blank. subst blank.
  unfold observe. destruct (_pixels self) as [w h]. cbn [fst snd] in *.
  destruct s as [f x rc pt dt li wd c o].
  rewrite zeros3_cases, Hroot.
  destruct (Z.leb_spec 0 h); [|lia]. destruct (Z.leb_spec 0 w); [|lia].
  step_state. reflexivity.
Qed.




End EarlyExit.

(** At a camera whose pixel counts were set to [(-1, 5)]. *)
Lemma observe_negative_pixels_witness :
  let self :=
    Sample.float_camera None (-1, 5) (PyInt 40) 1 2
                        (PyFloat 375%float) (PyFloat 740%float) RootWorld in
  let s := mkState (C := Sample.float_world None) [] [] 0 0%float
                   (PyInt 0) 0 0%nat 0%float [] in
  (fst (_pixels self) < 0 \/ snd (_pixels self) < 0)
  /\ observe self s = (Raise ValueError, s).
Proof.
  intros self s.
  assert (Hneg : fst (_pixels self) < 0 \/ snd (_pixels self) < 0)
    by (left; simpl; lia).
  split; [exact Hneg|].
  exact (observe_negative_pixels self s Hneg).
Defined.

(** At a camera of 2 by 1 pixels without a World, holding an image. *)
Lemma unattached_observe_wipes_frame_witness :
  let self :=
    Sample.float_camera None (2, 1) (PyInt 40) 1 2
                        (PyFloat 375%float) (PyFloat 740%float) RootOther in
  let image := [[(1%float, 1%float, 1%float); (1%float, 1%float, 1%float)]] in
  let s := mkState (C := Sample.float_world None) image [] 0 0%float
                   (PyInt 0) 0 0%nat 0%float [] in
  (0 <= fst (_pixels self) /\ 0 <= snd (_pixels self)
   /\ isinstance_World (root self) = false)
  /\ fst (observe self s) = Raise TypeError
  /\ frame (snd (observe self s))
     = [[(0%float, 0%float, 0%float); (0%float, 0%float, 0%float)]].
Proof.
  intros self image s.
  assert (Hw : 0 <= fst (_pixels self)) by (simpl; lia).
  assert (Hh : 0 <= snd (_pixels self)) by (simpl; lia).
  split; [repeat split; assumption|].
  rewrite (unattached_observe_wipes_frame self s Hw Hh eq_refl).
  split; reflexivity.
Defined.

(** At two cameras of 2 by 1 pixels with [rays = 0]: one with a field of
    view of 40 degrees, one whose field of view was set to infinity, which
    the setter lets pass. *)
Lemma observe_zero_channels_witness :
  let self :=
    Sample.float_camera None (2, 1) (PyInt 40) 0 2
                        (PyFloat 375%float) (PyFloat 740%float) RootWorld in
  let wide :=
    Sample.float_camera None (2, 1) (PyFloat infinity) 0 2
                        (PyFloat 375%float) (PyFloat 740%float) RootWorld in
  let s := mkState (C := Sample.float_world None) [] [] 0 0%float
                   (PyInt 0) 0 0%nat 0%float [] in
  (0 <= fst (_pixels self) /\ 0 <= snd (_pixels self)
   /\ isinstance_World (root self) = true /\ rays self = 0)
  /\ set_fov (PyFloat infinity) = Ok (PyFloat infinity)
  /\ (fst (observe self s) = Raise ZeroDivisionError
      /\ out (snd (observe self s)) = [])
  /\ (fst (observe wide s) = Raise ValueError
      /\ frame (snd (observe wide s))
         = [[(0%float, 0%float, 0%float); (0%float, 0%float, 0%float)]]).
Proof.
  intros self wide s.
  assert (Hw : 0 <= fst (_pixels self)) by (simpl; lia).
  assert (Hh : 0 <= snd (_pixels self)) by (simpl; lia).
  split; [repeat split; assumption|].
  split; [reflexivity|].
  destruct (observe_zero_channels self s tt Hw Hh eq_refl eq_refl eq_refl)
    as [E _].
  destruct (observe_zero_channels wide s tt Hw Hh eq_refl eq_refl eq_refl)
    as [E' _].
  split.
  - replace (observe self s) with
      (@Raise unit ZeroDivisionError,
       set_frame (zero_image 1 2) (set_xyz_frame (zero_image 1 2) s))
      by (symmetry; exact E).
    split; reflexivity.
  - replace (observe wide s) with
      (@Raise unit ValueError,
       set_frame (zero_image 1 2) (set_xyz_frame (zero_image 1 2) s))
      by (symmetry; exact E').
    split; reflexivity.
Defined.


(** ** The image plane *)

Section ImagePlaneExact.
Context {C : Collab R}.
Local Open Scope R_scope.

Lemma plane_offset_R (start delta : pynum R) (k : Z) :
  plane_offset start delta k = to_float start - to_float delta * IZR k.
Proof.
  unfold plane_offset.
  rewrite to_float_py_sub_R, to_float_py_mul_R. reflexivity.
Qed.

(** X9.  In exact arithmetic.  The image plane is always defined: no frame size
    and no field of view makes its divisions fail.  The pixels are one
    step [image_delta] apart along both axes; and when the longer side
    has more than one pixel, its [max_pixels - 1] steps span
    [2 * tan(fov / 2)], the width of the field of view at unit distance. *)
Theorem field_of_view_spans_longer_side (self : PinholeCamera (T := R)) :
  let max_pixels := Z.max (fst (_pixels self)) (snd (_pixels self)) in
  exists delta start_x start_y,
    image_plane self = Ok (delta, start_x, start_y)
    /\ (forall x y,
           camera_direction (delta, start_x, start_y) x y
           = normalise (mkVector (plane_offset start_x delta x)
                                 (plane_offset start_y delta y) 1))
    /\ (forall k, plane_offset start_x delta k
                  - plane_offset start_x delta (k + 1) = to_float delta)
    /\ (forall k, plane_offset start_y delta k
                  - plane_offset start_y delta (k + 1) = to_float delta)
    /\ ((1 < max_pixels)%Z ->
        to_float delta * IZR (max_pixels - 1)
        = 2 * math_tan (PI / 180 * (1 / 2) * to_float (_fov self)))
    /\ ((max_pixels <= 1)%Z -> to_float delta = 0).
Proof.
  intros max_pixels.
  assert (Hsteps : forall start delta k,
             plane_offset start delta k - plane_offset start delta (k + 1)
             = to_float delta).
  { intros start delta k. rewrite !plane_offset_R, plus_IZR. ring. }
  destruct (Z.ltb_spec 1 max_pixels) as [Hm|Hm].
  - do 3 eexists. split; [apply image_plane_R; exact Hm|].
    split; [reflexivity|]. split; [apply Hsteps|]. split; [apply Hsteps|].
    split; [|lia]. intros _. cbn [to_float]. unfold image_delta_R.
    fold max_pixels. field. apply not_0_IZR. lia.
  - exists (PyInt 0), (PyInt 0), (PyInt 0). split.
    { unfold image_plane. subst max_pixels.
      destruct (_pixels self) as [w h]. cbn [fst snd] in Hm.
      destruct (Z.ltb_spec 1 (Z.max w h)); [lia | reflexivity]. }
    split; [reflexivity|]. split; [apply Hsteps|]. split; [apply Hsteps|].
    split; [lia | reflexivity].
Qed.

End ImagePlaneExact.

(** ** The debug light in binary64 *)

Section LightFloat.
Context {C : Collab float}.

Lemma is_nan_SF (f : float) : PrimFloat.is_nan f = true -> Prim2SF f = S754_nan.
Proof.
  unfold PrimFloat.is_nan. rewrite eqb_spec. unfold SFeqb, SFcompare.
  destruct (Prim2SF f) as [s|s| |s m e]; try reflexivity.
  - destruct s; discriminate.
  - destruct s; discriminate.
  - destruct s; rewrite Z.compare_refl, Pos.compare_refl; discriminate.
Qed.

(** Neither a NaN nor a float that is at most zero is greater than zero. *)
Lemma not_positive_float (f : float) :
  PrimFloat.is_nan f = true \/ PrimFloat.leb f 0%float = true ->
  PrimFloat.ltb (Z2float 0) f = false.
Proof.
  rewrite ltb_spec, leb_spec.
  change (Prim2SF (Z2float 0)) with (S754_zero false).
  change (Prim2SF 0%float) with (S754_zero false).
  intros [Hn|Hle].
  - now rewrite (is_nan_SF f Hn).
  - unfold SFleb, SFltb, SFcompare in *.
    destruct (Prim2SF f) as [s|s| |s m e]; try reflexivity;
      destruct s; try reflexivity; discriminate.
Qed.

(** X10.  In binary64.  A light made with an intensity that is not greater than
    zero - an int that is at most zero, a float that is at most zero, a
    NaN - stores the int 0, and its surface is dark for every ray that
    asks for [n >= 0] samples: [evaluate_surface] returns [n] zeros,
    whatever the direction, the normal and the spectrum. *)
Theorem unlit_surface_is_dark
        (d65_white : SpectralFunction) (direction : Vector float)
        (intensity0 : pynum float) (sp : option SpectralFunction)
        (ray : Ray.t float) (normal : Vector float)
        (to_local : AffineMatrix) :
  let self := Light_init d65_white direction intensity0 sp in
  match intensity0 with
  | PyInt z => z <= 0
  | PyFloat f => PrimFloat.is_nan f = true \/ PrimFloat.leb f 0%float = true
  end ->
  0 <= Ray.num_samples ray ->
  intensity self = PyInt 0
  /\ evaluate_surface self ray normal to_local
     = Ok (Spectrum.make (Ray.min_wavelength ray) (Ray.max_wavelength ray)
                         (repeat 0%float (Z.to_nat (Ray.num_samples ray)))).
Proof.
  intros self Hint Hn.
  assert (Hi : intensity self = PyInt 0).
  { unfold self, Light_init. cbn [intensity]. unfold py_max, py_gtb, py_ltb.
    destruct intensity0 as [z|f].
    - destruct (Z.ltb_spec 0 z); [lia | reflexivity].
    - cbn [to_float of_Z ltb float_arith].
      now rewrite (not_positive_float f Hint). }
  split; [exact Hi|].
  rewrite evaluate_surface_cases. cbv zeta. rewrite Hi.
  destruct (Z.leb_spec 0 (Ray.num_samples ray)); [|lia].
  reflexivity.
Qed.

End LightFloat.

(** At a light made with a NaN intensity. *)
Lemma unlit_surface_is_dark_witness :
  let flat : SpectralFunction (T := float) :=
    fun _ _ n => repeat 1%float (Z.to_nat n) in
  let ray :=
    Ray.new 375%float 740%float 3 15 (mkPoint 0%float 0%float 0%float)
            (mkVector 0%float 0%float 1%float) in
  (PrimFloat.is_nan nan = true \/ PrimFloat.leb nan 0%float = true)
  /\ evaluate_surface (C := Sample.float_world None)
       (Light_init flat (mkVector 0%float 0%float (-1)%float)
                   (PyFloat nan) None)
       ray (mkVector 0%float 0%float 1%float) tt
     = Ok (Spectrum.make 375%float 740%float [0%float; 0%float; 0%float]).
Proof.
  intros flat ray.
  assert (Hnan : PrimFloat.is_nan nan = true \/ PrimFloat.leb nan 0%float = true)
    by (left; reflexivity).
  assert (Hn : 0 <= Ray.num_samples ray) by (simpl; lia).
  split; [exact Hnan|].
  exact (proj2 (unlit_surface_is_dark (C := Sample.float_world None) flat
                  (mkVector 0%float 0%float (-1)%float) (PyFloat nan) None
                  ray (mkVector 0%float 0%float 1%float) tt Hnan Hn)).
Defined.

(** ** The display frame after a run that returns *)

Section FreshPixels.
Context {T : Type} `{Arith T} {C : Collab T}.
Variable self : PinholeCamera.
Variable g : setting.
Variables h w : nat.

(** A pixel that returns has written the accumulated pixel and its colour
    mapping at one place, the place of its indices. *)
Lemma sample_pixel_writes (ray : Ray.t T) (upper_index y x : Z)
      (s s' : state) :
  sample_pixel self (s_plane g) (s_total_samples g) (s_table g) ray
               upper_index y x s = (Ok tt, s') ->
  shaped h w s ->
  exists j i acc,
    np_index (Z.of_nat h) y = Ok j
    /\ np_index (Z.of_nat w) x = Ok i
    /\ xyz_frame s' = image_put (xyz_frame s) j i acc
    /\ frame s'
       = image_put (frame s) j i
           (ciexyz_to_srgb (fst (fst acc)) (snd (fst acc)) (snd acc)).
Proof.
  intros E [Hf Hx]. revert E.
  unfold sample_pixel, bind, lift, trace, gets, modify.
  destruct (Spectrum_new _ _ _) as [sp|e]; [|discriminate].
  destruct (ray_trace _ (world s)) as [w' [[sample n]|e]]; [|discriminate].
  cbn [lower_index set_world set_out frame xyz_frame].
  destruct (slice_assign _ _ _ _) as [samples|e]; [|discriminate].
  cbn [set_world set_out set_ray_count frame xyz_frame].
  rewrite image_get_cases, (shape_repeat_length _ _ _ Hx).
  destruct (np_index (Z.of_nat h) y) as [j|e] eqn:Ej; [|discriminate].
  pose proof (np_index_Ok _ _ Ej) as Hj.
  rewrite (shape_repeat_row _ _ Hx Hj).
  destruct (np_index (Z.of_nat w) x) as [i|e] eqn:Ei; [|discriminate].
  rewrite image_set_cases, (shape_repeat_length _ _ _ Hx), Ej,
    (shape_repeat_row _ _ Hx Hj), Ei.
  cbn [set_world set_out set_ray_count set_xyz_frame frame xyz_frame].
  rewrite image_set_cases, (shape_repeat_length _ _ _ Hf), Ej,
    (shape_repeat_row _ _ Hf Hj), Ei.
  intros E. injection E as <-.
  cbn [set_frame set_world set_out set_ray_count set_xyz_frame frame
       xyz_frame].
  do 3 eexists. repeat split; reflexivity.
Qed.

Lemma shaped_keeps (it : item) : keeps (shaped h w) (do_item self g it).
Proof.
  intros s [Hf Hx]. unfold shaped.
  assert (Hshows : shape (frame s) = shape (xyz_frame s)) by congruence.
  destruct it as [index ray y x|index]; cbn [do_item]; [|now split].
  unfold pixel_body. rewrite bind_run.
  destruct (progress_report_writes_nothing self (s_total_pixels g)
              (s_total_work g) (Z.of_nat (length (s_rays g))) index y x s)
    as [Ef [Ex _]].
  destruct (progress_report _ _ _ _ _ _ _ s) as [[[]|e] s1]; cbn [snd] in *;
    [|now rewrite Ef, Ex].
  rewrite bind_run.
  destruct (sample_pixel _ _ _ _ _ _ _ _ s1) as [[[]|e] s2] eqn:E2;
    cbn [snd].
  - destruct (sample_pixel_writes ray _ y x s1 s2 E2)
      as [j [i [acc [_ [_ [Ex2 Ef2]]]]]].
    { split; congruence. }
    destruct (display_refresh_writes_nothing self s2) as [Ef3 [Ex3 _]].
    rewrite Ef3, Ex3, Ef2, Ex2, !shape_image_put, Ef, Ex. now split.
  - pose proof (sample_pixel_xyz_shape self (s_plane g) (s_total_samples g)
                  (s_table g) ray (spectral_samples self * (index + 1))
                  y x s1) as Hx2.
    rewrite E2 in Hx2. cbn [snd] in Hx2.
    assert (Hf2 : frame s2 = frame s1 \/ shape (frame s2) = shape (frame s1)).
    { revert E2. unfold sample_pixel, bind, lift, trace, gets, modify.
      destruct (Spectrum_new _ _ _) as [sp|e']; [|intros E; injection E as _ <-; now left].
      destruct (ray_trace _ (world s1)) as [w' [[sample n]|e']];
        [|intros E; injection E as _ <-; now left].
      destruct (slice_assign _ _ _ _) as [samples|e'];
        [|intros E; injection E as _ <-; now left].
      destruct (image_get _ _ _) as [p|e'];
        [|intros E; injection E as _ <-; now left].
      destruct (image_set _ _ _ _) as [xf'|e'];
        [|intros E; injection E as _ <-; now left].
      destruct (image_set _ _ _ _) as [f'|e'];
        [discriminate | intros E; injection E as _ <-; now left]. }
    split.
    + destruct Hf2 as [->| ->]; now rewrite Ef.
    + now rewrite Hx2, Ex.
Qed.

(** A step of the loop that returns leaves a fresh pixel fresh, and makes
    the pixel of its own place fresh. *)
Lemma do_item_fresh (it : item) (s s' : state) (j i : nat) :
  do_item self g it s = (Ok tt, s') ->
  shaped h w s ->
  (j < h)%nat -> (i < w)%nat ->
  fresh s j i
  \/ (exists index ray, it = Pixel index ray (Z.of_nat j) (Z.of_nat i)) ->
  fresh s' j i.
Proof.
  intros E Hsh Hj Hi Hold.
  destruct it as [index ray y x|index]; cbn [do_item] in E.
  2:{ injection E as <-. destruct Hold as [Hold|[? [? Hold]]];
        [exact Hold | discriminate]. }
  revert E. unfold pixel_body. rewrite bind_run.
  destruct (progress_report_writes_nothing self (s_total_pixels g)
              (s_total_work g) (Z.of_nat (length (s_rays g))) index y x s)
    as [Ef [Ex _]].
  destruct (progress_report _ _ _ _ _ _ _ s) as [[[]|e] s1]; cbn [snd] in *;
    [|discriminate].
  rewrite bind_run.
  destruct (sample_pixel _ _ _ _ _ _ _ _ s1) as [[[]|e] s2] eqn:E2;
    [|discriminate].
  destruct (display_refresh_writes_nothing self s2) as [Ef3 [Ex3 _]].
  intros E3. rewrite E3 in Ef3, Ex3. cbn [snd] in Ef3, Ex3.
  assert (Hsh1 : shaped h w s1).
  { destruct Hsh as [Hf Hx]. split; congruence. }
  destruct (sample_pixel_writes ray _ y x s1 s2 E2 Hsh1)
    as [j0 [i0 [acc [Ej [Ei [Ex2 Ef2]]]]]].
  unfold fresh. rewrite Ef3, Ex3, Ef2, Ex2.
  destruct Hsh1 as [Hf1 Hx1].
  pose proof (np_index_Ok _ _ Ej) as Hj0.
  pose proof (np_index_Ok _ _ Ei) as Hi0.
  destruct (Nat.eq_dec j j0) as [->|Hne].
  - destruct (Nat.eq_dec i i0) as [->|Hne].
    + rewrite !pixel_at_put_same; try reflexivity.
      * now rewrite (shape_repeat_length _ _ _ Hx1).
      * now rewrite (shape_repeat_row _ _ Hx1 Hj0).
      * now rewrite (shape_repeat_length _ _ _ Hf1).
      * now rewrite (shape_repeat_row _ _ Hf1 Hj0).
    + rewrite !pixel_at_put_other by congruence.
      destruct Hold as [Hold|[index' [ray' Hold]]].
      * unfold fresh in Hold. now rewrite Ef, Ex.
      * injection Hold as _ _ -> ->.
        rewrite np_index_range in Ei by exact Hi. congruence.
  - rewrite !pixel_at_put_other by congruence.
    destruct Hold as [Hold|[index' [ray' Hold]]].
    + unfold fresh in Hold. now rewrite Ef, Ex.
    + injection Hold as _ _ -> ->.
      rewrite np_index_range in Ej by exact Hj. congruence.
Qed.

Lemma for_each_fresh (its : list item) :
  forall (s s' : state) (j i : nat),
    for_each its (do_item self g) s = (Ok tt, s') ->
    shaped h w s ->
    (j < h)%nat -> (i < w)%nat ->
    fresh s j i
    \/ (exists index ray,
           In (Pixel index ray (Z.of_nat j) (Z.of_nat i)) its) ->
    fresh s' j i.
Proof.
  induction its as [|it its IH]; intros s s' j i E Hsh Hj Hi Hold.
  - injection E as <-. destruct Hold as [Hold|[? [? []]]]. exact Hold.
  - cbn [for_each] in E. rewrite bind_run in E.
    pose proof (shaped_keeps it s Hsh) as Hsh1.
    destruct (do_item self g it s) as [[[]|e] s1] eqn:E1; [|discriminate].
    cbn [snd] in Hsh1.
    apply (IH s1 s' j i E Hsh1 Hj Hi).
    destruct Hold as [Hold|[index [ray [Eit|Hin]]]].
    + left. apply (do_item_fresh it s s1 j i E1 Hsh Hj Hi). now left.
    + left. apply (do_item_fresh it s s1 j i E1 Hsh Hj Hi). right. eauto.
    + right. eauto.
Qed.

End FreshPixels.

Section FreshFrame.
Context {T : Type} `{Arith T} {C : Collab T}.

(** X11.  When [observe] returns normally from a render of at least one
    channel, every pixel of the display frame is the colour mapping of the
    accumulated pixel at its place: what [self.display()] and [save] then
    read is the sRGB image of the accumulated frame. *)
Theorem display_shows_accumulated (self : PinholeCamera) (s : state) :
  0 <= fst (_pixels self) -> 0 <= snd (_pixels self) ->
  1 <= rays self ->
  fst (observe self s) = Ok tt ->
  forall j i,
    (j < Z.to_nat (snd (_pixels self)))%nat ->
    (i < Z.to_nat (fst (_pixels self)))%nat ->
    fresh (snd (observe self s)) j i.
Proof.
  intros Hw Hh Hrays Hok j i Hj Hi. revert Hok.
  rewrite observe_phases, bind_run.
  destruct (setup self s) as [[g|e] s0] eqn:Es; [|discriminate].
  pose proof Es as Hfacts. apply setup_Ok in Hfacts. cbv zeta in Hfacts.
  destruct Hfacts as [Ef [Ex [_ [_ [_ [_ [_ [Hgen _]]]]]]]].
  rewrite bind_run, render_loop_items, bind_run. cbn [modify].
  destruct (for_each _ _ (set_lower_index 0 s0)) as [[[]|e] s1] eqn:E1;
    [|discriminate].
  intros _.
  destruct (finish_writes_nothing self (s_start_time g) s1) as [Ef' [Ex' _]].
  unfold fresh. rewrite Ef', Ex'.
  apply (for_each_fresh self g (Z.to_nat (snd (_pixels self)))
                        (Z.to_nat (fst (_pixels self))) _ _ s1 j i E1).
  - split; cbn [set_lower_index frame xyz_frame].
    + rewrite Ef. apply shape_zero_image_any.
    + rewrite Ex. apply shape_zero_image_any.
  - exact Hj.
  - exact Hi.
  - right. rewrite generate_rays_cases in Hgen.
    destruct (Z.eqb_spec (rays self) 0); [lia|].
    assert (E : chain self (PyFloat (step self)) (range (rays self))
                      (min_wavelength self) = s_rays g) by congruence.
    assert (Hlen : (0 < length (s_rays g))%nat).
    { rewrite <- E, chain_length, range_length. lia. }
    destruct (s_rays g) as [|ray rl]; [cbn in Hlen; lia|].
    exists 0, ray. unfold render_items, enumerate.
    cbn [enumerate_from flat_map]. apply in_or_app. left.
    unfold channel_items. cbn [fst snd]. apply in_or_app. left.
    apply in_map_iff. exists (Z.of_nat j, Z.of_nat i). split; [reflexivity|].
    rewrite raster_nat. apply in_map_iff. exists (j, i).
    split; [reflexivity|]. now apply in_raster_nat.
Qed.

End FreshFrame.

(** At a camera of 2 by 1 pixels and two channels. *)
Lemma display_shows_accumulated_witness :
  let self :=
    Sample.float_camera None (2, 1) (PyInt 40) 2 2
                        (PyFloat 375%float) (PyFloat 740%float) RootWorld in
  let s := mkState (C := Sample.float_world None) [] [] 0 0%float
                   (PyInt 0) 0 0%nat 0%float [] in
  (0 <= fst (_pixels self) /\ 0 <= snd (_pixels self) /\ 1 <= rays self
   /\ fst (observe self s) = Ok tt)
  /\ fresh (snd (observe self s)) 0 1.
Proof.
  intros self s.
  assert (Hw : 0 <= fst (_pixels self)) by (simpl; lia).
  assert (Hh : 0 <= snd (_pixels self)) by (simpl; lia).
  assert (Hr : 1 <= rays self) by (simpl; lia).
  assert (Hok : fst (observe self s) = Ok tt) by (vm_compute; reflexivity).
  split; [repeat split; assumption|].
  apply (display_shows_accumulated self s Hw Hh Hr Hok 0%nat 1%nat);
    simpl; lia.
Defined.

(** * The triangle mesh *)

(** ** Normals, areas and unit normals, in exact arithmetic *)

Section MeshExact.
Local Open Scope R_scope.

Lemma sum_squares_R (n : vec3 R) :
  sum_squares n = fst (fst n) * fst (fst n) + snd (fst n) * snd (fst n)
                  + snd n * snd n.
Proof. destruct n as [[x y] z]. reflexivity. Qed.

Lemma sum_squares_nonneg (n : vec3 R) : 0 <= sum_squares n.
Proof. rewrite sum_squares_R. nra. Qed.

Lemma sum_squares_zero (n : vec3 R) :
  sum_squares n = 0 <-> n = (0, 0, 0).
Proof.
  rewrite sum_squares_R. destruct n as [[x y] z]. cbn [fst snd]. split.
  - intros E. assert (x = 0) by nra. assert (y = 0) by nra.
    assert (z = 0) by nra. subst. reflexivity.
  - intros E. injection E as -> -> ->. ring.
Qed.

(** The length of a row is above zero exactly when the row is not zero. *)
Lemma length_positive (n : vec3 R) :
  ltb (of_Z 0) (sqrt (sum_squares n)) = negb (Reqb (sum_squares n) 0).
Proof.
  cbn [ltb of_Z sqrt R_arith].
  pose proof (sum_squares_nonneg n) as Hn.
  destruct (Reqb_spec (sum_squares n) 0) as [E|E]; cbn [negb].
  - rewrite E, sqrt_0. destruct (Rltb_spec 0 0); [lra | reflexivity].
  - destruct (Rltb_spec 0 (R_sqrt.sqrt (sum_squares n))) as [|Hs];
      [reflexivity|].
    exfalso. apply Hs. apply sqrt_lt_R0. lra.
Qed.

(** The normal that [update_normals] stores is perpendicular to both
    edges, and its squared length is the Gram determinant of the edges. *)
Lemma facet_normal_perpendicular (f : facet R) :
  vdot (facet_normal f) (edge1 f) = 0
  /\ vdot (facet_normal f) (edge2 f) = 0
  /\ sum_squares (facet_normal f)
     = sum_squares (edge1 f) * sum_squares (edge2 f)
       - vdot (edge1 f) (edge2 f) * vdot (edge1 f) (edge2 f).
Proof.
  unfold facet_normal, edge1, edge2.
  destruct (f_v0 f) as [[a0 a1] a2], (f_v1 f) as [[b0 b1] b2],
    (f_v2 f) as [[c0 c1] c2].
  cbn [vsub np_cross vdot sum_squares add sub mul R_arith].
  repeat split; ring.
Qed.

(** X12.  [update_normals] stores, for every triangle, a normal that is
    perpendicular to the two edges at the first vertex; it leaves the
    vertices, the attributes and the cached attributes as they are, and
    doing it twice is doing it once. *)
Theorem update_normals_perpendicular (m : Mesh R) :
  let m' := update_normals m in
  Forall (fun f => vdot (f_normals f) (edge1 f) = 0
                   /\ vdot (f_normals f) (edge2 f) = 0)
         (data m')
  /\ v0 m' = v0 m /\ v1 m' = v1 m /\ v2 m' = v2 m
  /\ map f_attr (data m') = map f_attr (data m)
  /\ (_min m', _max m', _areas m', _units m')
     = (_min m, _max m, _areas m, _units m)
  /\ update_normals m' = m'.
Proof.
  cbv zeta. unfold update_normals, v0, v1, v2, set_data.
  cbn [data _min _max _areas _units mesh_name].
  rewrite !map_map. cbn [set_f_normals f_v0 f_v1 f_v2 f_attr].
  split.
  { apply Forall_forall. intros f Hf. apply in_map_iff in Hf.
    destruct Hf as [f0 [<- _]].
    destruct (facet_normal_perpendicular f0) as [H1 [H2 _]].
    split; assumption. }
  repeat split; try reflexivity.
Qed.

End MeshExact.

Section MeshAreas.
Local Open Scope R_scope.

Lemma half_length_R (n : vec3 R) :
  mul lit_half (sqrt (sum_squares n)) = R_sqrt.sqrt (sum_squares n) / 2.
Proof. unfold lit_half. cbn [mul div of_Z sqrt R_arith]. field. Qed.

Lemma half_length_area (f : facet R) :
  triangle_area f (mul lit_half (sqrt (sum_squares (facet_normal f)))).
Proof.
  rewrite half_length_R. unfold triangle_area.
  destruct (facet_normal_perpendicular f) as [_ [_ <-]].
  pose proof (sum_squares_nonneg (facet_normal f)) as Hn.
  pose proof (sqrt_pos (sum_squares (facet_normal f))) as Hs.
  pose proof (sqrt_sqrt _ Hn) as E.
  split; [lra|]. nra.
Qed.

(** X13.  After [update_normals], the first read of [areas] computes, for every
    triangle, its area (half the length of the normal, which is the area
    by the edges), stores the column, and every later read returns the
    stored column. *)
Theorem areas_are_triangle_areas (name : String.string)
        (d : list (facet R)) :
  let m := update_normals (fresh_mesh name d) in
  exists a m',
    get_areas m = (a, m')
    /\ Forall2 triangle_area d a
    /\ m' = set_areas m a
    /\ get_areas m' = (a, m').
Proof.
  cbv zeta. eexists. eexists. split; [reflexivity|].
  split; [|split; reflexivity].
  unfold half_lengths, normals, update_normals, fresh_mesh, set_data.
  cbn [data]. rewrite !map_map. cbn [set_f_normals f_normals].
  induction d as [|f d IH]; cbn [map]; constructor; [|exact IH].
  apply half_length_area.
Qed.

(** What [update_units] stores for a triangle: its normal when that is
    zero, and otherwise the normal scaled to length one. *)
Lemma scaled_normal (n : vec3 R) :
  let a := mul lit_half (sqrt (sum_squares n)) in
  let r := if ltb (of_Z 0) a
           then (div (fst (fst n)) (mul (of_Z 2) a),
                 div (snd (fst n)) (mul (of_Z 2) a),
                 div (snd n) (mul (of_Z 2) a))
           else n in
  (n = (0, 0, 0) /\ r = (0, 0, 0))
  \/ (n <> (0, 0, 0) /\ sum_squares r = 1
      /\ n = (R_sqrt.sqrt (sum_squares n) * fst (fst r),
              R_sqrt.sqrt (sum_squares n) * snd (fst r),
              R_sqrt.sqrt (sum_squares n) * snd r)).
Proof.
  cbv zeta. rewrite half_length_R. cbn [ltb of_Z mul div R_arith].
  pose proof (sum_squares_nonneg n) as Hn.
  pose proof (sqrt_sqrt _ Hn) as E.
  pose proof (sqrt_pos (sum_squares n)) as Hs.
  destruct (Req_dec_T (sum_squares n) 0) as [Hz|Hz].
  - left. apply sum_squares_zero in Hz. subst n. split; [reflexivity|].
    destruct (Rltb_spec 0 (R_sqrt.sqrt (sum_squares (0, 0, 0)) / 2));
      [|reflexivity].
    cbn [fst snd]. unfold Rdiv. f_equal; [f_equal|]; ring.
  - right. split; [now rewrite <- sum_squares_zero|].
    assert (Hpos : 0 < R_sqrt.sqrt (sum_squares n)).
    { apply sqrt_lt_R0. lra. }
    destruct (Rltb_spec 0 (R_sqrt.sqrt (sum_squares n) / 2)) as [_|Hno];
      [|lra].
    set (s := R_sqrt.sqrt (sum_squares n)) in *.
    destruct n as [[x y] z]. cbn [fst snd] in *.
    rewrite sum_squares_R in E. cbn [fst snd] in E. split.
    + rewrite sum_squares_R. cbn [fst snd].
      replace (x / (2 * (s / 2)) * (x / (2 * (s / 2)))
               + y / (2 * (s / 2)) * (y / (2 * (s / 2)))
               + z / (2 * (s / 2)) * (z / (2 * (s / 2))))
        with ((x * x + y * y + z * z) / (s * s)) by (field; lra).
      rewrite <- E. field. lra.
    + f_equal; [f_equal|]; field; lra.
Qed.

Lemma scale_rows_spec (ns : list (vec3 R)) :
  Forall2 (fun n r =>
             (n = (0, 0, 0) /\ r = (0, 0, 0))
             \/ (n <> (0, 0, 0) /\ sum_squares r = 1
                 /\ n = (R_sqrt.sqrt (sum_squares n) * fst (fst r),
                         R_sqrt.sqrt (sum_squares n) * snd (fst r),
                         R_sqrt.sqrt (sum_squares n) * snd r)))
          ns (scale_rows ns (half_lengths ns)).
Proof.
  induction ns as [|n ns IH]; cbn [half_lengths map scale_rows];
    constructor; [|exact IH].
  apply scaled_normal.
Qed.

Lemma no_positive_area (ns : list (vec3 R)) :
  existsb (fun a => ltb (of_Z 0) a) (half_lengths ns) = false ->
  Forall (fun n => n = (0, 0, 0)) ns.
Proof.
  induction ns as [|n ns IH]; cbn [half_lengths map existsb];
    intros E; constructor.
  - apply orb_false_elim in E. destruct E as [E _].
    pose proof (scaled_normal n) as Hs. cbv zeta in Hs. rewrite E in Hs.
    destruct Hs as [[Hz _]|[Hnz [H1 _]]]; [exact Hz|].
    exfalso. rewrite half_length_R in E. cbn [ltb of_Z R_arith] in E.
    destruct (Rltb_spec 0 (R_sqrt.sqrt (sum_squares n) / 2)) as [|Hno];
      [discriminate|].
    apply Hno. rewrite <- sum_squares_zero in Hnz.
    pose proof (sum_squares_nonneg n).
    assert (0 < R_sqrt.sqrt (sum_squares n)) by (apply sqrt_lt_R0; lra).
    lra.
  - apply IH. apply orb_false_elim in E. now destruct E.
Qed.

(** X14.  After [update_normals], the first read of [units] returns, for every
    triangle, a vector of length one along its normal, or the zero vector
    when the triangle is degenerate (its normal is zero); it never
    raises. *)
Theorem units_are_unit_normals (name : String.string)
        (d : list (facet R)) :
  let m := update_normals (fresh_mesh name d) in
  exists u m',
    get_units m = Ok (u, m')
    /\ _units m' = Some u
    /\ Forall2 (fun f r =>
                  (facet_normal f = (0, 0, 0) /\ r = (0, 0, 0))
                  \/ (facet_normal f <> (0, 0, 0)
                      /\ sum_squares r = 1
                      /\ vdot r (edge1 f) = 0 /\ vdot r (edge2 f) = 0
                      /\ exists k, 0 < k
                                   /\ facet_normal f
                                      = (k * fst (fst r), k * snd (fst r),
                                         k * snd r)))
               d u.
Proof.
  cbv zeta.
  set (m := update_normals (fresh_mesh name d)).
  assert (Hns : normals m = map facet_normal d).
  { unfold m, normals, update_normals, fresh_mesh, set_data. cbn [data].
    rewrite map_map. reflexivity. }
  assert (Hrel : forall u,
             Forall2 (fun n r =>
                        (n = (0, 0, 0) /\ r = (0, 0, 0))
                        \/ (n <> (0, 0, 0) /\ sum_squares r = 1
                            /\ n = (R_sqrt.sqrt (sum_squares n) * fst (fst r),
                                    R_sqrt.sqrt (sum_squares n) * snd (fst r),
                                    R_sqrt.sqrt (sum_squares n) * snd r)))
                     (map facet_normal d) u ->
             Forall2 (fun f r =>
                  (facet_normal f = (0, 0, 0) /\ r = (0, 0, 0))
                  \/ (facet_normal f <> (0, 0, 0)
                      /\ sum_squares r = 1
                      /\ vdot r (edge1 f) = 0 /\ vdot r (edge2 f) = 0
                      /\ exists k, 0 < k
                                   /\ facet_normal f
                                      = (k * fst (fst r), k * snd (fst r),
                                         k * snd r)))
               d u).
  { clear. induction d as [|f d IH]; intros u Hu; inversion Hu; subst;
      constructor; [|now apply IH].
    match goal with
    | Hx : _ \/ _ |- _ => destruct Hx as [Hz|[Hnz [H1 Hk]]]
    end; [now left|].
    right. split; [exact Hnz|]. split; [exact H1|].
    assert (Hpos : 0 < R_sqrt.sqrt (sum_squares (facet_normal f))).
    { apply sqrt_lt_R0. rewrite <- sum_squares_zero in Hnz.
      pose proof (sum_squares_nonneg (facet_normal f)). lra. }
    destruct (facet_normal_perpendicular f) as [P1 [P2 _]].
    set (k := R_sqrt.sqrt (sum_squares (facet_normal f))) in *.
    rewrite Hk in P1, P2.
    destruct y as [[r0 r1] r2]. cbn [fst snd] in *.
    destruct (edge1 f) as [[a0 a1] a2], (edge2 f) as [[b0 b1] b2].
    cbn [vdot add mul R_arith] in *.
    split; [|split; [|exists k; auto]].
    - apply Rmult_eq_reg_l with (r := k); [|lra]. rewrite Rmult_0_r.
      rewrite <- P1. ring.
    - apply Rmult_eq_reg_l with (r := k); [|lra]. rewrite Rmult_0_r.
      rewrite <- P2. ring. }
  unfold get_units, units_of, get_areas.
  replace (_units m) with (@None (list (vec3 R))) by reflexivity.
  replace (_areas m) with (@None (list R)) by reflexivity.
  replace (normals (update_areas m)) with (normals m) by reflexivity.
  unfold unit_rows. rewrite Hns.
  destruct (existsb _ (half_lengths (map facet_normal d))) eqn:Eany.
  - unfold half_lengths at 1. rewrite length_map, Nat.eqb_refl.
    eexists. eexists. split; [reflexivity|]. split; [reflexivity|].
    apply Hrel. apply scale_rows_spec.
  - eexists. eexists. split; [reflexivity|]. split; [reflexivity|].
    apply Hrel. apply no_positive_area in Eany.
    clear Hrel Hns. induction Eany as [|n ns Hn _ IH]; constructor;
      [now left | exact IH].
Qed.

End MeshAreas.

(** ** Degenerate triangles *)

Section MeshFilter.
Local Open Scope R_scope.

(** The normal of a triangle is zero exactly when its vertices lie on one
    line. *)
Lemma facet_normal_zero_collinear (f : facet R) :
  facet_normal f = (0, 0, 0) <-> collinear f.
Proof.
  destruct (facet_normal_perpendicular f) as [_ [_ Hgram]].
  unfold collinear, facet_normal in *. fold (edge1 f) (edge2 f) in *.
  destruct (edge1 f) as [[a0 a1] a2], (edge2 f) as [[b0 b1] b2].
  cbn [fst snd vadd add mul R_arith np_cross sub vdot sum_squares] in *.
  split.
  - intros E. injection E as E0 E1 E2.
    destruct (Req_dec_T (a0 * a0 + a1 * a1 + a2 * a2) 0) as [Hz|Hnz].
    + exists 1, 0. split; [left; lra|].
      assert (a0 = 0) by nra. assert (a1 = 0) by nra.
      assert (a2 = 0) by nra. subst. f_equal; [f_equal|]; ring.
    + exists (- (a0 * b0 + a1 * b1 + a2 * b2)),
        (a0 * a0 + a1 * a1 + a2 * a2).
      split; [now right|].
      f_equal; [f_equal|].
      * replace (- (a0 * b0 + a1 * b1 + a2 * b2) * a0
                 + (a0 * a0 + a1 * a1 + a2 * a2) * b0)
          with (- a1 * (a0 * b1 - a1 * b0) + a2 * (a2 * b0 - a0 * b2))
          by ring.
        rewrite E1, E2. ring.
      * replace (- (a0 * b0 + a1 * b1 + a2 * b2) * a1
                 + (a0 * a0 + a1 * a1 + a2 * a2) * b1)
          with (a0 * (a0 * b1 - a1 * b0) - a2 * (a1 * b2 - a2 * b1))
          by ring.
        rewrite E0, E2. ring.
      * replace (- (a0 * b0 + a1 * b1 + a2 * b2) * a2
                 + (a0 * a0 + a1 * a1 + a2 * a2) * b2)
          with (- a0 * (a2 * b0 - a0 * b2) + a1 * (a1 * b2 - a2 * b1))
          by ring.
        rewrite E0, E1. ring.
  - intros [a [b [Hab E]]]. injection E as E0 E1 E2.
    destruct (Req_dec_T b 0) as [Hb|Hb].
    + subst b. assert (Ha : a <> 0) by (destruct Hab; [assumption|lra]).
      assert (a0 = 0) by nra. assert (a1 = 0) by nra.
      assert (a2 = 0) by nra. subst. f_equal; [f_equal|]; ring.
    + assert (B0 : b0 = - a / b * a0) by (field_simplify_eq; [lra|exact Hb]).
      assert (B1 : b1 = - a / b * a1) by (field_simplify_eq; [lra|exact Hb]).
      assert (B2 : b2 = - a / b * a2) by (field_simplify_eq; [lra|exact Hb]).
      rewrite B0, B1, B2. f_equal; [f_equal|]; field; exact Hb.
Qed.

Lemma keeps_facet (f : facet R) :
  ltb (of_Z AREA_SIZE_THRESHOLD) (sqrt (sum_squares (facet_normal f)))
  = negb (Reqb (sum_squares (facet_normal f)) 0).
Proof. apply length_positive. Qed.

(** X15.  In exact arithmetic, [remove_empty_areas] drops exactly the triangles
    whose vertices lie on one line, whatever normal is stored for them,
    and keeps the others as they are and in their order: it distributes
    over concatenation, and filtering twice is filtering once. *)
Theorem remove_empty_areas_drops_collinear (d d' : list (facet R))
        (f : facet R) (n : vec3 R) :
  (In f (remove_empty_areas d) <-> In f d /\ ~ collinear f)
  /\ remove_empty_areas (d ++ d')
     = remove_empty_areas d ++ remove_empty_areas d'
  /\ remove_empty_areas (remove_empty_areas d) = remove_empty_areas d
  /\ remove_empty_areas (map (fun g => set_f_normals g n) d)
     = map (fun g => set_f_normals g n) (remove_empty_areas d).
Proof.
  unfold remove_empty_areas. split; [|split; [|split]].
  - rewrite filter_In, keeps_facet, <- facet_normal_zero_collinear,
      <- sum_squares_zero.
    destruct (Reqb_spec (sum_squares (facet_normal f)) 0); cbn [negb];
      intuition congruence.
  - apply filter_app.
  - induction d as [|g d IH]; [reflexivity|]. cbn [filter].
    destruct (ltb _ _) eqn:E; [|exact IH].
    cbn [filter]. now rewrite E, IH.
  - induction d as [|g d IH]; [reflexivity|]. cbn [map filter].
    change (facet_normal (set_f_normals g n)) with (facet_normal g).
    destruct (ltb _ _); cbn [map]; now rewrite IH.
Qed.

End MeshFilter.

(** ** The bounding box *)

Section MeshBounds.
Local Open Scope R_scope.

Lemma np_minimum_R (a b : R) : np_minimum a b = Rmin a b.
Proof.
  unfold np_minimum, Rmin. cbn [is_nan leb R_arith orb]. unfold Rleb.
  destruct (Rle_dec a b); reflexivity.
Qed.

Lemma np_maximum_R (a b : R) : np_maximum a b = Rmax a b.
Proof.
  unfold np_maximum, Rmax. cbn [is_nan leb R_arith orb]. unfold Rleb.
  destruct (Rle_dec b a) as [Hle|Hgt]; destruct (Rle_dec a b) as [Hab|Hab];
    try reflexivity; lra.
Qed.

(** A fold of [Rmin] is a lower bound of what it folds, and one of it. *)
Lemma fold_Rmin (l : list R) :
  forall a,
    (forall x, In x (a :: l) -> fold_left Rmin l a <= x)
    /\ In (fold_left Rmin l a) (a :: l).
Proof.
  induction l as [|y l IH]; intros a; cbn [fold_left].
  - split; [intros x [<-|[]]; lra | now left].
  - destruct (IH (Rmin a y)) as [Hlow Hin]. split.
    + intros x [<-|[<-|Hx]].
      * eapply Rle_trans; [apply Hlow; now left | apply Rmin_l].
      * eapply Rle_trans; [apply Hlow; now left | apply Rmin_r].
      * apply Hlow. now right.
    + destruct Hin as [E|Hin]; [|right; now right].
      rewrite <- E. unfold Rmin. destruct (Rle_dec a y);
        [now left | right; now left].
Qed.

Lemma fold_Rmax (l : list R) :
  forall a,
    (forall x, In x (a :: l) -> x <= fold_left Rmax l a)
    /\ In (fold_left Rmax l a) (a :: l).
Proof.
  induction l as [|y l IH]; intros a; cbn [fold_left].
  - split; [intros x [<-|[]]; lra | now left].
  - destruct (IH (Rmax a y)) as [Hup Hin]. split.
    + intros x [<-|[<-|Hx]].
      * eapply Rle_trans; [apply Rmax_l | apply Hup; now left].
      * eapply Rle_trans; [apply Rmax_r | apply Hup; now left].
      * apply Hup. now right.
    + destruct Hin as [E|Hin]; [|right; now right].
      rewrite <- E. unfold Rmax. destruct (Rle_dec a y);
        [right; now left | now left].
Qed.

(** The reduction, coordinate by coordinate. *)
Lemma reduce_rows_fold (op : R -> R -> R) (rest : list (vec3 R)) :
  forall r,
    fold_left (fun acc v : vec3 R =>
                 (op (fst (fst acc)) (fst (fst v)),
                  op (snd (fst acc)) (snd (fst v)),
                  op (snd acc) (snd v)))
              rest r
    = (fold_left op (map (fun v : vec3 R => fst (fst v)) rest) (fst (fst r)),
       fold_left op (map (fun v : vec3 R => snd (fst v)) rest) (snd (fst r)),
       fold_left op (map (fun v : vec3 R => snd v) rest) (snd r)).
Proof.
  induction rest as [|v rest IH]; intros [[x y] z]; [reflexivity|].
  cbn [fold_left map fst snd]. now rewrite IH.
Qed.

Lemma fold_np_minimum (l : list R) (a : R) :
  fold_left np_minimum l a = fold_left Rmin l a.
Proof.
  revert a. induction l as [|y l IH]; intros a; [reflexivity|].
  cbn [fold_left]. now rewrite np_minimum_R, IH.
Qed.

Lemma fold_np_maximum (l : list R) (a : R) :
  fold_left np_maximum l a = fold_left Rmax l a.
Proof.
  revert a. induction l as [|y l IH]; intros a; [reflexivity|].
  cbn [fold_left]. now rewrite np_maximum_R, IH.
Qed.

(** One coordinate of the bounds. *)
Lemma fold_bounds (proj : vec3 R -> R) (r : vec3 R) (rest : list (vec3 R)) :
  let lo := fold_left np_minimum (map proj rest) (proj r) in
  let hi := fold_left np_maximum (map proj rest) (proj r) in
  (forall v, In v (r :: rest) -> lo <= proj v <= hi)
  /\ In lo (map proj (r :: rest))
  /\ In hi (map proj (r :: rest)).
Proof.
  cbv zeta. rewrite fold_np_minimum, fold_np_maximum.
  destruct (fold_Rmin (map proj rest) (proj r)) as [Hlow Hin].
  destruct (fold_Rmax (map proj rest) (proj r)) as [Hup Hin'].
  split; [|split; assumption].
  intros v Hv. apply (in_map proj) in Hv. cbn [map] in Hv.
  split; [now apply Hlow | now apply Hup].
Qed.

(** X16.  In exact arithmetic.  The first reads of [min_] and [max_] of a mesh
    without triangles raise ValueError.  Of a mesh with triangles they
    return the corners of its bounding box: every vertex lies within
    them, each of their coordinates is the coordinate of some vertex, and
    they are what later reads return. *)
Theorem bounding_box (name : String.string) (d : list (facet R)) :
  let m := fresh_mesh name d in
  match d with
  | [] => get_min m = Raise ValueError /\ get_max m = Raise ValueError
  | _ :: _ =>
      exists lo hi m1 m2,
        get_min m = Ok (lo, m1) /\ get_max m1 = Ok (hi, m2)
        /\ get_min m2 = Ok (lo, m2) /\ get_max m2 = Ok (hi, m2)
        /\ data m2 = d
        /\ (forall v, In v (vectors m) -> within lo hi v)
        /\ (forall proj : vec3 R -> R,
               In proj [(fun v => fst (fst v)); (fun v => snd (fst v));
                        (fun v => snd v)] ->
               In (proj lo) (map proj (vectors m))
               /\ In (proj hi) (map proj (vectors m)))
  end.
Proof.
  cbv zeta. destruct d as [|f d]; [split; reflexivity|].
  set (m := fresh_mesh name (f :: d)).
  set (rest := [f_v1 f; f_v2 f]
               ++ flat_map (fun f : facet R => [f_v0 f; f_v1 f; f_v2 f]) d).
  assert (Hv : vectors m = f_v0 f :: rest) by reflexivity.
  pose proof (fold_bounds (fun v => fst (fst v)) (f_v0 f) rest) as [B0 [L0 U0]].
  pose proof (fold_bounds (fun v => snd (fst v)) (f_v0 f) rest) as [B1 [L1 U1]].
  pose proof (fold_bounds (fun v => snd v) (f_v0 f) rest) as [B2 [L2 U2]].
  cbv zeta in *.
  set (lo := (fold_left np_minimum (map (fun v : vec3 R => fst (fst v)) rest)
                        (fst (fst (f_v0 f))),
              fold_left np_minimum (map (fun v : vec3 R => snd (fst v)) rest)
                        (snd (fst (f_v0 f))),
              fold_left np_minimum (map (fun v : vec3 R => snd v) rest)
                        (snd (f_v0 f)))).
  set (hi := (fold_left np_maximum (map (fun v : vec3 R => fst (fst v)) rest)
                        (fst (fst (f_v0 f))),
              fold_left np_maximum (map (fun v : vec3 R => snd (fst v)) rest)
                        (snd (fst (f_v0 f))),
              fold_left np_maximum (map (fun v : vec3 R => snd v) rest)
                        (snd (f_v0 f)))).
  assert (Emin : reduce_rows np_minimum (vectors m) = Ok lo).
  { rewrite Hv. cbn [reduce_rows]. now rewrite reduce_rows_fold. }
  assert (Emax : reduce_rows np_maximum (vectors m) = Ok hi).
  { rewrite Hv. cbn [reduce_rows]. now rewrite reduce_rows_fold. }
  exists lo, hi, (set_min m lo), (set_max (set_min m lo) hi).
  split.
  { unfold get_min. replace (_min m) with (@None (vec3 R)) by reflexivity.
    now rewrite Emin. }
  split.
  { unfold get_max.
    replace (_max (set_min m lo)) with (@None (vec3 R)) by reflexivity.
    replace (vectors (set_min m lo)) with (vectors m) by reflexivity.
    now rewrite Emax. }
  split; [reflexivity|]. split; [reflexivity|]. split; [reflexivity|].
  rewrite Hv. split.
  - intros v Hin. unfold within, lo, hi. cbn [fst snd].
    split; [apply (B0 v Hin)|]. split; [apply (B1 v Hin) | apply (B2 v Hin)].
  - intros proj [<-|[<-|[<-|[]]]]; unfold lo, hi; cbn [fst snd];
      split; assumption.
Qed.

End MeshBounds.

(** ** Rows of points and the cached attributes *)

Section MeshRows.
Context {T : Type} `{Arith T}.

Lemma row9_with_row9 (f : facet T) (v : list T) :
  length v = 9%nat -> row9 (with_row9 f v) = v.
Proof.
  intros Hv.
  do 9 (destruct v as [|? v]; [discriminate|]).
  destruct v; [reflexivity | discriminate].
Qed.

Lemma with_row9_normals (f : facet T) (v : list T) :
  f_normals (with_row9 f v) = f_normals f.
Proof.
  unfold with_row9.
  do 9 (destruct v as [|? v]; [reflexivity|]).
  destruct v; reflexivity.
Qed.

Lemma map_set_nth {A B} (g : A -> B) (l : list A) (j : nat) (a : A) :
  g a = g (nth j l a) -> map g (set_nth l j a) = map g l.
Proof.
  revert j. induction l as [|b l IH]; intros [|j] E; cbn in *;
    try reflexivity.
  - now rewrite E.
  - now rewrite IH.
Qed.

(** X17.  Writing a row of nine coordinates with [mesh[k] = v] and reading it
    back with [mesh[k]] gives [v]; the other rows, the number of rows,
    the stored normals and the cached attributes are as before.  An index
    outside the mesh raises IndexError in both, negative indices counting
    from the end. *)
Theorem setitem_getitem (m : Mesh T) (k : Z) (v : list T) :
  length v = 9%nat ->
  match np_index (Mesh_len m) k with
  | Ok j =>
      exists m',
        Mesh_setitem m k v = Ok m'
        /\ Mesh_getitem m' k = Ok v
        /\ Mesh_len m' = Mesh_len m
        /\ normals m' = normals m
        /\ (_min m', _max m', _areas m', _units m')
           = (_min m, _max m, _areas m, _units m)
        /\ forall k' j',
            np_index (Mesh_len m) k' = Ok j' -> j' <> j ->
            Mesh_getitem m' k' = Mesh_getitem m k'
  | Raise e =>
      e = IndexError
      /\ Mesh_setitem m k v = Raise IndexError
      /\ Mesh_getitem m k = Raise IndexError
  end.
Proof.
  intros Hv. unfold Mesh_setitem, Mesh_getitem, Mesh_len.
  destruct (np_index (Z.of_nat (length (data m))) k) as [j|e] eqn:Ej.
  - pose proof (np_index_Ok _ _ Ej) as Hj.
    rewrite Hv. cbn [Nat.eqb]. eexists. split; [reflexivity|].
    unfold set_data, normals. cbn [data _min _max _areas _units].
    rewrite set_nth_length, Ej.
    split; [now rewrite nth_set_nth_same, row9_with_row9|].
    split; [reflexivity|].
    split.
    { apply map_set_nth. rewrite with_row9_normals.
      f_equal. apply nth_indep. exact Hj. }
    split; [reflexivity|].
    intros k' j' Ej' Hne. rewrite Ej'.
    now rewrite nth_set_nth_other.
  - assert (E : e = IndexError).
    { revert Ej. unfold np_index.
      destruct (k <? 0); destruct (_ && _); congruence. }
    subst e. repeat split; reflexivity.
Qed.

(** X18.  A derived attribute is computed once.  After [areas] (or [min_]) has
    been read, writing other vertices with [mesh[k] = v] and updating the
    normals does not change what the property returns: it is the value of
    the first read, not the value of the mesh as it is now. *)
Theorem cached_attributes_go_stale (m m1 m2 : Mesh T) (a : list T)
        (lo : vec3 T) (m0 : Mesh T) (k : Z) (v : list T) :
  get_areas m = (a, m0) ->
  get_min m0 = Ok (lo, m1) ->
  Mesh_setitem m1 k v = Ok m2 ->
  get_areas (update_normals m2) = (a, update_normals m2)
  /\ get_min (update_normals m2) = Ok (lo, update_normals m2).
Proof.
  intros Ha Hlo Hset.
  assert (Ea : _areas m0 = Some a).
  { unfold get_areas in Ha. destruct (_areas m) eqn:E.
    - injection Ha as <- <-. exact E.
    - injection Ha as <- <-. reflexivity. }
  assert (El : _min m1 = Some lo /\ _areas m1 = Some a).
  { unfold get_min in Hlo. destruct (_min m0) eqn:E.
    - injection Hlo as <- <-. auto.
    - destruct (reduce_rows _ _); [|discriminate].
      injection Hlo as <- <-. auto. }
  destruct El as [El Ea1].
  assert (E2 : _min m2 = Some lo /\ _areas m2 = Some a).
  { revert Hset. unfold Mesh_setitem.
    destruct (np_index _ k); [|discriminate].
    destruct (Nat.eqb _ _).
    - intros E. injection E as <-. auto.
    - destruct v as [|b [|? ?]]; try discriminate.
      intros E. injection E as <-. auto. }
  destruct E2 as [E2 E3].
  unfold get_areas, get_min, update_normals, set_data.
  cbn [_areas _min]. now rewrite E2, E3.
Qed.

(** X19.  Iterating over the mesh yields the rows that indexing returns, in
    order: row [k] by the index [k], and by the index [k - len(mesh)]
    that counts from the end. *)
Theorem iter_agrees_with_getitem (m : Mesh T) :
  Z.of_nat (length (Mesh_iter m)) = Mesh_len m
  /\ forall k,
      (k < length (data m))%nat ->
      Mesh_getitem m (Z.of_nat k) = Ok (nth k (Mesh_iter m) [])
      /\ Mesh_getitem m (Z.of_nat k - Mesh_len m)
         = Ok (nth k (Mesh_iter m) []).
Proof.
  unfold Mesh_iter, Mesh_len, Mesh_getitem. rewrite length_map.
  split; [reflexivity|]. intros k Hk.
  assert (Hrow : nth k (map row9 (data m)) []
                 = row9 (nth k (data m) zero_facet)).
  { rewrite (nth_indep _ [] (row9 zero_facet))
      by (now rewrite length_map).
    apply map_nth. }
  rewrite Hrow, (np_index_range Hk). split; [reflexivity|].
  unfold np_index.
  destruct (Z.ltb_spec (Z.of_nat k - Z.of_nat (length (data m))) 0); [|lia].
  replace (Z.of_nat k - Z.of_nat (length (data m))
           + Z.of_nat (length (data m))) with (Z.of_nat k) by lia.
  destruct (Z.leb_spec 0 (Z.of_nat k)); [|lia].
  destruct (Z.ltb_spec (Z.of_nat k) (Z.of_nat (length (data m)))); [|lia].
  cbn [andb]. now rewrite Nat2Z.id.
Qed.

End MeshRows.


(** At a mesh of two triangles, writing the second row. *)
Lemma setitem_getitem_witness :
  let m := fresh_mesh String.EmptyString
                      [right_triangle 1%float; right_triangle 2%float] in
  let v := [1%float; 2%float; 3%float; 4%float; 5%float; 6%float;
            7%float; 8%float; 9%float] in
  length v = 9%nat
  /\ exists m',
      Mesh_setitem m (-1) v = Ok m'
      /\ Mesh_getitem m' 1 = Ok v
      /\ Mesh_getitem m' 0 = Mesh_getitem m 0.
Proof.
  intros m v.
  assert (Hv : length v = 9%nat) by reflexivity.
  split; [exact Hv|].
  pose proof (setitem_getitem m (-1) v Hv) as Hw.
  change (np_index (Mesh_len m) (-1)) with (@Ok nat 1%nat) in Hw.
  destruct Hw as [m' [Es [Eg [_ [_ [_ Hother]]]]]].
  exists m'. split; [exact Es|]. split.
  - rewrite <- Eg. unfold Mesh_getitem.
    replace (length (data m')) with 2%nat; [reflexivity|].
    revert Es. unfold Mesh_setitem. cbn. intros E. injection E as <-.
    reflexivity.
  - apply (Hother 0 0%nat); [reflexivity | discriminate].
Defined.

(** At a triangle of area one half that is then made four times as
    large: [areas] still returns one half. *)
Lemma cached_attributes_go_stale_witness :
  let m := update_normals (fresh_mesh String.EmptyString
                                      [right_triangle 1%float]) in
  let m0 := set_areas m [0.5%float] in
  let m1 := set_min m0 (0%float, 0%float, 0%float) in
  let m2 := set_data m1 [with_row9 (set_f_normals
                                      (right_triangle 1%float)
                                      (0%float, 0%float, 1%float))
                                   (row9 (right_triangle 2%float))] in
  (get_areas m = ([0.5%float], m0)
   /\ get_min m0 = Ok ((0%float, 0%float, 0%float), m1)
   /\ Mesh_setitem m1 0 (row9 (right_triangle 2%float)) = Ok m2)
  /\ fst (get_areas (update_normals m2)) = [0.5%float]
  /\ half_lengths (normals (update_normals m2)) = [2%float].
Proof.
  intros m m0 m1 m2.
  assert (Ha : get_areas m = ([0.5%float], m0)) by (vm_compute; reflexivity).
  assert (Hlo : get_min m0 = Ok ((0%float, 0%float, 0%float), m1))
    by (vm_compute; reflexivity).
  assert (Hset : Mesh_setitem m1 0 (row9 (right_triangle 2%float)) = Ok m2)
    by (vm_compute; reflexivity).
  split; [auto|].
  destruct (cached_attributes_go_stale m m1 m2 [0.5%float]
              (0%float, 0%float, 0%float) m0 0
              (row9 (right_triangle 2%float)) Ha Hlo Hset) as [E _].
  rewrite E. split; [reflexivity | vm_compute; reflexivity].
Defined.

(** ** Duplicate polygons *)

Section StableSortMembers.
Variable key : nat -> R.

Lemma insert_by_In (x : nat) (l : list nat) (y : nat) :
  In y (insert_by key x l) <-> y = x \/ In y l.
Proof.
  induction l as [|j l IH]; cbn [insert_by].
  - cbn. intuition.
  - destruct (ltb (key j) (key x)); cbn [In]; [rewrite IH|]; intuition.
Qed.

Lemma argsort_stable_In (l : list nat) (y : nat) :
  In y (argsort_stable key l) <-> In y l.
Proof.
  induction l as [|x l IH]; cbn [argsort_stable fold_right]; [reflexivity|].
  fold (argsort_stable key l). rewrite insert_by_In, IH. cbn. intuition.
Qed.

Lemma insert_by_length (x : nat) (l : list nat) :
  length (insert_by key x l) = S (length l).
Proof.
  induction l as [|j l IH]; cbn [insert_by]; [reflexivity|].
  destruct (ltb _ _); cbn [length]; [now rewrite IH | reflexivity].
Qed.

Lemma argsort_stable_length (l : list nat) :
  length (argsort_stable key l) = length l.
Proof.
  induction l as [|x l IH]; [reflexivity|].
  cbn [argsort_stable fold_right]. fold (argsort_stable key l).
  now rewrite insert_by_length, IH.
Qed.

End StableSortMembers.

Section StableSort.
Local Open Scope R_scope.
Variable key : nat -> R.
Variable base : nat -> nat -> Prop.

(** The order a stable sort by [key] makes of the order [base]. *)
Definition refined (a b : nat) : Prop :=
  key a < key b \/ (key a = key b /\ base a b).

Lemma insert_by_sorted (x : nat) (l : list nat) :
  StronglySorted refined l ->
  Forall (base x) l ->
  StronglySorted refined (insert_by key x l).
Proof.
  intros Hs Hb. induction Hs as [|j l Hs IH Hj]; cbn [insert_by].
  - repeat constructor.
  - inversion Hb as [|? ? Hbj Hbl]; subst.
    cbn [ltb R_arith]. destruct (Rltb_spec (key j) (key x)) as [Hlt|Hge].
    + constructor; [now apply IH|].
      apply Forall_forall. intros y Hy.
      apply (proj1 (insert_by_In key x l y)) in Hy.
      destruct Hy as [->|Hy]; [now left|].
      rewrite Forall_forall in Hj. now apply Hj.
    + constructor; [now constructor|].
      assert (Hxj : refined x j).
      { destruct (Rtotal_order (key x) (key j)) as [?|[?|?]];
          [now left | now right | lra]. }
      constructor; [exact Hxj|].
      apply Forall_forall. intros y Hy.
      rewrite Forall_forall in Hj, Hbl.
      specialize (Hj y Hy). specialize (Hbl y Hy).
      unfold refined in *.
      destruct Hxj as [?|[? ?]], Hj as [?|[? ?]];
        try (left; lra); right; split; [lra | assumption].
Qed.

(** A stable sort by [key] of a list in the order [base] is in the
    refined order. *)
Lemma argsort_stable_sorted (l : list nat) :
  StronglySorted base l -> StronglySorted refined (argsort_stable key l).
Proof.
  intros Hs. induction Hs as [|x l Hs IH Hx]; [constructor|].
  cbn [argsort_stable fold_right]. fold (argsort_stable key l).
  apply insert_by_sorted; [exact IH|].
  apply Forall_forall. intros y Hy.
  apply (proj1 (argsort_stable_In key l y)) in Hy.
  rewrite Forall_forall in Hx. now apply Hx.
Qed.

End StableSort.

Section SortedIndices.

Lemma insert_nat_In (x : nat) (l : list nat) (y : nat) :
  In y (insert_nat x l) <-> y = x \/ In y l.
Proof.
  induction l as [|j l IH]; cbn [insert_nat].
  - cbn. intuition.
  - destruct (Nat.leb x j); cbn [In]; [|rewrite IH]; intuition.
Qed.

Lemma np_sort_In (l : list nat) (y : nat) : In y (np_sort l) <-> In y l.
Proof.
  induction l as [|x l IH]; cbn [np_sort fold_right]; [reflexivity|].
  fold (np_sort l). rewrite insert_nat_In, IH. cbn. intuition.
Qed.

Lemma insert_nat_sorted (x : nat) (l : list nat) :
  StronglySorted lt l -> ~ In x l -> StronglySorted lt (insert_nat x l).
Proof.
  intros Hs Hx. induction Hs as [|j l Hs IH Hj]; cbn [insert_nat].
  - repeat constructor.
  - pose proof Hj as Hjl. rewrite Forall_forall in Hj.
    destruct (Nat.leb_spec x j) as [Hle|Hgt].
    + assert (x < j)%nat.
      { destruct (Nat.eq_dec x j) as [->|]; [|lia].
        exfalso. apply Hx. now left. }
      constructor; [now constructor|].
      constructor; [assumption|].
      apply Forall_forall. intros y Hy. specialize (Hj y Hy). lia.
    + constructor.
      * apply IH. intros Hin. apply Hx. now right.
      * apply Forall_forall. intros y Hy.
        apply (proj1 (insert_nat_In x l y)) in Hy.
        destruct Hy as [->|Hy]; [exact Hgt | now apply Hj].
Qed.

(** [numpy.sort] of distinct indices is ascending. *)
Lemma np_sort_sorted (l : list nat) :
  NoDup l -> StronglySorted lt (np_sort l).
Proof.
  intros Hnd. induction Hnd as [|x l Hx Hnd IH]; [constructor|].
  cbn [np_sort fold_right]. fold (np_sort l).
  apply insert_nat_sorted; [exact IH|].
  intros Hin. apply Hx. now apply np_sort_In.
Qed.

(** Two ascending lists with the same members are one list. *)
Lemma ascending_unique (l1 : list nat) :
  forall l2,
    StronglySorted lt l1 -> StronglySorted lt l2 ->
    (forall i, In i l1 <-> In i l2) -> l1 = l2.
Proof.
  induction l1 as [|x l1 IH]; intros [|y l2] H1 H2 Hin.
  - reflexivity.
  - exfalso. apply (proj2 (Hin y)). now left.
  - exfalso. apply (proj1 (Hin x)). now left.
  - inversion H1 as [|? ? H1' Hx]; subst.
    inversion H2 as [|? ? H2' Hy]; subst.
    rewrite Forall_forall in Hx, Hy.
    assert (E : x = y).
    { destruct (proj1 (Hin x) (or_introl eq_refl)) as [E|Hxl2]; [auto|].
      destruct (proj2 (Hin y) (or_introl eq_refl)) as [E|Hyl1]; [auto|].
      specialize (Hx y Hyl1). specialize (Hy x Hxl2). lia. }
    subst y. f_equal. apply IH; [assumption | assumption|].
    intros i. split; intros Hi.
    + destruct (proj1 (Hin i) (or_intror Hi)) as [<-|]; [|assumption].
      specialize (Hx _ Hi). lia.
    + destruct (proj2 (Hin i) (or_intror Hi)) as [<-|]; [|assumption].
      specialize (Hy _ Hi). lia.
Qed.

Lemma filter_ascending (p : nat -> bool) (l : list nat) :
  StronglySorted lt l -> StronglySorted lt (filter p l).
Proof.
  intros Hs. induction Hs as [|x l Hs IH Hx]; cbn [filter]; [constructor|].
  destruct (p x); [|exact IH]. constructor; [exact IH|].
  rewrite Forall_forall in *. intros y Hy. apply filter_In in Hy.
  now apply Hx.
Qed.

Lemma select_In {A} (a : list A) (mask : list bool) (x : A) :
  In x (select a mask) -> In x a.
Proof.
  revert mask. induction a as [|y a IH]; intros [|b mask]; cbn [select];
    try contradiction.
  destruct b; cbn [In]; intros Hx.
  - destruct Hx as [->|Hx]; [now left | right; eauto].
  - right. eauto.
Qed.

Lemma select_NoDup {A} (a : list A) (mask : list bool) :
  NoDup a -> NoDup (select a mask).
Proof.
  intros Hnd. revert mask.
  induction Hnd as [|y a Hy Hnd IH]; intros [|b mask]; cbn [select];
    try constructor.
  destruct b; [|apply IH].
  constructor; [|apply IH]. intros Hin. apply Hy.
  eapply select_In. exact Hin.
Qed.

End SortedIndices.

Section Duplicates.
Local Open Scope R_scope.
Variable d : list (facet R).

Let K (i : nat) : vec3 R := polygon_sum (nth i d zero_facet).
Let kx (i : nat) : R := fst (fst (K i)).
Let ky (i : nat) : R := snd (fst (K i)).
Let kz (i : nat) : R := snd (K i).

(** The order of [lexsort]: by the last key, then the one before it, then
    the first, then by position. *)
Let R1 : nat -> nat -> Prop := refined kx lt.
Let R2 : nat -> nat -> Prop := refined ky R1.
Let R3 : nat -> nat -> Prop := refined kz R2.

Let same (a b : nat) : Prop := kx a = kx b /\ ky a = ky b /\ kz a = kz b.

Lemma vec3_neb_same (a b : nat) :
  vec3_neb (K a) (K b) = false <-> same a b.
Proof.
  unfold same, kx, ky, kz, vec3_neb.
  destruct (K a) as [[a0 a1] a2], (K b) as [[b0 b1] b2].
  cbn [fst snd eqb R_arith].
  destruct (Reqb_spec a0 b0), (Reqb_spec a1 b1), (Reqb_spec a2 b2);
    cbn [negb orb]; intuition congruence.
Qed.

Lemma R3_same_lt (a b : nat) : R3 a b -> same a b -> (a < b)%nat.
Proof.
  unfold R3, R2, R1, refined, same. intros HR [Hx [Hy Hz]].
  destruct HR as [?|[_ [?|[_ [?|[_ ?]]]]]]; try lra. assumption.
Qed.

Lemma R3_squeeze (a b c : nat) : R3 a b -> R3 b c -> same a c -> same b c.
Proof.
  unfold R3, R2, R1, refined, same. intros Hab Hbc [Hx [Hy Hz]].
  destruct Hab as [?|[? [?|[? [?|[? ?]]]]]],
           Hbc as [?|[? [?|[? [?|[? ?]]]]]];
    try lra; repeat split; lra.
Qed.

Lemma same_refl (a : nat) : same a a.
Proof. unfold same. auto. Qed.

Lemma seq_sorted (a n : nat) : StronglySorted lt (seq a n).
Proof.
  revert a. induction n as [|n IH]; intros a; cbn [seq].
  - constructor.
  - constructor; [apply IH|].
    apply Forall_forall. intros y Hy. apply in_seq in Hy. lia.
Qed.

Lemma same_sym (a b : nat) : same a b -> same b a.
Proof. unfold same. intuition. Qed.

Lemma lexsort_sorted :
  let idx := lexsort [kx; ky; kz] (length d) in
  StronglySorted R3 idx
  /\ forall i, In i idx <-> (i < length d)%nat.
Proof.
  cbv zeta. unfold lexsort. cbn [fold_left]. split.
  - unfold R3, R2, R1. do 3 apply argsort_stable_sorted.
    apply seq_sorted.
  - intros i. rewrite !argsort_stable_In, in_seq. lia.
Qed.

(** The flags of the rows after the first, from the row before. *)
Fixpoint mark (prev : nat) (l : list nat) : list bool :=
  match l with
  | [] => []
  | x :: l' => vec3_neb (K x) (K prev) :: mark x l'
  end.

Lemma adjacent_diff_mark (x : nat) (l : list nat) :
  adjacent_diff K (x :: l) = mark x l.
Proof.
  revert x. induction l as [|y l IH]; intros x; [reflexivity|].
  cbn [mark]. rewrite <- IH. reflexivity.
Qed.

Lemma mark_length (prev : nat) (l : list nat) :
  length (mark prev l) = length l.
Proof.
  revert prev. induction l as [|x l IH]; intros prev; cbn; auto.
Qed.

(** Of a list in the order of [lexsort], the mask keeps the rows that
    come first among the rows with their vertex sum. *)
Lemma select_mark_In (l : list nat) :
  forall prev i,
    StronglySorted R3 (prev :: l) ->
    (In i (select l (mark prev l))
     <-> In i l /\ forall c, In c (prev :: l) -> same c i -> (i <= c)%nat).
Proof.
  induction l as [|x l IH]; intros prev i Hs.
  - cbn. intuition.
  - inversion Hs as [|? ? Hs' Hprev]; subst.
    inversion Hs' as [|? ? Hs'' Hx]; subst.
    rewrite Forall_forall in Hprev, Hx.
    assert (Hpx : R3 prev x) by (apply Hprev; now left).
    cbn [mark select].
    assert (Hrest : In i (select l (mark x l)) ->
                    In i (x :: l)
                    /\ forall c, In c (prev :: x :: l) -> same c i ->
                                 (i <= c)%nat).
    { intros Hi. apply (IH x i Hs') in Hi. destruct Hi as [Hil Hmin].
      split; [now right|]. intros c [<-|Hc] Hsame; [|now apply Hmin].
      exfalso. pose proof (Hx i Hil) as Hxi.
      pose proof (R3_squeeze prev x i Hpx Hxi Hsame) as Hsx.
      pose proof (Hmin x (or_introl eq_refl) Hsx).
      pose proof (R3_same_lt x i Hxi Hsx). lia. }
    assert (Hback : In i (x :: l) ->
                    (forall c, In c (prev :: x :: l) -> same c i ->
                               (i <= c)%nat) ->
                    i = x \/ In i (select l (mark x l))).
    { intros [->|Hil] Hmin; [now left|]. right.
      apply (IH x i Hs'). split; [exact Hil|].
      intros c Hc. apply Hmin. now right. }
    destruct (vec3_neb (K x) (K prev)) eqn:En.
    + cbn [In]. split.
      * intros [<-|Hi]; [|now apply Hrest].
        split; [now left|]. intros c [<-|[<-|Hc]] Hsame.
        -- exfalso. apply same_sym, vec3_neb_same in Hsame. congruence.
        -- lia.
        -- pose proof (R3_same_lt x c (Hx c Hc) (same_sym c x Hsame)). lia.
      * intros [Hin Hmin]. destruct (Hback Hin Hmin); auto.
    + split.
      * apply Hrest.
      * intros [Hin Hmin]. destruct (Hback Hin Hmin) as [->|Hi];
          [|exact Hi].
        exfalso. apply vec3_neb_same, same_sym in En.
        pose proof (Hmin prev (or_introl eq_refl) En).
        pose proof (R3_same_lt prev x Hpx En). lia.
Qed.

Lemma R3_irreflexive (a : nat) : ~ R3 a a.
Proof.
  unfold R3, R2, R1, refined. intros [?|[_ [?|[_ [?|[_ ?]]]]]]; try lra. lia.
Qed.

Lemma R3_sorted_NoDup (l : list nat) : StronglySorted R3 l -> NoDup l.
Proof.
  intros Hs. induction Hs as [|x l Hs IH Hx]; constructor; [|exact IH].
  intros Hin. rewrite Forall_forall in Hx.
  exact (R3_irreflexive x (Hx x Hin)).
Qed.

Lemma first_occurrence_spec (i : nat) :
  first_occurrence d i = true
  <-> forall c, (c < i)%nat -> ~ same c i.
Proof.
  unfold first_occurrence. rewrite forallb_forall. split.
  - intros Hall c Hc Hsame. apply vec3_neb_same in Hsame.
    assert (Hin : In c (seq 0 i)) by (apply in_seq; lia).
    specialize (Hall c Hin). fold (K c) (K i) in Hall. congruence.
  - intros Hall c Hc. apply in_seq in Hc. fold (K c) (K i).
    destruct (vec3_neb (K c) (K i)) eqn:E; [reflexivity|].
    exfalso. apply vec3_neb_same in E. apply (Hall c); [lia | exact E].
Qed.

(** [remove_duplicate_polygons], by the positions of the rows. *)
Lemma remove_duplicates_by_position :
  (0 < length d)%nat ->
  remove_duplicate_polygons d
  = Ok (map (fun i => nth i d zero_facet)
            (filter (first_occurrence d) (seq 0 (length d)))).
Proof.
  intros Hd.
  change (remove_duplicate_polygons d)
    with (match np_mask (lexsort [kx; ky; kz] (length d))
                        (true :: adjacent_diff K
                                   (lexsort [kx; ky; kz] (length d))) with
          | Ok kept => Ok (map (fun i => nth i d zero_facet) (np_sort kept))
          | Raise e => Raise e
          end).
  destruct lexsort_sorted as [Hs Hmem]. cbv zeta in Hs, Hmem.
  assert (Hlen : length (lexsort [kx; ky; kz] (length d)) = length d).
  { unfold lexsort. cbn [fold_left].
    now rewrite !argsort_stable_length, length_seq. }
  destruct (lexsort [kx; ky; kz] (length d)) as [|x l] eqn:Eidx.
  { cbn in Hlen. lia. }
  rewrite adjacent_diff_mark. unfold np_mask.
  cbn [length]. rewrite mark_length, Nat.eqb_refl. cbn [select].
  f_equal. f_equal.
  pose proof (R3_sorted_NoDup _ Hs) as Hnd.
  apply ascending_unique.
  - apply np_sort_sorted.
    change (x :: select l (mark x l))
      with (select (x :: l) (true :: mark x l)).
    now apply select_NoDup.
  - apply filter_ascending, seq_sorted.
  - intros i. rewrite np_sort_In, filter_In, in_seq, first_occurrence_spec.
    inversion Hs as [|? ? Hs' Hx]; subst. rewrite Forall_forall in Hx.
    cbn [In]. rewrite (select_mark_In l x i Hs). split.
    + intros Hi.
      assert (Hin : In i (x :: l) /\
                    forall c, In c (x :: l) -> same c i -> (i <= c)%nat).
      { destruct Hi as [<-|[Hil Hmin]]; [|split; [now right | exact Hmin]].
        split; [now left|]. intros c [<-|Hc] Hsame; [lia|].
        pose proof (R3_same_lt x c (Hx c Hc) (same_sym c x Hsame)). lia. }
      destruct Hin as [Hin Hmin]. apply Hmem in Hin.
      split; [lia|]. intros c Hc Hsame.
      assert (Hcin : In c (x :: l)) by (apply Hmem; lia).
      specialize (Hmin c Hcin Hsame). lia.
    + intros [Hi Hfirst].
      assert (Hin : In i (x :: l)) by (apply Hmem; lia).
      assert (Hmin : forall c, In c (x :: l) -> same c i -> (i <= c)%nat).
      { intros c Hc Hsame. destruct (Nat.le_gt_cases i c); [assumption|].
        exfalso. now apply (Hfirst c). }
      destruct Hin as [<-|Hil]; [now left | right; auto].
Qed.

End Duplicates.

Section DuplicatesGone.
Local Open Scope R_scope.

Lemma vec3_neb_eq (a b : vec3 R) : vec3_neb a b = false <-> a = b.
Proof.
  unfold vec3_neb. destruct a as [[a0 a1] a2], b as [[b0 b1] b2].
  cbn [eqb R_arith].
  destruct (Reqb_spec a0 b0), (Reqb_spec a1 b1), (Reqb_spec a2 b2);
    cbn [negb orb]; split; intros E; try discriminate; try congruence.
Qed.

Lemma forallb_false {A} (p : A -> bool) (l : list A) :
  forallb p l = false -> exists x, In x l /\ p x = false.
Proof.
  induction l as [|a l IH]; cbn [forallb]; [discriminate|].
  destruct (p a) eqn:E; cbn [andb]; intros Hl.
  - destruct (IH Hl) as [x [Hx Hp]]. exists x. split; [now right | exact Hp].
  - exists a. split; [now left | exact E].
Qed.

(** Every row has the vertex sum of a row that comes first with it. *)
Lemma first_occurrence_exists (rows : list (facet R)) (i : nat) :
  exists c,
    (c <= i)%nat /\ first_occurrence rows c = true
    /\ polygon_sum (nth c rows zero_facet)
       = polygon_sum (nth i rows zero_facet).
Proof.
  induction i as [i IH] using lt_wf_ind.
  destruct (first_occurrence rows i) eqn:E.
  - exists i. auto.
  - unfold first_occurrence in E. apply forallb_false in E.
    destruct E as [c [Hc Hsame]]. apply (proj1 (in_seq _ _ _)) in Hc.
    apply (proj1 (vec3_neb_eq _ _)) in Hsame.
    assert (Hlt : (c < i)%nat) by lia.
    destruct (IH c Hlt) as [c' [Hle [Hfirst Hsum]]].
    exists c'. split; [lia|]. split; [exact Hfirst | congruence].
Qed.

(** X20.  In exact arithmetic, of data with at least one triangle,
    [remove_duplicate_polygons] keeps the rows whose vertex sum (the three
    vertices added, coordinate by coordinate) differs from the vertex sum
    of every earlier row, in the order they have in [data]: rows count as
    duplicates when their vertex sums agree, and the first of them
    stays.  So no two rows of the result have one vertex sum, every row
    of [data] has the vertex sum of a row of the result, and the first
    row of [data] is the first row of the result. *)
Theorem remove_duplicate_polygons_keeps_first (f : facet R)
        (d : list (facet R)) :
  let rows := f :: d in
  exists r,
    remove_duplicate_polygons rows = Ok r
    /\ r = map (fun i => nth i rows zero_facet)
               (filter (first_occurrence rows) (seq 0 (length rows)))
    /\ NoDup (map polygon_sum r)
    /\ (forall g, In g rows ->
                  exists g', In g' r /\ polygon_sum g' = polygon_sum g)
    /\ hd_error r = Some f.
Proof.
  intros rows. eexists. split.
  { apply remove_duplicates_by_position. unfold rows. cbn [length]. lia. }
  split; [reflexivity|]. split; [|split].
  - rewrite map_map.
    apply NoDup_map_NoDup_ForallPairs;
      [|apply NoDup_filter, seq_NoDup].
    intros i j Hi Hj Hsum. apply filter_In in Hi, Hj.
    destruct Hi as [_ Hi], Hj as [_ Hj].
    assert (Hno : forall a b, (a < b)%nat ->
                    first_occurrence rows b = true ->
                    polygon_sum (nth a rows zero_facet)
                    <> polygon_sum (nth b rows zero_facet)).
    { intros a b Hab Hb E. unfold first_occurrence in Hb.
      rewrite forallb_forall in Hb.
      assert (Hin : In a (seq 0 b)) by (apply in_seq; lia).
      specialize (Hb a Hin). apply (proj2 (vec3_neb_eq _ _)) in E.
      congruence. }
    destruct (Nat.lt_trichotomy i j) as [Hlt|[E|Hgt]]; [|exact E|].
    + exfalso. exact (Hno i j Hlt Hj Hsum).
    + exfalso. exact (Hno j i Hgt Hi (eq_sym Hsum)).
  - intros g Hg. apply (In_nth _ _ zero_facet) in Hg.
    destruct Hg as [i [Hi <-]].
    destruct (first_occurrence_exists rows i) as [c [Hle [Hfirst Hsum]]].
    exists (nth c rows zero_facet). split; [|exact Hsum].
    apply in_map_iff. exists c. split; [reflexivity|].
    apply filter_In. split; [apply in_seq; lia | exact Hfirst].
  - reflexivity.
Qed.

End DuplicatesGone.

(** ** Construction *)

Section MeshInit.
Local Open Scope R_scope.

(** X21.  In exact arithmetic, [Mesh(data, remove_empty_areas=True)] returns a
    mesh of the triangles of [data] whose vertices are not on one line, in
    their order and with their vertices; every stored normal is the cross
    product of the edges, and every area that [areas] then returns is
    above zero. *)
Theorem init_removes_empty_areas (name : String.string)
        (d : list (facet R)) :
  exists m,
    Mesh_init d true true false name = Ok m
    /\ map (fun f => (f_v0 f, f_v1 f, f_v2 f)) (data m)
       = map (fun f => (f_v0 f, f_v1 f, f_v2 f)) (remove_empty_areas d)
    /\ Forall (fun f => ~ collinear f /\ f_normals f = facet_normal f)
              (data m)
    /\ Forall (fun a => 0 < a) (fst (get_areas m))
    /\ (Mesh_len m <= Z.of_nat (length d))%Z.
Proof.
  eexists. split; [reflexivity|].
  unfold update_normals, set_data, get_areas, Mesh_len, half_lengths,
    normals.
  cbn [data _areas fst]. rewrite !map_map.
  cbn [set_f_normals f_v0 f_v1 f_v2 f_normals].
  split; [reflexivity|].
  assert (Hkept : forall f, In f (remove_empty_areas d) ->
                            facet_normal f <> (0, 0, 0)).
  { intros f Hf. unfold remove_empty_areas in Hf. apply filter_In in Hf.
    destruct Hf as [_ Hf]. rewrite keeps_facet in Hf.
    rewrite <- sum_squares_zero.
    destruct (Reqb_spec (sum_squares (facet_normal f)) 0);
      [discriminate | assumption]. }
  split; [|split].
  - apply Forall_forall. intros f' Hf'. apply in_map_iff in Hf'.
    destruct Hf' as [f [<- Hf]]. split; [|reflexivity].
    intros Hc.
    change (collinear (set_f_normals f (facet_normal f)))
      with (collinear f) in Hc.
    apply facet_normal_zero_collinear in Hc. now apply (Hkept f).
  - apply Forall_forall. intros a Ha. apply in_map_iff in Ha.
    destruct Ha as [f [<- Hf]]. rewrite half_length_R.
    pose proof (Hkept f Hf) as Hn. rewrite <- sum_squares_zero in Hn.
    pose proof (sum_squares_nonneg (facet_normal f)).
    assert (0 < R_sqrt.sqrt (sum_squares (facet_normal f)))
      by (apply sqrt_lt_R0; lra).
    lra.
  - rewrite length_map. apply inj_le. unfold remove_empty_areas.
    apply filter_length_le.
Qed.

End MeshInit.
